(** * Hive: minion lifecycle, dependency scheduler and mailbox

    A shallow embedding of the [Hive] class of [index.js] (the version that
    has [spawnWaiting], [start], [checkAndStartDependents] and the network
    mailbox), and the properties of it that the specification states.

    Modelling conventions.
    - The directory [hiveDir/minions] is a finite map from the names of its
      entries to the files the class reads and writes in a minion directory
      ([meta.json], [TASK.md], [STATUS], [output/]).  [hiveDir/network] is a
      finite map from inbox names to the files of that inbox.
    - The class joins the names it is given to these directories with
      [path.join].  For a name that is one path component ([entryName]) the
      joined path is the entry of that name, and this is what the lookups of
      the model are; a name with a [/] in it, [.] or [..] would be resolved
      by [path.join] to some other place.  The properties that depend on a
      name being looked up rightly say so: the name is a key of the map or
      satisfies [entryName].
    - [fs.readdirSync] returns the names of a directory in ascending order
      of their bytes (libuv sorts what [scandir] gives with [strcmp]).
    - [meta.json] is kept in parsed form: [JSON.parse (JSON.stringify m)] is
      taken to be [m].  A field that is [undefined] or absent is [None].
    - [_docker cmd] runs an external command: it is an oracle from the
      command line to its standard output, [None] when [execSync] throws.
    - A string is a sequence of code units below 256, the ones [ascii] has.
      On these the order of the bytes of the UTF-8 encoding is the order of
      the code units, and a code unit from 128 on takes two bytes.
    - A thrown [Error] is a value [Throw e]; every operation returns its
      outcome together with the file system it leaves behind, so what was
      written before a throw stays written.
    - Numbers are integers: the doubles of the code agree with them below
      2^53, and times are milliseconds.
    - [hiveDir/templates] is a finite map from file names to files, kept
      apart from the hive. *)

From Stdlib Require Import String Ascii NArith ZArith List Bool Lia.
From stdpp Require Import base option list gmap strings sorting fin_maps.

Local Open Scope string_scope.

(** ** JavaScript string helpers *)

Module Js.

(** Truthiness of a string-or-undefined value: [undefined], [null] and the
    empty string are falsy. *)
Definition truthy (v : option string) : bool :=
  match v with
  | Some s => negb (String.eqb s "")
  | None => false
  end.

(** [a || b] on such values. *)
Definition or_else (a b : option string) : option string :=
  if truthy a then a else b.

(** The white space and the line terminators [String.prototype.trim]
    removes: of the code units below 256 these are the controls 9 to 13, the
    space 32 and the no-break space 160. *)
Definition is_space (c : ascii) : bool :=
  let n := nat_of_ascii c in
  (Nat.leb 9 n && Nat.leb n 13) || Nat.eqb n 32 || Nat.eqb n 160.

Fixpoint trim_start (s : string) : string :=
  match s with
  | String c r => if is_space c then trim_start r else s
  | EmptyString => EmptyString
  end.

(** Drops the white space at the end: a character is kept when it is not a
    space or when something is kept after it. *)
Fixpoint trim_end (s : string) : string :=
  match s with
  | String c r =>
      match trim_end r with
      | EmptyString => if is_space c then EmptyString else String c EmptyString
      | r' => String c r'
      end
  | EmptyString => EmptyString
  end.

Definition trim (s : string) : string := trim_end (trim_start s).

Fixpoint ends_with (s suffix : string) : bool :=
  String.eqb s suffix ||
  match s with
  | String _ r => ends_with r suffix
  | EmptyString => false
  end.

(** [arr.join(sep)]. *)
Definition join (sep : string) (l : list string) : string := String.concat sep l.

(** Decimal digits of a number, least significant first; [fuel] bounds the
    number of digits. *)
Fixpoint digits_le (fuel : nat) (n : N) : list ascii :=
  match fuel with
  | O => []
  | S f =>
      let d := ascii_of_N (48 + n mod 10) in
      if (n <? 10)%N then [d] else d :: digits_le f (n / 10)%N
  end.

(** [String(n)] for a non-negative BigInt. *)
Definition decimal (n : N) : string :=
  string_of_list_ascii (rev (digits_le (S (N.to_nat (N.log2 n))) n)).

(** [a.sort()] without a comparator orders strings by code units. *)
Definition str_le (a b : string) : Prop := String.leb a b = true.

#[global] Instance str_le_dec a b : Decision (str_le a b).
Proof. unfold str_le. apply _. Defined.

Definition sort (l : list string) : list string := merge_sort str_le l.

End Js.

(** ** Data model *)

(** ISO time stamps, as the instant they denote (milliseconds). *)
Definition Time := N.

(** The fields of [meta.json] that the class writes. *)
Record Meta := mkMeta {
  name : string;
  createdAt : Time;
  task : string;
  status : string;
  containerId : option string;
  dependsOn : option string;
  memory : option string;
  cpus : option string;
  startedAt : option Time;
  killedAt : option Time;
  pausedAt : option Time;
  resumedAt : option Time;
  restartedAt : option Time;
  retriedAt : option Time;
  retryOf : option Time;
  renamedFrom : option string;
  renamedAt : option Time;
  clonedFrom : option string;
  clonedAt : option Time
}.

(** A minion directory. *)
Record MinionDir := mkDir {
  metaJson : option Meta;
  taskMd : option string;
  statusFile : option string;
  outputDir : option (gmap string string)
}.

(** A mailbox message, the content of one file of an inbox. *)
Record Msg := mkMsg {
  msg_id : string;
  msg_from : string;
  msg_to : string;
  msg_body : string;
  msg_timestamp : Time
}.

(** The two directories of the hive. *)
Record Hive := mkHive {
  minions : gmap string MinionDir;
  network : gmap string (gmap string Msg)
}.

(** The option bag of [spawn], [start] and [retry]. *)
Record Options := mkOptions {
  claudeToken : option string;
  keepAlive : bool;
  o_memory : option string;
  o_cpus : option string
}.

Definition noOptions : Options := mkOptions None false None None.

(** What surrounds one call: the docker oracle, the clock, and the paths. *)
Record Env := mkEnv {
  docker : string -> option string;
  now : Time;
  hrtime : N;
  random : string;
  minionsDir : string;
  dockerfilePath : string
}.

(** The messages of the errors the class throws. *)
Inductive Err :=
| NameRequired
| NameTooLong (len : nat)
| NameInvalid (n : string)
| AlreadyExists (n : string)
| NotFound (n : string)
| DependencyNotFound (n : string)
| NotPendingWaiting (n st : string)
| NoTaskMd (n : string)
| SourceNoTaskMd
| NoContainer (n : string)
| DockerFailed (cmd : string)
| FailedTo (what : string)
| CannotRenameRunning (n : string)
| SenderNotFound (n : string)
| RecipientNotFound (n : string)
| ENOENT (path : string)
| ENOTEMPTY (path : string).

(** The error kinds of the specification. *)
Inductive Kind :=
| InvalidName | KAlreadyExists | KNotFound | InvalidTransition | NoSandbox
| MissingTask | AdapterError | RunningConflict | FsError.

Definition kind (e : Err) : Kind :=
  match e with
  | NameRequired | NameTooLong _ | NameInvalid _ => InvalidName
  | AlreadyExists _ => KAlreadyExists
  | NotFound _ | DependencyNotFound _ | SenderNotFound _ | RecipientNotFound _ => KNotFound
  | NotPendingWaiting _ _ => InvalidTransition
  | NoTaskMd _ | SourceNoTaskMd => MissingTask
  | NoContainer _ => NoSandbox
  | DockerFailed _ | FailedTo _ => AdapterError
  | CannotRenameRunning _ => RunningConflict
  | ENOENT _ | ENOTEMPTY _ => FsError
  end.

Inductive Result (A : Type) :=
| Ok (a : A)
| Throw (e : Err).
Arguments Ok {A} a.
Arguments Throw {A} e.

(** ** A state-and-exception monad over the file system *)

Definition M (A : Type) : Type := Hive -> Result A * Hive.

#[global] Instance M_ret : MRet M := fun A a h => (Ok a, h).
#[global] Instance M_bind : MBind M := fun A B k m h =>
  match m h with
  | (Ok a, h') => k a h'
  | (Throw e, h') => (Throw e, h')
  end.
Definition throw {A} (e : Err) : M A := fun h => (Throw e, h).
(** [try { m } catch { }]: the effects of [m] stay, its error is dropped. *)
Definition try_ {A} (m : M A) : M unit :=
  fun h => match m h with (_, h') => (Ok tt, h') end.
Definition get : M Hive := fun h => (Ok h, h).
Definition put (h : Hive) : M unit := fun _ => (Ok tt, h).

(** ** Field updates of [meta.json] *)

Definition set_name (v : string) (m : Meta) : Meta :=
  mkMeta v (createdAt m) (task m) (status m) (containerId m) (dependsOn m)
    (memory m) (cpus m) (startedAt m) (killedAt m) (pausedAt m) (resumedAt m)
    (restartedAt m) (retriedAt m) (retryOf m) (renamedFrom m) (renamedAt m)
    (clonedFrom m) (clonedAt m).
Definition set_status (v : string) (m : Meta) : Meta :=
  mkMeta (name m) (createdAt m) (task m) v (containerId m) (dependsOn m)
    (memory m) (cpus m) (startedAt m) (killedAt m) (pausedAt m) (resumedAt m)
    (restartedAt m) (retriedAt m) (retryOf m) (renamedFrom m) (renamedAt m)
    (clonedFrom m) (clonedAt m).
Definition set_containerId (v : option string) (m : Meta) : Meta :=
  mkMeta (name m) (createdAt m) (task m) (status m) v (dependsOn m)
    (memory m) (cpus m) (startedAt m) (killedAt m) (pausedAt m) (resumedAt m)
    (restartedAt m) (retriedAt m) (retryOf m) (renamedFrom m) (renamedAt m)
    (clonedFrom m) (clonedAt m).
Definition set_memory (v : option string) (m : Meta) : Meta :=
  mkMeta (name m) (createdAt m) (task m) (status m) (containerId m) (dependsOn m)
    v (cpus m) (startedAt m) (killedAt m) (pausedAt m) (resumedAt m)
    (restartedAt m) (retriedAt m) (retryOf m) (renamedFrom m) (renamedAt m)
    (clonedFrom m) (clonedAt m).
Definition set_cpus (v : option string) (m : Meta) : Meta :=
  mkMeta (name m) (createdAt m) (task m) (status m) (containerId m) (dependsOn m)
    (memory m) v (startedAt m) (killedAt m) (pausedAt m) (resumedAt m)
    (restartedAt m) (retriedAt m) (retryOf m) (renamedFrom m) (renamedAt m)
    (clonedFrom m) (clonedAt m).
Definition set_startedAt (v : Time) (m : Meta) : Meta :=
  mkMeta (name m) (createdAt m) (task m) (status m) (containerId m) (dependsOn m)
    (memory m) (cpus m) (Some v) (killedAt m) (pausedAt m) (resumedAt m)
    (restartedAt m) (retriedAt m) (retryOf m) (renamedFrom m) (renamedAt m)
    (clonedFrom m) (clonedAt m).
Definition set_killedAt (v : Time) (m : Meta) : Meta :=
  mkMeta (name m) (createdAt m) (task m) (status m) (containerId m) (dependsOn m)
    (memory m) (cpus m) (startedAt m) (Some v) (pausedAt m) (resumedAt m)
    (restartedAt m) (retriedAt m) (retryOf m) (renamedFrom m) (renamedAt m)
    (clonedFrom m) (clonedAt m).
Definition set_pausedAt (v : Time) (m : Meta) : Meta :=
  mkMeta (name m) (createdAt m) (task m) (status m) (containerId m) (dependsOn m)
    (memory m) (cpus m) (startedAt m) (killedAt m) (Some v) (resumedAt m)
    (restartedAt m) (retriedAt m) (retryOf m) (renamedFrom m) (renamedAt m)
    (clonedFrom m) (clonedAt m).
Definition set_resumedAt (v : Time) (m : Meta) : Meta :=
  mkMeta (name m) (createdAt m) (task m) (status m) (containerId m) (dependsOn m)
    (memory m) (cpus m) (startedAt m) (killedAt m) (pausedAt m) (Some v)
    (restartedAt m) (retriedAt m) (retryOf m) (renamedFrom m) (renamedAt m)
    (clonedFrom m) (clonedAt m).
Definition set_restartedAt (v : Time) (m : Meta) : Meta :=
  mkMeta (name m) (createdAt m) (task m) (status m) (containerId m) (dependsOn m)
    (memory m) (cpus m) (startedAt m) (killedAt m) (pausedAt m) (resumedAt m)
    (Some v) (retriedAt m) (retryOf m) (renamedFrom m) (renamedAt m)
    (clonedFrom m) (clonedAt m).
Definition set_renamed (from : string) (v : Time) (m : Meta) : Meta :=
  mkMeta (name m) (createdAt m) (task m) (status m) (containerId m) (dependsOn m)
    (memory m) (cpus m) (startedAt m) (killedAt m) (pausedAt m) (resumedAt m)
    (restartedAt m) (retriedAt m) (retryOf m) (Some from) (Some v)
    (clonedFrom m) (clonedAt m).
Definition set_cloned (from : string) (v : Time) (m : Meta) : Meta :=
  mkMeta (name m) (createdAt m) (task m) (status m) (containerId m) (dependsOn m)
    (memory m) (cpus m) (startedAt m) (killedAt m) (pausedAt m) (resumedAt m)
    (restartedAt m) (retriedAt m) (retryOf m) (renamedFrom m) (renamedAt m)
    (Some from) (Some v).

(** [if (v) meta.memory = v]: a truthy value is stored, a falsy one leaves
    the field as it is. *)
Definition store_if (v : option string) (old : option string) : option string :=
  if Js.truthy v then v else old.

(** ** File system and docker primitives *)

Definition IMAGE_NAME : string := "cortex/hive-minion".

Fixpoint all_chars (p : ascii -> bool) (s : string) : bool :=
  match s with
  | String c r => p c && all_chars p r
  | EmptyString => true
  end.

(** The bytes a string takes in UTF-8, which is how file names and file
    contents are stored. *)
Fixpoint utf8Length (s : string) : nat :=
  match s with
  | String c r => (if Nat.ltb (nat_of_ascii c) 128 then 1 else 2) + utf8Length r
  | EmptyString => 0
  end.

(** A name of a directory entry, for which [path.join(dir, n)] is the entry
    [n] of [dir]: it is not empty, is neither [.] nor [..], holds no [/] and
    no NUL, and has at most 255 bytes. *)
Definition entryName (n : string) : bool :=
  negb (String.eqb n "") && negb (String.eqb n ".") && negb (String.eqb n "..") &&
  all_chars (fun c => negb (Ascii.eqb c "/") && negb (Ascii.eqb c "000")) n &&
  Nat.leb (utf8Length n) 255.

(** [fs.readdirSync(dir)]: the names of the entries, in ascending order. *)
Definition readdirSync {A} (dir : gmap string A) : list string :=
  Js.sort (map_to_list dir).*1.

(** The entries of a directory in the order [fs.readdirSync] gives their
    names, each with what is stored under it. *)
Definition entries {A} (dir : gmap string A) : list (string * A) :=
  omap (fun n => pair n <$> dir !! n) (readdirSync dir).

Arguments readdirSync : simpl never.
Arguments entries : simpl never.

(** [path.join(this.minionsDir, name)]. *)
Definition minionDirOf (e : Env) (n : string) : string := minionsDir e ++ "/" ++ n.

(** [this._docker(cmd)]. *)
Definition _docker (e : Env) (cmd : string) : M string :=
  match docker e cmd with
  | Some out => mret out
  | None => throw (DockerFailed cmd)
  end.

(** [fs.existsSync(path.join(this.minionsDir, name))]. *)
Definition existsMinion (n : string) : M bool :=
  h ← get; mret (bool_decide (is_Some (minions h !! n))).

(** [JSON.parse(fs.readFileSync(path.join(minionDir, 'meta.json'), 'utf8'))]. *)
Definition readMeta (e : Env) (n : string) : M Meta :=
  h ← get;
  match minions h !! n ≫= metaJson with
  | Some m => mret m
  | None => throw (ENOENT (minionDirOf e n ++ "/meta.json"))
  end.

(** [fs.existsSync(path.join(minionDir, 'TASK.md'))]. *)
Definition existsTask (n : string) : M bool :=
  h ← get; mret (bool_decide (is_Some (minions h !! n ≫= taskMd))).

Definition setMeta (m : Meta) (d : MinionDir) : MinionDir :=
  mkDir (Some m) (taskMd d) (statusFile d) (outputDir d).

(** [fs.writeFileSync(path.join(minionDir, 'meta.json'), JSON.stringify(meta))]. *)
Definition writeMeta (e : Env) (n : string) (m : Meta) : M unit :=
  h ← get;
  match minions h !! n with
  | Some d => put (mkHive (<[n := setMeta m d]> (minions h)) (network h))
  | None => throw (ENOENT (minionDirOf e n ++ "/meta.json"))
  end.

(** Replaces the whole directory [n] of [minions]. *)
Definition putDir (n : string) (d : MinionDir) : M unit :=
  h ← get; put (mkHive (<[n := d]> (minions h)) (network h)).

(** [imageExists()]: the inspect command is tried and its failure caught. *)
Definition imageExists (e : Env) : bool :=
  match docker e ("image inspect " ++ IMAGE_NAME) with
  | Some _ => true
  | None => false
  end.

(** [buildImage(dockerfilePath)]. *)
Definition buildImage (e : Env) : M bool :=
  _docker e ("build -t " ++ IMAGE_NAME ++ " " ++ dockerfilePath e);; mret true.

(** [if (!this.imageExists()) this.buildImage(...)]. *)
Definition buildIfNeeded (e : Env) : M unit :=
  if imageExists e then mret tt else buildImage e;; mret tt.

(** The [docker run] command line of [spawn], [start] and [retry]. *)
Definition envVars (options : Options) : list string :=
  (if Js.truthy (claudeToken options)
   then ["-e CLAUDE_CODE_OAUTH_TOKEN=" ++ default "" (claudeToken options)] else []) ++
  (if keepAlive options then ["-e KEEP_ALIVE=true"] else []).

Definition resourceArgs (mem cpu : option string) : list string :=
  (if Js.truthy mem then ["--memory=" ++ default "" mem] else []) ++
  (if Js.truthy cpu then ["--cpus=" ++ default "" cpu] else []).

Definition runCmd (e : Env) (n : string) (options : Options) (mem cpu : option string) : string :=
  "run -d --name hive-" ++ n ++ " " ++ Js.join " " (envVars options) ++ " " ++
  Js.join " " (resourceArgs mem cpu) ++ " -v " ++ minionDirOf e n ++
  ":/home/minion/workspace " ++ IMAGE_NAME.

(** ** The lifecycle operations *)

Definition is_alnum (c : ascii) : bool :=
  let n := nat_of_ascii c in
  (Nat.leb 48 n && Nat.leb n 57) || (Nat.leb 65 n && Nat.leb n 90) ||
  (Nat.leb 97 n && Nat.leb n 122).

Definition is_name_char (c : ascii) : bool :=
  is_alnum c || Ascii.eqb c "_" || Ascii.eqb c "." || Ascii.eqb c "-".

(** [/^[a-zA-Z0-9][a-zA-Z0-9_.-]*$/.test(name)]. *)
Definition name_pattern (n : string) : bool :=
  match n with
  | String c r => is_alnum c && all_chars is_name_char r
  | EmptyString => false
  end.

Definition _validateName (n : string) : M unit :=
  if String.eqb n "" then throw NameRequired
  else if Nat.ltb 128 (String.length n) then throw (NameTooLong (String.length n))
  else if negb (name_pattern n) then throw (NameInvalid n)
  else mret tt.

Record Started := mkStarted {
  r_name : string;
  r_containerId : string;
  r_minionDir : string
}.

Definition emptyDir : MinionDir := mkDir None None None (Some ∅).

Definition spawn (e : Env) (name : string) (task : string) (options : Options) : M Started :=
  _validateName name;;
  ex ← existsMinion name;
  if ex : bool then throw (AlreadyExists name) else
  let meta := mkMeta name (now e) (substring 0 200 task) "pending" None None
                None None None None None None None None None None None None None in
  putDir name (mkDir (Some meta) (Some task) None (Some ∅));;
  buildIfNeeded e;;
  out ← _docker e (runCmd e name options (o_memory options) (o_cpus options));
  let containerId := Js.trim out in
  let meta :=
    set_cpus (store_if (o_cpus options) None)
      (set_memory (store_if (o_memory options) None)
        (set_status "running" (set_containerId (Some containerId) meta))) in
  writeMeta e name meta;;
  mret (mkStarted name containerId (minionDirOf e name)).

Record Waiting := mkWaiting {
  w_name : string;
  w_minionDir : string;
  w_status : string;
  w_dependsOn : string
}.

Definition spawnWaiting (e : Env) (name task afterMinion : string) (options : Options)
  : M Waiting :=
  _validateName name;;
  ex ← existsMinion name;
  if ex : bool then throw (AlreadyExists name) else
  dep ← existsMinion afterMinion;
  if negb dep then throw (DependencyNotFound afterMinion) else
  let meta := mkMeta name (now e) (substring 0 200 task) "waiting" None (Some afterMinion)
                (store_if (o_memory options) None) (store_if (o_cpus options) None)
                None None None None None None None None None None None in
  putDir name (mkDir (Some meta) (Some task) None (Some ∅));;
  mret (mkWaiting name (minionDirOf e name) "waiting" afterMinion).

Definition start (e : Env) (name : string) (options : Options) : M Started :=
  ex ← existsMinion name;
  if negb ex then throw (NotFound name) else
  meta ← readMeta e name;
  if negb (String.eqb (status meta) "pending") && negb (String.eqb (status meta) "waiting")
  then throw (NotPendingWaiting name (status meta)) else
  hasTask ← existsTask name;
  if negb hasTask then throw (NoTaskMd name) else
  buildIfNeeded e;;
  let mem := Js.or_else (o_memory options) (memory meta) in
  let cpu := Js.or_else (o_cpus options) (cpus meta) in
  out ← _docker e (runCmd e name options mem cpu);
  let containerId := Js.trim out in
  let meta :=
    set_cpus (store_if cpu (cpus meta))
      (set_memory (store_if mem (memory meta))
        (set_startedAt (now e)
          (set_status "running" (set_containerId (Some containerId) meta)))) in
  writeMeta e name meta;;
  mret (mkStarted name containerId (minionDirOf e name)).

(** ** Listing and the dependency scheduler *)

(** The trimmed content of [STATUS], when the file exists. *)
Definition readTaskStatus (d : MinionDir) : option string :=
  Js.trim <$> statusFile d.

(** The content of [output/claude-output.log], when the file exists. *)
Definition readOutput (d : MinionDir) : option string :=
  out ← outputDir d; out !! "claude-output.log".

(** An entry of [list()]: the metadata with the two fields the listing adds. *)
Record Listed := mkListed {
  l_meta : Meta;
  containerStatus : option string;
  taskStatus : option string
}.

Definition inspectCmd (n : string) : string :=
  "inspect -f '{{.State.Status}}' hive-" ++ n.

Definition listEntry (e : Env) (entry : string * MinionDir) : option Listed :=
  meta ← metaJson entry.2;
  Some (mkListed meta
          (if Js.truthy (containerId meta)
           then Some (match docker e (inspectCmd entry.1) with
                      | Some out => Js.trim out
                      | None => "removed"
                      end)
           else None)
          (readTaskStatus entry.2)).

(** [list()]: the entries of the minions directory that have a
    [meta.json], in the order [fs.readdirSync] gives them. *)
Definition list_ (e : Env) : M (list Listed) :=
  h ← get; mret (omap (listEntry e) (entries (minions h))).

(** The body of the loop of [checkAndStartDependents], over the listing. *)
Fixpoint startDependents (e : Env) (options : Options) (ms : list Listed)
    (started : list (string * string)) : M (list (string * string)) :=
  match ms with
  | [] => mret started
  | m :: rest =>
      if negb (String.eqb (status (l_meta m)) "waiting") || negb (Js.truthy (dependsOn (l_meta m)))
      then startDependents e options rest started
      else
        let dep := default "" (dependsOn (l_meta m)) in
        h ← get;
        match minions h !! dep ≫= statusFile with
        | None => startDependents e options rest started
        | Some raw =>
            if String.eqb (Js.trim raw) "COMPLETE"
            then start e (name (l_meta m)) options;;
                 startDependents e options rest (started ++ [(name (l_meta m), dep)])
            else startDependents e options rest started
        end
  end.

Definition checkAndStartDependents (e : Env) (options : Options) : M (list (string * string)) :=
  ms ← list_ e; startDependents e options ms [].

(** ** Status and waiting *)

Record Status := mkStatus {
  s_meta : Meta;
  s_taskStatus : option string;
  s_output : option string;
  s_logs : option string
}.

(** [status(name)]. *)
Definition status_ (e : Env) (name : string) : M Status :=
  ex ← existsMinion name;
  if negb ex then throw (NotFound name) else
  meta ← readMeta e name;
  h ← get;
  let d : option MinionDir := minions h !! name in
  mret (mkStatus meta (d ≫= readTaskStatus) (d ≫= readOutput)
          (if Js.truthy (containerId meta)
           then Some (default "(container removed)" (docker e ("logs hive-" ++ name)))
           else None)).






(** ** Kill, restart, pause, resume *)

Record Outcome := mkOutcome {
  oc_name : string;
  oc_status : string
}.

Definition kill (e : Env) (name : string) : M Outcome :=
  ex ← existsMinion name;
  if negb ex then throw (NotFound name) else
  try_ (_docker e ("stop hive-" ++ name);; _docker e ("rm hive-" ++ name));;
  meta ← readMeta e name;
  writeMeta e name (set_killedAt (now e) (set_status "killed" meta));;
  mret (mkOutcome name "killed").

(** [try { m } catch (e) { throw new Error('Failed to ...') }]. *)
Definition rethrow {A} (what : string) (m : M A) : M A :=
  fun h => match m h with
           | (Throw _, h') => (Throw (FailedTo what), h')
           | r => r
           end.

Definition restart (e : Env) (name : string) : M Outcome :=
  ex ← existsMinion name;
  if negb ex then throw (NotFound name) else
  meta ← readMeta e name;
  if negb (Js.truthy (containerId meta)) then throw (NoContainer name) else
  rethrow "restart"
    (_docker e ("restart hive-" ++ name);;
     writeMeta e name (set_restartedAt (now e) (set_status "running" meta));;
     mret (mkOutcome name "restarted")).

Definition pause (e : Env) (name : string) : M Outcome :=
  ex ← existsMinion name;
  if negb ex then throw (NotFound name) else
  meta ← readMeta e name;
  if negb (Js.truthy (containerId meta)) then throw (NoContainer name) else
  rethrow "pause"
    (_docker e ("pause hive-" ++ name);;
     writeMeta e name (set_pausedAt (now e) (set_status "paused" meta));;
     mret (mkOutcome name "paused")).

Definition resume (e : Env) (name : string) : M Outcome :=
  ex ← existsMinion name;
  if negb ex then throw (NotFound name) else
  meta ← readMeta e name;
  if negb (Js.truthy (containerId meta)) then throw (NoContainer name) else
  rethrow "resume"
    (_docker e ("unpause hive-" ++ name);;
     writeMeta e name (set_resumedAt (now e) (set_status "running" meta));;
     mret (mkOutcome name "running")).

(** ** The mailbox *)

(** [_minionInbox(name)]: the inbox directory, made when it is missing. *)
Definition _minionInbox (name : string) : M (gmap string Msg) :=
  h ← get;
  match network h !! name with
  | Some files => mret files
  | None => put (mkHive (minions h) (<[name := ∅]> (network h)));; mret ∅
  end.

Definition send (e : Env) (from to body : string) : M Msg :=
  exFrom ← existsMinion from;
  if negb exFrom then throw (SenderNotFound from) else
  exTo ← existsMinion to;
  if negb exTo then throw (RecipientNotFound to) else
  files ← _minionInbox to;
  let id := Js.decimal (hrtime e) ++ "-" ++ from ++ "-" ++ random e in
  let msg := mkMsg id from to body (now e) in
  h ← get;
  put (mkHive (minions h) (<[to := <[id ++ ".json" := msg]> files]> (network h)));;
  mret msg.

(** The file names of an inbox that [inbox] and [clearInbox] select. *)
Definition jsonFiles (files : gmap string Msg) : list string :=
  filter (fun f => Js.ends_with f ".json" = true) (readdirSync files).

Definition inbox (name : string) : M (list Msg) :=
  ex ← existsMinion name;
  if negb ex then throw (NotFound name) else
  h ← get;
  match network h !! name with
  | None => mret []
  | Some files => mret (omap (fun f => files !! f) (Js.sort (jsonFiles files)))
  end.

Record Cleared := mkCleared {
  c_name : string;
  cleared : nat
}.

Definition clearInbox (name : string) : M Cleared :=
  ex ← existsMinion name;
  if negb ex then throw (NotFound name) else
  h ← get;
  match network h !! name with
  | None => mret (mkCleared name 0)
  | Some files =>
      let fs := jsonFiles files in
      put (mkHive (minions h) (<[name := foldr delete files fs]> (network h)));;
      mret (mkCleared name (length fs))
  end.

(** ** Clone, retry, rename *)

Record CloneOptions := mkCloneOptions {
  workspace : bool;
  withInbox : bool
}.

Record Cloned := mkCloned {
  cl_name : string;
  cl_clonedFrom : string;
  cl_mode : string;
  cl_path : string
}.

(** The full-workspace branch of [clone] after the recursive copy: the
    metadata is reset when [meta.json] exists, [STATUS] is removed and the
    output directory, when there is one, is emptied. *)
Definition resetClone (e : Env) (sourceName newName : string) (d : MinionDir) : MinionDir :=
  mkDir
    ((fun meta =>
        set_status "pending"
          (set_containerId None
            (set_cloned sourceName (now e) (set_name newName meta)))) <$> metaJson d)
    (taskMd d) None ((fun _ => ∅) <$> outputDir d).

(** [_copyDirRecursive(sourceInbox, newInbox)]: the files of the source are
    written over what the destination holds. *)
Definition copyInbox (sourceName newName : string) : M unit :=
  h ← get;
  match network h !! sourceName with
  | Some files =>
      put (mkHive (minions h)
             (<[newName := files ∪ default ∅ (network h !! newName)]> (network h)))
  | None => mret tt
  end.

Definition clone (e : Env) (sourceName newName : string) (options : CloneOptions) : M Cloned :=
  _validateName newName;;
  exSource ← existsMinion sourceName;
  if negb exSource then throw (NotFound sourceName) else
  exNew ← existsMinion newName;
  if exNew : bool then throw (AlreadyExists newName) else
  h ← get;
  match minions h !! sourceName, minions h !! sourceName ≫= taskMd with
  | Some d, Some task =>
      if workspace options then
        putDir newName (resetClone e sourceName newName d);;
        (if withInbox options then copyInbox sourceName newName else mret tt);;
        mret (mkCloned newName sourceName "workspace" (minionDirOf e newName))
      else
        let meta := mkMeta newName (now e) (substring 0 200 task) "pending" None None
                      None None None None None None None None None None None
                      (Some sourceName) (Some (now e)) in
        putDir newName (mkDir (Some meta) (Some task) None (Some ∅));;
        mret (mkCloned newName sourceName "task-only" (minionDirOf e newName))
  | _, _ => throw SourceNoTaskMd
  end.

(** What [retry] does to the directory before the new container is run:
    [STATUS] is removed and the output directory is made anew. *)
Definition resetRun (d : MinionDir) : MinionDir :=
  mkDir (metaJson d) (taskMd d) None (Some ∅).

Definition retry (e : Env) (name : string) (options : Options) : M Started :=
  ex ← existsMinion name;
  if negb ex then throw (NotFound name) else
  h ← get;
  match minions h !! name, minions h !! name ≫= taskMd with
  | Some d, Some task =>
      oldMeta ← readMeta e name;
      try_ (_docker e ("stop hive-" ++ name);; _docker e ("rm hive-" ++ name));;
      putDir name (resetRun d);;
      let mem := Js.or_else (o_memory options) (memory oldMeta) in
      let cpu := Js.or_else (o_cpus options) (cpus oldMeta) in
      buildIfNeeded e;;
      out ← _docker e (runCmd e name options mem cpu);
      let containerId := Js.trim out in
      let meta := mkMeta name (now e) (substring 0 200 task) "running" (Some containerId) None
                    (store_if mem None) (store_if cpu None)
                    None None None None None (Some (now e)) (Some (createdAt oldMeta))
                    None None None None in
      writeMeta e name meta;;
      mret (mkStarted name containerId (minionDirOf e name))
  | _, _ => throw (NoTaskMd name)
  end.

(** [s.replace(/'/g, '')]. *)
Fixpoint removeQuotes (s : string) : string :=
  match s with
  | String c r => if Ascii.eqb c "'" then removeQuotes r else String c (removeQuotes r)
  | EmptyString => EmptyString
  end.

(** The check of [rename] on a minion that has a container: the rename is
    refused when docker reports the container running or paused; a failing
    inspect is caught and lets the rename go on. *)
Definition checkNotRunning (e : Env) (oldName : string) (meta : Meta) : M unit :=
  if Js.truthy (containerId meta) then
    match docker e (inspectCmd oldName) with
    | Some out =>
        let st := removeQuotes (Js.trim out) in
        if String.eqb st "running" || String.eqb st "paused"
        then throw (CannotRenameRunning oldName)
        else mret tt
    | None => mret tt
    end
  else mret tt.

(** [fs.renameSync(oldInbox, newInbox)] when the old inbox exists: a
    directory cannot be moved onto one that has files. *)
Definition renameInbox (e : Env) (oldName newName : string) : M unit :=
  h ← get;
  match network h !! oldName with
  | Some files =>
      match network h !! newName with
      | Some other =>
          if bool_decide (other = ∅)
          then put (mkHive (minions h) (<[newName := files]> (delete oldName (network h))))
          else throw (ENOTEMPTY newName)
      | None => put (mkHive (minions h) (<[newName := files]> (delete oldName (network h))))
      end
  | None => mret tt
  end.

Record Renamed := mkRenamed {
  rn_oldName : string;
  rn_newName : string;
  rn_path : string
}.

Definition rename (e : Env) (oldName newName : string) : M Renamed :=
  _validateName newName;;
  exOld ← existsMinion oldName;
  if negb exOld then throw (NotFound oldName) else
  exNew ← existsMinion newName;
  if exNew : bool then throw (AlreadyExists newName) else
  meta ← readMeta e oldName;
  checkNotRunning e oldName meta;;
  h ← get;
  put (mkHive (match minions h !! oldName with
               | Some d => <[newName := d]> (delete oldName (minions h))
               | None => minions h
               end) (network h));;
  writeMeta e newName
    (set_containerId None (set_renamed oldName (now e) (set_name newName meta)));;
  renameInbox e oldName newName;;
  mret (mkRenamed oldName newName (minionDirOf e newName)).

(** ** Vocabulary of the properties *)

(** Whether the image is there or can be built: the error of
    [buildIfNeeded], if any. *)
Definition imageReady (e : Env) : option Err :=
  if imageExists e then None
  else match docker e ("build -t " ++ IMAGE_NAME ++ " " ++ dockerfilePath e) with
       | Some _ => None
       | None => Some (DockerFailed ("build -t " ++ IMAGE_NAME ++ " " ++ dockerfilePath e))
       end.

(** The command [start] runs for a minion with metadata [meta]. *)
Definition startCmd (e : Env) (k : string) (options : Options) (meta : Meta) : string :=
  runCmd e k options (Js.or_else (o_memory options) (memory meta))
    (Js.or_else (o_cpus options) (cpus meta)).

(** The metadata [start] writes when [docker run] printed [out]. *)
Definition startedMeta (e : Env) (options : Options) (meta : Meta) (out : string) : Meta :=
  set_cpus (store_if (Js.or_else (o_cpus options) (cpus meta)) (cpus meta))
    (set_memory (store_if (Js.or_else (o_memory options) (memory meta)) (memory meta))
      (set_startedAt (now e)
        (set_status "running" (set_containerId (Some (Js.trim out)) meta)))).

(** [start] seen from the one directory it reads and writes. *)
Definition startDir (e : Env) (k : string) (options : Options) (d : MinionDir)
  : Result (Started * MinionDir) :=
  match metaJson d with
  | None => Throw (ENOENT (minionDirOf e k ++ "/meta.json"))
  | Some meta =>
      if negb (String.eqb (status meta) "pending") && negb (String.eqb (status meta) "waiting")
      then Throw (NotPendingWaiting k (status meta))
      else match taskMd d with
           | None => Throw (NoTaskMd k)
           | Some _ =>
               match imageReady e with
               | Some err => Throw err
               | None =>
                   match docker e (startCmd e k options meta) with
                   | None => Throw (DockerFailed (startCmd e k options meta))
                   | Some out =>
                       Ok (mkStarted k (Js.trim out) (minionDirOf e k),
                           setMeta (startedMeta e options meta out) d)
                   end
               end
           end
  end.

(** The metadata of the minion stored under [k]. *)
Definition metaOf (h : Hive) (k : string) : option Meta := minions h !! k ≫= metaJson.

(** The terminal signal of [k]: the trimmed content of its [STATUS] file. *)
Definition signal (h : Hive) (k : string) : option string := minions h !! k ≫= readTaskStatus.

(** Every [meta.json] carries the name of its directory. *)
Definition named (h : Hive) : Prop :=
  map_Forall (λ k d, match metaJson d with
                     | Some m => String.eqb (name m) k
                     | None => true
                     end = true) (minions h).

#[global] Instance named_dec h : Decision (named h).
Proof. unfold named. apply _. Defined.

(** A name the validation accepts. *)
Definition validName (n : string) : Prop :=
  name_pattern n = true ∧ (String.length n ≤ 128)%nat.

(** The error of [_validateName], if any. *)
Definition nameFault (n : string) : option Err :=
  if String.eqb n "" then Some NameRequired
  else if Nat.ltb 128 (String.length n) then Some (NameTooLong (String.length n))
  else if negb (name_pattern n) then Some (NameInvalid n)
  else None.

(** The metadata [spawn] writes first, and the one it writes when
    [docker run] printed [out]. *)
Definition pendingMeta (e : Env) (k task : string) : Meta :=
  mkMeta k (now e) (substring 0 200 task) "pending" None None
    None None None None None None None None None None None None None.

Definition spawnedMeta (e : Env) (k task : string) (options : Options) (out : string) : Meta :=
  set_cpus (store_if (o_cpus options) None)
    (set_memory (store_if (o_memory options) None)
      (set_status "running" (set_containerId (Some (Js.trim out)) (pendingMeta e k task)))).

(** The command [spawn] runs. *)
Definition spawnCmd (e : Env) (k : string) (options : Options) : string :=
  runCmd e k options (o_memory options) (o_cpus options).

(** The hive with the directory [k] replaced. *)
Definition withDir (h : Hive) (k : string) (d : MinionDir) : Hive :=
  mkHive (<[k := d]> (minions h)) (network h).

(** The directory [spawn] creates before it runs docker. *)
Definition pendingDir (e : Env) (k task : string) : MinionDir :=
  mkDir (Some (pendingMeta e k task)) (Some task) None (Some ∅).

(** What the scheduler asks of a listed worker; [h] is read for the signal
    of the dependency only. *)
Definition eligible (h : Hive) (m : Meta) : bool :=
  String.eqb (status m) "waiting" && Js.truthy (dependsOn m) &&
  bool_decide (signal h (default "" (dependsOn m)) = Some "COMPLETE").




(** The listing [list()] returns in [h]. *)
Definition listing (e : Env) (h : Hive) : list Listed :=
  omap (listEntry e) (entries (minions h)).

(** The names of the entries of a listing. *)
Definition names (ms : list Listed) : list string := (λ m, name (l_meta m)) <$> ms.

(** The metadata and the directory [spawnWaiting] writes. *)
Definition waitingMeta (e : Env) (k task dep : string) (options : Options) : Meta :=
  mkMeta k (now e) (substring 0 200 task) "waiting" None (Some dep)
    (store_if (o_memory options) None) (store_if (o_cpus options) None)
    None None None None None None None None None None None.

Definition waitingDir (e : Env) (k task dep : string) (options : Options) : MinionDir :=
  mkDir (Some (waitingMeta e k task dep options)) (Some task) None (Some ∅).




(** The output [status] reads in [h] for [k]. *)
Definition outputOf (h : Hive) (k : string) : option string := minions h !! k ≫= readOutput.

(** The invariant of the specification on one metadata record: a running or
    paused worker has a container id, a waiting one has a dependency and no
    container id. *)
Definition metaInv (m : Meta) : Prop :=
  (status m = "running" ∨ status m = "paused" → containerId m ≠ None) ∧
  (status m = "waiting" → dependsOn m ≠ None ∧ containerId m = None).

(** Its second half. *)
Definition waitingInv (m : Meta) : Prop :=
  status m = "waiting" → dependsOn m ≠ None ∧ containerId m = None.

Definition dirInv (d : MinionDir) : Prop :=
  ∀ m, metaJson d = Some m → metaInv m.

(** The invariant on every worker of the hive. *)
Definition hiveInv (h : Hive) : Prop :=
  map_Forall (λ _ d, dirInv d) (minions h).

(** The id and the message [send] makes. *)
Definition messageId (e : Env) (from : string) : string :=
  Js.decimal (hrtime e) ++ "-" ++ from ++ "-" ++ random e.

Definition message (e : Env) (from to body : string) : Msg :=
  mkMsg (messageId e from) from to body (now e).

(** The file [send] writes. *)
Definition fileOf (e : Env) (from : string) : string := messageId e from ++ ".json".

(** The files of the inbox of [to], none when the directory is missing. *)
Definition inboxFiles (h : Hive) (to : string) : gmap string Msg :=
  default ∅ (network h !! to).

(** The messages [inbox] returns. *)
Definition inboxOf (h : Hive) (k : string) : list Msg :=
  match (inbox k h).1 with
  | Ok msgs => msgs
  | Throw _ => []
  end.

(** A sequence of [send] calls to one recipient, each with its surroundings,
    its sender and its body. *)
Fixpoint sendAll (to : string) (steps : list (Env * string * string)) : M (list Msg) :=
  match steps with
  | [] => mret []
  | (e, from, body) :: rest =>
      msg ← send e from to body; msgs ← sendAll to rest; mret (msg :: msgs)
  end.

(** The file of a step, and the order of file names [inbox] sorts by. *)
Definition stepFile (step : Env * string * string) : string := fileOf step.1.1 step.1.2.

Definition stepMessage (to : string) (step : Env * string * string) : Msg :=
  message step.1.1 step.1.2 to step.2.

Definition str_lt (a b : string) : Prop := String.ltb a b = true.

(** Decimal digits and the number a list of them denotes, most significant
    digit first, or least significant digit first. *)
Definition isDigit (c : ascii) : Prop := (48 ≤ N_of_ascii c ≤ 57)%N.

Definition digitOf (c : ascii) : N := (N_of_ascii c - 48)%N.

Fixpoint valueBE (l : list ascii) : N :=
  match l with
  | [] => 0%N
  | d :: t => (digitOf d * 10 ^ N.of_nat (length t) + valueBE t)%N
  end.

Fixpoint valueLE (l : list ascii) : N :=
  match l with
  | [] => 0%N
  | d :: t => (digitOf d + 10 * valueLE t)%N
  end.

(** Two steps sent in the order of the high-resolution clock, whose clock
    values have [w] decimal digits. *)
Definition clockOrder (w : nat) (s1 s2 : Env * string * string) : Prop :=
  (hrtime s1.1.1 < hrtime s2.1.1)%N ∧
  String.length (Js.decimal (hrtime s1.1.1)) = w ∧
  String.length (Js.decimal (hrtime s2.1.1)) = w.

(** ** Example surroundings *)

(** A docker that answers every command, as the mock of the tests does. *)
Definition dockerOk (cmd : string) : option string :=
  Some ("abc123containerid" ++ String "010" "").

(** A docker whose [run] command fails and whose other commands answer. *)
Definition dockerNoRun (cmd : string) : option string :=
  if String.prefix "run " cmd then None else Some "".

(** A docker that fails on every command. *)
Definition dockerDown (cmd : string) : option string := None.

Definition envWith (dk : string → option string) : Env :=
  mkEnv dk 1700000000000%N 1000%N "k3x9" "/hive/minions" "/opt/hive".

Definition emptyHive : Hive := mkHive ∅ ∅.

(** The hive after [m], whatever [m] returned. *)
Definition after {A} (m : M A) (h : Hive) : Hive := (m h).2.

(** The minion process writes [v] into the [STATUS] file of [k]. *)
Definition writeStatus (k v : string) (h : Hive) : Hive :=
  mkHive (alter (fun d => mkDir (metaJson d) (taskMd d) (Some v) (outputDir d)) k (minions h))
    (network h).


(** [dep] has completed and the workers [a] and [b] wait for it. *)
Definition fanHive : Hive :=
  writeStatus "dep" "COMPLETE"
    (after (spawnWaiting (envWith dockerOk) "b" "second" "dep" noOptions)
      (after (spawnWaiting (envWith dockerOk) "a" "first" "dep" noOptions)
        (after (spawn (envWith dockerOk) "dep" "zeroth" noOptions) emptyHive))).

(** The chain a, b, c in which only [a] has completed. *)
Definition chainHive : Hive :=
  writeStatus "a" "COMPLETE"
    (after (spawnWaiting (envWith dockerOk) "c" "third" "b" noOptions)
      (after (spawnWaiting (envWith dockerOk) "b" "second" "a" noOptions)
        (after (spawn (envWith dockerOk) "a" "first" noOptions) emptyHive))).

(** The surroundings of a [send]: the high-resolution clock and the random
    suffix of the call. *)
Definition envAt (hr : N) (rnd : string) : Env :=
  mkEnv dockerOk 1700000000000%N hr rnd "/hive/minions" "/opt/hive".

(** [a] and then [b] have written to [dep]. *)
Definition mailHive : Hive :=
  after (send (envAt 2000 "qq22") "b" "dep" "from b")
    (after (send (envAt 1000 "k3x9") "a" "dep" "from a") fanHive).

(** The worker [a] is running and its process has written WORKING. *)
Definition workingHive : Hive :=
  writeStatus "a" "WORKING" (after (spawn (envWith dockerOk) "a" "first" noOptions) emptyHive).

(** The operations of the lifecycle and of the scheduler, but for [rename]. *)
Inductive Op :=
| OpSpawn (k task : string) (options : Options)
| OpSpawnWaiting (k task dep : string) (options : Options)
| OpStart (k : string) (options : Options)
| OpPause (k : string)
| OpResume (k : string)
| OpRestart (k : string)
| OpKill (k : string)
| OpRetry (k : string) (options : Options)
| OpClone (source new : string) (options : CloneOptions)
| OpPass (options : Options).

(** The hive an operation leaves behind, whether it returned or threw. *)
Definition step (e : Env) (op : Op) (h : Hive) : Hive :=
  match op with
  | OpSpawn k task options => after (spawn e k task options) h
  | OpSpawnWaiting k task dep options => after (spawnWaiting e k task dep options) h
  | OpStart k options => after (start e k options) h
  | OpPause k => after (pause e k) h
  | OpResume k => after (resume e k) h
  | OpRestart k => after (restart e k) h
  | OpKill k => after (kill e k) h
  | OpRetry k options => after (retry e k options) h
  | OpClone source new options => after (clone e source new options) h
  | OpPass options => after (checkAndStartDependents e options) h
  end.

(** The hives these operations reach from the empty one, each operation in
    surroundings of its own. *)
Inductive reachable : Hive → Prop :=
| reach_empty : reachable emptyHive
| reach_step e op h : reachable h → reachable (step e op h).

(** A docker that reports every container as exited. *)
Definition dockerExited (cmd : string) : option string :=
  if String.prefix "inspect " cmd then Some ("'exited'" ++ String "010" "") else dockerOk cmd.

(** Two messages to [dep], sent while the high-resolution clock passes from
    fifteen to sixteen digits. *)
Definition rolloverHive : Hive :=
  after (send (envAt 1000000000000000 "qq22") "b" "dep" "second")
    (after (send (envAt 999999999999999 "k3x9") "a" "dep" "first") fanHive).

(** ** Reading a minion: collect and logs *)

Record Collected := mkCollected {
  co_name : string;
  co_taskStatus : option string;
  co_output : option string;
  co_logs : option string
}.

(** [collect(name)]. *)
Definition collect (e : Env) (name : string) : M Collected :=
  st ← status_ e name;
  mret (mkCollected name (s_taskStatus st) (s_output st) (s_logs st)).

(** [logs(name, lines)]. *)
Definition logs (e : Env) (name : string) (lines : N) : M string :=
  ex ← existsMinion name;
  if negb ex then throw (NotFound name) else
  meta ← readMeta e name;
  if negb (Js.truthy (containerId meta)) then throw (NoContainer name) else
  rethrow "get logs" (_docker e ("logs --tail " ++ Js.decimal lines ++ " hive-" ++ name)).

(** ** Cleanup *)

Record CleanupOptions := mkCleanupOptions {
  cu_all : bool;
  removeFiles : bool
}.

(** [fs.rmSync(minionDir, { recursive: true })]: a missing directory is an
    error, since [force] is not set. *)
Definition rmMinionDir (e : Env) (n : string) : M unit :=
  h ← get;
  match minions h !! n with
  | Some _ => put (mkHive (delete n (minions h)) (network h))
  | None => throw (ENOENT (minionDirOf e n))
  end.

(** The loop of [cleanup(options)], over the listing. *)
Fixpoint cleanupLoop (e : Env) (options : CleanupOptions) (ms : list Listed)
    (cleaned : list string) : M (list string) :=
  match ms with
  | [] => mret cleaned
  | m :: rest =>
      if bool_decide (taskStatus m = Some "COMPLETE") ||
         String.eqb (status (l_meta m)) "killed" || cu_all options
      then
        try_ (_docker e ("rm -f hive-" ++ name (l_meta m)));;
        (if removeFiles options then rmMinionDir e (name (l_meta m)) else mret tt);;
        cleanupLoop e options rest (cleaned ++ [name (l_meta m)])
      else cleanupLoop e options rest cleaned
  end.

Definition cleanup (e : Env) (options : CleanupOptions) : M (list string) :=
  ms ← list_ e; cleanupLoop e options ms [].

(** ** Ages and prune *)

Definition is_digit (c : ascii) : bool :=
  let n := nat_of_ascii c in Nat.leb 48 n && Nat.leb n 57.

(** The string without its last character, and that character. *)
Fixpoint splitLast (s : string) : option (string * ascii) :=
  match s with
  | EmptyString => None
  | String c r =>
      match splitLast r with
      | None => Some (EmptyString, c)
      | Some (p, l) => Some (String c p, l)
      end
  end.

(** [parseInt(s, 10)] on a string of decimal digits: the integer they
    denote, which is what the code computes as long as it is below 2^53;
    from there on a double rounds. *)
Definition parseDigits (s : string) : N := valueBE (list_ascii_of_string s).

(** [{ d: 86400000, h: 3600000, m: 60000 }[unit]]. *)
Definition ageMultiplier (u : ascii) : option Z :=
  if Ascii.eqb u "d" then Some 86400000%Z
  else if Ascii.eqb u "h" then Some 3600000%Z
  else if Ascii.eqb u "m" then Some 60000%Z
  else None.

Inductive AgeError := InvalidAge (ageStr : string).

(** [_parseAge(ageStr)]: the string matches [/^(\d+)(d|h|m)$/] or the call
    throws.  The product is that of the integers, which is what the code
    computes as long as it is below 2^53. *)
Definition _parseAge (ageStr : string) : AgeError + Z :=
  match splitLast ageStr with
  | Some (String c r, u) =>
      if all_chars is_digit (String c r) then
        match ageMultiplier u with
        | Some mult => inr (Z.of_N (parseDigits (String c r)) * mult)%Z
        | None => inl (InvalidAge ageStr)
        end
      else inl (InvalidAge ageStr)
  | _ => inl (InvalidAge ageStr)
  end.

(** [String(z)] for an integer. *)
Definition numberToString (z : Z) : string :=
  if (z <? 0)%Z then "-" ++ Js.decimal (Z.to_N (- z)) else Js.decimal (Z.to_N z).

(** [_formatAge(ms)]: [Math.floor(a / b)] is [a / b] and [a % b] is
    [Z.rem a b] on integers. *)
Definition _formatAge (ms : Z) : string :=
  let days := (ms / 86400000)%Z in
  let hours := (Z.rem ms 86400000 / 3600000)%Z in
  let minutes := (Z.rem ms 3600000 / 60000)%Z in
  if (0 <? days)%Z then numberToString days ++ "d " ++ numberToString hours ++ "h"
  else if (0 <? hours)%Z then numberToString hours ++ "h " ++ numberToString minutes ++ "m"
  else numberToString minutes ++ "m".

Record PruneOptions := mkPruneOptions {
  olderThan : option string;
  pr_all : bool;
  dryRun : bool
}.

Record Pruned := mkPruned {
  pr_name : string;
  pr_status : option string;
  pr_createdAt : Time;
  pr_age : string
}.

(** [if (fs.existsSync(dir)) fs.rmSync(dir, { recursive: true })] on a
    minion directory and on an inbox. *)
Definition removeMinionIfExists (n : string) : M unit :=
  h ← get; put (mkHive (delete n (minions h)) (network h)).

Definition removeInboxIfExists (n : string) : M unit :=
  h ← get; put (mkHive (minions h) (delete n (network h))).

(** The loop of [prune(options)], over the listing; [ageMs] is the parsed
    threshold. *)
Fixpoint pruneLoop (e : Env) (options : PruneOptions) (ageMs : Z) (ms : list Listed)
    (pruned : list Pruned) : M (list Pruned) :=
  match ms with
  | [] => mret pruned
  | m :: rest =>
      if negb (bool_decide (taskStatus m = Some "COMPLETE")) &&
         negb (bool_decide (taskStatus m = Some "FAILED"))
      then pruneLoop e options ageMs rest pruned
      else
        let ageOfMinion := (Z.of_N (now e) - Z.of_N (createdAt (l_meta m)))%Z in
        if pr_all options || (ageMs <=? ageOfMinion)%Z then
          (if negb (dryRun options) then
             try_ (_docker e ("rm -f hive-" ++ name (l_meta m)));;
             removeMinionIfExists (name (l_meta m));;
             removeInboxIfExists (name (l_meta m))
           else mret tt);;
          pruneLoop e options ageMs rest
            (pruned ++ [mkPruned (name (l_meta m)) (taskStatus m) (createdAt (l_meta m))
                          (_formatAge ageOfMinion)])
        else pruneLoop e options ageMs rest pruned
  end.

(** [prune(options)]: the threshold is parsed, unless [all] is set, before
    anything is read or removed. *)
Definition prune (e : Env) (options : PruneOptions) (h : Hive)
  : (AgeError + Result (list Pruned)) * Hive :=
  match (if pr_all options then inr 0%Z
         else _parseAge (default "7d" (Js.or_else (olderThan options) (Some "7d")))) with
  | inl err => (inl err, h)
  | inr ageMs =>
      let r := (ms ← list_ e; pruneLoop e options ageMs ms []) h in (inr r.1, r.2)
  end.

(** ** Broadcast *)

(** The loop of [broadcast(from, body)], over the listing.  Every [send] has
    surroundings of its own: [envs i] is the clock and the random suffix of
    the [i]-th of them. *)
Fixpoint broadcastLoop (envs : nat → Env) (i : nat) (from body : string) (ms : list Listed)
    (sent : list Msg) : M (list Msg) :=
  match ms with
  | [] => mret sent
  | m :: rest =>
      if negb (String.eqb (name (l_meta m)) from) then
        msg ← send (envs i) from (name (l_meta m)) body;
        broadcastLoop envs (S i) from body rest (sent ++ [msg])
      else broadcastLoop envs i from body rest sent
  end.

Definition broadcast (e : Env) (envs : nat → Env) (from body : string) : M (list Msg) :=
  ex ← existsMinion from;
  if negb ex then throw (SenderNotFound from) else
  ms ← list_ e; broadcastLoop envs 0 from body ms [].

(** ** Human-readable sizes *)

Definition units : list string := ["B"; "KB"; "MB"; "GB"].

(** The loop of [_humanSize(bytes)] for a whole number of bytes [n]: after
    [i] divisions by 1024 the variable [bytes] holds [n / 1024 ^ i], which a
    double holds exactly.  The result is the final [i]. *)
Fixpoint humanUnit (fuel : nat) (n : N) (i : nat) : nat :=
  match fuel with
  | O => i
  | S f =>
      if (1024 * 1024 ^ N.of_nat i <=? n)%N && Nat.ltb i (length units - 1)
      then humanUnit f n (S i) else i
  end.

(** [x.toFixed(1)] for [x = n / d]: the number of tenths nearest to [x], the
    larger one when two are as near. *)
Definition toFixed1 (n d : N) : string :=
  let t := ((20 * n + d) / (2 * d))%N in
  Js.decimal (t / 10) ++ "." ++ Js.decimal (t mod 10).

Definition _humanSize (bytes : N) : string :=
  let i := humanUnit (length units) bytes 0 in
  toFixed1 bytes (1024 ^ N.of_nat i) ++ nth i units "".

(** ** Templates *)

(** A file of the templates directory: its content and its modification
    time.  The directory is a finite map from file names to files. *)
Record TemplateFile := mkTemplateFile {
  tf_content : string;
  tf_mtime : Time
}.

Record SavedTemplate := mkSavedTemplate {
  sv_name : string;
  sv_path : string
}.

Record TemplateInfo := mkTemplateInfo {
  ti_name : string;
  ti_path : string;
  ti_size : nat;
  ti_modifiedAt : Time;
  ti_preview : string
}.

Inductive TemplateError := TemplateNotFound (n : string).

(** [templateSave(name, content)], in the directory [dir] at the time [t]. *)
Definition templateSave (dir : string) (t : Time) (name content : string)
    (files : gmap string TemplateFile) : SavedTemplate * gmap string TemplateFile :=
  (mkSavedTemplate name (dir ++ "/" ++ name ++ ".md"),
   <[name ++ ".md" := mkTemplateFile content t]> files).

(** [f.replace(/\.md$/, '')]. *)
Definition removeMd (f : string) : string :=
  if Js.ends_with f ".md" then substring 0 (String.length f - 3) f else f.

Definition templateList (dir : string) (files : gmap string TemplateFile) : list TemplateInfo :=
  (λ en : string * TemplateFile,
     mkTemplateInfo (removeMd en.1) (dir ++ "/" ++ en.1) (utf8Length (tf_content en.2))
       (tf_mtime en.2) (substring 0 100 (tf_content en.2))) <$>
  filter (λ en : string * TemplateFile, Js.ends_with en.1 ".md" = true) (entries files).

Definition templateGet (name : string) (files : gmap string TemplateFile)
  : TemplateError + string :=
  match files !! (name ++ ".md") with
  | Some f => inr (tf_content f)
  | None => inl (TemplateNotFound name)
  end.

Definition templateDelete (name : string) (files : gmap string TemplateFile)
  : (TemplateError + string * bool) * gmap string TemplateFile :=
  match files !! (name ++ ".md") with
  | Some _ => (inr (name, true), delete (name ++ ".md") files)
  | None => (inl (TemplateNotFound name), files)
  end.

(** ** Search *)

Record SearchOptions := mkSearchOptions {
  caseSensitive : bool;
  limit : Z;
  searchLogs : bool
}.

Record Hit := mkHit {
  hit_minion : string;
  hit_source : string;
  hit_line : nat;
  hit_text : string
}.

(** [s.split('\n')]. *)
Fixpoint splitLines (s : string) : list string :=
  match s with
  | EmptyString => [EmptyString]
  | String c r =>
      if Ascii.eqb c "010" then EmptyString :: splitLines r
      else match splitLines r with
           | l :: ls => String c l :: ls
           | [] => [String c EmptyString]
           end
  end.

(** How the [i] flag compares code units below 256: by their upper case,
    which for these is 32 below for the letters a to z and for the accented
    letters 224 to 254 but 247. *)
Definition canonicalize (c : ascii) : ascii :=
  let n := nat_of_ascii c in
  if (Nat.leb 97 n && Nat.leb n 122) ||
     (Nat.leb 224 n && Nat.leb n 254 && negb (Nat.eqb n 247))
  then ascii_of_nat (n - 32) else c.

(** ** Regular expressions

    [search] makes a regular expression of the escaped query and tries it on
    every line.  The patterns embedded here are those of ECMAScript without
    the [u] flag that are built from characters, [.], classes [[...]] with
    ranges and negation, the assertions [^] and [$], groups [( )],
    alternatives [|], the quantifiers [*], [+], [?], [{n}], [{n,}], [{n,m}]
    with their lazy forms, and a backslash before a character that is neither
    a letter nor a digit.  On any other pattern (class escapes such as [\d],
    back references, groups that begin with [(?]) the constructor below
    answers [NotCovered]. *)
Module RegExp.

Inductive Pattern : Type :=
| Epsilon
| Chr (c : ascii)
| Any
| CharClass (negated : bool) (ranges : list (ascii * ascii))
| Bol
| Eol
| Seq (a b : Pattern)
| Alt (a b : Pattern)
| Repeat (min : nat) (max : option nat) (a : Pattern).

(** What [new RegExp(pattern)] does: it returns, or throws a SyntaxError. *)
Inductive Compiled (A : Type) : Type :=
| Parses (a : A)
| SyntaxError
| NotCovered.
Arguments Parses {A} a.
Arguments SyntaxError {A}.
Arguments NotCovered {A}.

Definition and_then {A B} (x : Compiled A) (f : A → Compiled B) : Compiled B :=
  match x with
  | Parses a => f a
  | SyntaxError => SyntaxError
  | NotCovered => NotCovered
  end.

(** The characters that have a meaning of their own in a pattern
    (SyntaxCharacter): [^ $ \ . * + ? ( ) [ ] { } |]. *)
Definition syntaxCharacter (c : ascii) : bool :=
  existsb (Ascii.eqb c) (list_ascii_of_string "^$\.*+?()[]{}|").

Definition alphanumeric (c : ascii) : bool :=
  let n := nat_of_ascii c in
  (Nat.leb 48 n && Nat.leb n 57) || (Nat.leb 65 n && Nat.leb n 90) ||
  (Nat.leb 97 n && Nat.leb n 122).

(** The rest of a string that begins with [c]. *)
Definition strip (c : ascii) (s : string) : option string :=
  match s with
  | String d r => if Ascii.eqb d c then Some r else None
  | EmptyString => None
  end.

Definition digit (c : ascii) : option nat :=
  let n := nat_of_ascii c in
  if Nat.leb 48 n && Nat.leb n 57 then Some (n - 48) else None.

Fixpoint more_digits (acc : nat) (s : string) : nat * string :=
  match s with
  | String c r =>
      match digit c with
      | Some d => more_digits (10 * acc + d) r
      | None => (acc, s)
      end
  | EmptyString => (acc, s)
  end.

(** One or more decimal digits at the head of a string. *)
Definition decimal (s : string) : option (nat * string) :=
  match s with
  | String c r =>
      match digit c with
      | Some d => Some (more_digits d r)
      | None => None
      end
  | EmptyString => None
  end.

(** What follows an opening brace, when it is a quantifier: [n}], [n,}] or
    [n,m}]. *)
Definition braces (s : string) : option (nat * option nat * string) :=
  match decimal s with
  | Some (n, r) =>
      match strip "}" r with
      | Some r' => Some (n, Some n, r')
      | None =>
          match strip "," r with
          | Some r1 =>
              match strip "}" r1 with
              | Some r' => Some (n, None, r')
              | None =>
                  match decimal r1 with
                  | Some (m, r2) =>
                      match strip "}" r2 with
                      | Some r' => Some (n, Some m, r')
                      | None => None
                      end
                  | None => None
                  end
              end
          | None => None
          end
      end
  | None => None
  end.

(** A quantifier may be followed by [?], which makes it lazy; whether a
    match exists does not depend on it. *)
Definition lazy (s : string) : string :=
  match strip "?" s with
  | Some r => r
  | None => s
  end.

(** The quantifier at the head of a string, if there is one.  A brace that
    does not begin a quantifier is left for the next term. *)
Definition quantifier (s : string) : Compiled (option (nat * option nat) * string) :=
  match s with
  | String c r =>
      if Ascii.eqb c "*" then Parses (Some (0, None), lazy r)
      else if Ascii.eqb c "+" then Parses (Some (1, None), lazy r)
      else if Ascii.eqb c "?" then Parses (Some (0, Some 1), lazy r)
      else if Ascii.eqb c "{" then
        match braces r with
        | Some (n, Some m, r') =>
            if Nat.ltb m n then SyntaxError else Parses (Some (n, Some m), lazy r')
        | Some (n, None, r') => Parses (Some (n, None), lazy r')
        | None => Parses (None, s)
        end
      else Parses (None, s)
  | EmptyString => Parses (None, s)
  end.

(** One member of a class: a character, or a backslash and a character. *)
Definition classAtom (s : string) : Compiled (ascii * string) :=
  match s with
  | String c r =>
      if Ascii.eqb c "\" then
        match r with
        | String d r' => if alphanumeric d then NotCovered else Parses (d, r')
        | EmptyString => SyntaxError
        end
      else Parses (c, r)
  | EmptyString => SyntaxError
  end.

(** The members of a class up to the closing bracket; [a-b] is a range, and
    a [-] that is not between two members stands for itself. *)
Fixpoint classRanges (fuel : nat) (s : string) : Compiled (list (ascii * ascii) * string) :=
  match fuel with
  | O => NotCovered
  | S fuel' =>
      match strip "]" s with
      | Some r => Parses ([], r)
      | None =>
          and_then (classAtom s) (λ '(a, r1),
            let range :=
              match strip "-" r1 with
              | Some r2 => match strip "]" r2 with
                           | Some _ => None
                           | None => Some r2
                           end
              | None => None
              end in
            match range with
            | Some r2 =>
                and_then (classAtom r2) (λ '(b, r3),
                  if Nat.ltb (nat_of_ascii b) (nat_of_ascii a) then SyntaxError
                  else and_then (classRanges fuel' r3) (λ '(rs, r4),
                         Parses ((a, b) :: rs, r4)))
            | None =>
                and_then (classRanges fuel' r1) (λ '(rs, r4),
                  Parses ((a, a) :: rs, r4))
            end)
      end
  end.

(** An atom or an assertion at the head of a non-empty string that does not
    begin with [|] or [)]. *)
Definition atom (disjunction : string → Compiled (Pattern * string)) (s : string)
    : Compiled (Pattern * string) :=
  match s with
  | String c r =>
      if Ascii.eqb c "^" then Parses (Bol, r)
      else if Ascii.eqb c "$" then Parses (Eol, r)
      else if Ascii.eqb c "." then Parses (Any, r)
      else if Ascii.eqb c "\" then
        match r with
        | String d r' => if alphanumeric d then NotCovered else Parses (Chr d, r')
        | EmptyString => SyntaxError
        end
      else if Ascii.eqb c "(" then
        match strip "?" r with
        | Some _ => NotCovered
        | None =>
            and_then (disjunction r) (λ '(p, r1),
              match strip ")" r1 with
              | Some r2 => Parses (p, r2)
              | None => SyntaxError
              end)
        end
      else if Ascii.eqb c "[" then
        let '(negated, r1) := match strip "^" r with
                              | Some r1 => (true, r1)
                              | None => (false, r)
                              end in
        and_then (classRanges (S (String.length r1)) r1) (λ '(rs, r2),
          Parses (CharClass negated rs, r2))
      else if Ascii.eqb c "*" || Ascii.eqb c "+" || Ascii.eqb c "?" then SyntaxError
      else if Ascii.eqb c "{" then
        match braces r with
        | Some _ => SyntaxError
        | None => Parses (Chr c, r)
        end
      else Parses (Chr c, r)
  | EmptyString => SyntaxError
  end.

(** A term: an atom with its quantifier, or an assertion, which takes none. *)
Definition term (disjunction : string → Compiled (Pattern * string)) (s : string)
    : Compiled (Pattern * string) :=
  and_then (atom disjunction s) (λ '(p, r),
    and_then (quantifier r) (λ '(q, r'),
      match q with
      | None => Parses (p, r')
      | Some (min, max) =>
          match p with
          | Bol | Eol => SyntaxError
          | _ => Parses (Repeat min max p, r')
          end
      end)).

(** Terms up to the end of the pattern, a [|] or a [)]. *)
Fixpoint alternative (term : string → Compiled (Pattern * string)) (fuel : nat)
    (s : string) : Compiled (Pattern * string) :=
  match fuel with
  | O => NotCovered
  | S fuel' =>
      match s with
      | EmptyString => Parses (Epsilon, s)
      | String c _ =>
          if Ascii.eqb c "|" || Ascii.eqb c ")" then Parses (Epsilon, s)
          else and_then (term s) (λ '(p, r),
                 and_then (alternative term fuel' r) (λ '(q, r'),
                   Parses (Seq p q, r')))
      end
  end.

Fixpoint disjunction (fuel : nat) (s : string) : Compiled (Pattern * string) :=
  match fuel with
  | O => NotCovered
  | S fuel' =>
      and_then (alternative (term (disjunction fuel')) (S (String.length s)) s)
        (λ '(p, r),
          match strip "|" r with
          | Some r1 => and_then (disjunction fuel' r1) (λ '(q, r2), Parses (Alt p q, r2))
          | None => Parses (p, r)
          end)
  end.

(** [new RegExp(pattern, flags)]: the whole pattern is one disjunction; what
    is left over can only be an unmatched [)]. *)
Definition RegExp (pattern : string) : Compiled Pattern :=
  and_then (disjunction (S (String.length pattern)) pattern) (λ '(p, r),
    match r with
    | EmptyString => Parses p
    | _ => SyntaxError
    end).

Definition sameChar (ignoreCase : bool) (a b : ascii) : bool :=
  if ignoreCase then Ascii.eqb (canonicalize a) (canonicalize b) else Ascii.eqb a b.

(** Membership in a class; with the [i] flag a character belongs to it when
    some member has its canonical form. *)
Definition inRange (ignoreCase : bool) (d : ascii) (range : ascii * ascii) : bool :=
  let lo := nat_of_ascii range.1 in
  let hi := nat_of_ascii range.2 in
  if ignoreCase
  then existsb (λ n, Ascii.eqb (canonicalize (ascii_of_nat n)) (canonicalize d))
               (seq lo (S hi - lo))
  else Nat.leb lo (nat_of_ascii d) && Nat.leb (nat_of_ascii d) hi.

Definition lineTerminator (c : ascii) : bool :=
  Ascii.eqb c "010" || Ascii.eqb c "013".

(** A place in the subject: the code unit before it, if any, and what is
    left of the subject. *)
Definition Pos : Type := option ascii * string.

(** A term that takes one code unit. *)
Definition single (ok : ascii → bool) (p : Pos) : list Pos :=
  match p.2 with
  | String d r => if ok d then [(Some d, r)] else []
  | EmptyString => []
  end.

Definition progress (p q : Pos) : bool :=
  Nat.ltb (String.length q.2) (String.length p.2).

(** The places a quantified term can end at: [min] obligatory rounds, then
    rounds that must each take something, [max] in all. *)
Fixpoint iterate (step : Pos → list Pos) (fuel min : nat) (max : option nat)
    (p : Pos) : list Pos :=
  match fuel with
  | O => []
  | S fuel' =>
      match max with
      | Some O => [p]
      | _ =>
          match min with
          | S min' => step p ≫= iterate step fuel' min' (Nat.pred <$> max)
          | O => p :: (filter (λ q, progress p q = true) (step p)
                       ≫= iterate step fuel' 0 (Nat.pred <$> max))
          end
      end
  end.

(** The places at which a match of the pattern that begins at [p] can end. *)
Fixpoint ends (ignoreCase : bool) (re : Pattern) (p : Pos) : list Pos :=
  match re with
  | Epsilon => [p]
  | Chr c => single (sameChar ignoreCase c) p
  | Any => single (λ d, negb (lineTerminator d)) p
  | CharClass negated ranges =>
      single (λ d, xorb negated (existsb (inRange ignoreCase d) ranges)) p
  | Bol => match p.1 with None => [p] | Some _ => [] end
  | Eol => match p.2 with EmptyString => [p] | String _ _ => [] end
  | Seq a b => ends ignoreCase a p ≫= ends ignoreCase b
  | Alt a b => ends ignoreCase a p ++ ends ignoreCase b p
  | Repeat min max a =>
      iterate (ends ignoreCase a) (S (min + String.length p.2)) min max p
  end.

Definition matchesAt (ignoreCase : bool) (re : Pattern) (p : Pos) : bool :=
  match ends ignoreCase re p with
  | [] => false
  | _ :: _ => true
  end.

Fixpoint scan (ignoreCase : bool) (re : Pattern) (prev : option ascii) (s : string) : bool :=
  matchesAt ignoreCase re (prev, s) ||
  match s with
  | String c r => scan ignoreCase re (Some c) r
  | EmptyString => false
  end.

(** [regex.test(line)] when [lastIndex] is 0: a match is looked for at every
    index of the line, from the first to the one after the last. *)
Definition test (ignoreCase : bool) (re : Pattern) (line : string) : bool :=
  scan ignoreCase re None line.

End RegExp.

(** The characters [query.replace(/[.*+?^${}()|[\]\\]/g, '\\$&')] puts a
    backslash before. *)
Definition special (c : ascii) : bool :=
  existsb (Ascii.eqb c) (list_ascii_of_string ".*+?^${}()|[]\").

Fixpoint escaped (query : string) : string :=
  match query with
  | String c r =>
      if special c then String "\" (String c (escaped r)) else String c (escaped r)
  | EmptyString => EmptyString
  end.

(** [new RegExp(escaped, caseSensitive ? 'g' : 'gi')]. *)
Definition regex (query : string) : RegExp.Compiled RegExp.Pattern :=
  RegExp.RegExp (escaped query).

(** [regex.lastIndex = 0; regex.test(line)].  The constructor is called once,
    before the loop, and would throw on a pattern that is not well formed;
    an escaped query always is well formed ([regex_parses]). *)
Definition lineMatches (cs : bool) (query line : string) : bool :=
  match regex query with
  | RegExp.Parses re => RegExp.test (negb cs) re line
  | _ => false
  end.

(** A loop that may return from the function. *)
Inductive Loop (A : Type) :=
| Return (a : A)
| Continue (a : A).
Arguments Return {A} a.
Arguments Continue {A} a.

(** The loop over the lines of one file or log; [i] is the index of the
    first of [lines]. *)
Fixpoint searchLines (test : string → bool) (lim : Z) (minion source : string)
    (lines : list string) (i : nat) (results : list Hit) : Loop (list Hit) :=
  match lines with
  | [] => Continue results
  | l :: rest =>
      if test l then
        let results' := (results ++ [mkHit minion source (i + 1) l])%list in
        if (0 <? lim)%Z && (lim <=? Z.of_nat (length results'))%Z then Return results'
        else searchLines test lim minion source rest (S i) results'
      else searchLines test lim minion source rest (S i) results
  end.

(** The body of the loop of [search] for one directory entry. *)
Definition searchMinion (e : Env) (query : string) (o : SearchOptions)
    (entry : string * MinionDir) (results : list Hit) : Loop (list Hit) :=
  match metaJson entry.2 with
  | None => Continue results
  | Some meta =>
      match (match readOutput entry.2 with
             | Some out =>
                 searchLines (lineMatches (caseSensitive o) query) (limit o) entry.1 "output"
                   (splitLines out) 0 results
             | None => Continue results
             end) with
      | Return r => Return r
      | Continue results1 =>
          if searchLogs o && Js.truthy (containerId meta) then
            match docker e ("logs hive-" ++ entry.1 ++ " 2>&1") with
            | Some out =>
                searchLines (lineMatches (caseSensitive o) query) (limit o) entry.1 "logs"
                  (splitLines out) 0 results1
            | None => Continue results1
            end
          else Continue results1
      end
  end.

Fixpoint searchAll (e : Env) (query : string) (o : SearchOptions)
    (entries : list (string * MinionDir)) (results : list Hit) : list Hit :=
  match entries with
  | [] => results
  | entry :: rest =>
      match searchMinion e query o entry results with
      | Return r => r
      | Continue r => searchAll e query o rest r
      end
  end.

(** [search(query, options)]. *)
Definition search (e : Env) (query : string) (o : SearchOptions) (h : Hive) : list Hit :=
  searchAll e query o (entries (minions h)) [].

(** ** Vocabulary of the further properties *)

(** The metadata [retry] writes when [docker run] printed [out]. *)
Definition retriedMeta (e : Env) (k : string) (options : Options) (task : string)
    (old : Meta) (out : string) : Meta :=
  mkMeta k (now e) (substring 0 200 task) "running" (Some (Js.trim out)) None
    (store_if (Js.or_else (o_memory options) (memory old)) None)
    (store_if (Js.or_else (o_cpus options) (cpus old)) None)
    None None None None None (Some (now e)) (Some (createdAt old)) None None None None.

(** The metadata of a task-only clone, and the directory either kind of clone
    makes out of the source directory [d] with the task [task]. *)
Definition clonedMeta (e : Env) (sourceName newName task : string) : Meta :=
  mkMeta newName (now e) (substring 0 200 task) "pending" None None
    None None None None None None None None None None None
    (Some sourceName) (Some (now e)).

Definition cloneDir (e : Env) (sourceName newName : string) (options : CloneOptions)
    (d : MinionDir) (task : string) : MinionDir :=
  if workspace options then resetClone e sourceName newName d
  else mkDir (Some (clonedMeta e sourceName newName task)) (Some task) None (Some ∅).

(** The metadata [rename] writes. *)
Definition renamedMeta (e : Env) (oldName newName : string) (meta : Meta) : Meta :=
  set_containerId None (set_renamed oldName (now e) (set_name newName meta)).

(** Whether [rename] refuses a minion: it has a container id and docker
    reports the container running or paused. *)
Definition renameRefused (e : Env) (oldName : string) (meta : Meta) : bool :=
  Js.truthy (containerId meta) &&
  match docker e (inspectCmd oldName) with
  | Some out =>
      String.eqb (removeQuotes (Js.trim out)) "running" ||
      String.eqb (removeQuotes (Js.trim out)) "paused"
  | None => false
  end.

(** The minions after the directory [oldName], with the metadata [meta], has
    been renamed. *)
Definition renamedMinions (e : Env) (oldName newName : string) (d : MinionDir) (meta : Meta)
    (h : Hive) : gmap string MinionDir :=
  <[newName := setMeta (renamedMeta e oldName newName meta) d]> (delete oldName (minions h)).

(** What [cleanup] asks of a listed minion. *)
Definition cleanable (options : CleanupOptions) (m : Listed) : bool :=
  bool_decide (taskStatus m = Some "COMPLETE") ||
  String.eqb (status (l_meta m)) "killed" || cu_all options.

(** The age of a listed minion at the time of the call, and what [prune]
    asks of it for the threshold [ageMs]. *)
Definition ageOf (e : Env) (m : Listed) : Z :=
  (Z.of_N (now e) - Z.of_N (createdAt (l_meta m)))%Z.

Definition prunable (e : Env) (options : PruneOptions) (ageMs : Z) (m : Listed) : bool :=
  (bool_decide (taskStatus m = Some "COMPLETE") || bool_decide (taskStatus m = Some "FAILED")) &&
  (pr_all options || (ageMs <=? ageOf e m)%Z).

(** The entry [prune] reports for a minion. *)
Definition prunedEntry (e : Env) (m : Listed) : Pruned :=
  mkPruned (name (l_meta m)) (taskStatus m) (createdAt (l_meta m)) (_formatAge (ageOf e m)).

(** The threshold [prune] works with: none when [_parseAge] throws. *)
Definition threshold (options : PruneOptions) : AgeError + Z :=
  if pr_all options then inr 0%Z
  else _parseAge (default "7d" (Js.or_else (olderThan options) (Some "7d"))).

(** The minions [broadcast] writes to, in the order of the listing. *)
Definition recipients (e : Env) (h : Hive) (from : string) : list string :=
  filter (λ k, k ≠ from) (names (listing e h)).

(** The hits of a search without limit: in the lines of one file, in one
    directory entry, and in all of them. *)
Fixpoint lineHits (test : string → bool) (minion source : string) (lines : list string)
    (i : nat) : list Hit :=
  match lines with
  | [] => []
  | l :: rest =>
      ((if test l then [mkHit minion source (i + 1) l] else []) ++
       lineHits test minion source rest (S i))%list
  end.

Definition minionHits (e : Env) (query : string) (cs lg : bool)
    (entry : string * MinionDir) : list Hit :=
  match metaJson entry.2 with
  | None => []
  | Some meta =>
      (match readOutput entry.2 with
       | Some out => lineHits (lineMatches cs query) entry.1 "output" (splitLines out) 0
       | None => []
       end ++
       if lg && Js.truthy (containerId meta) then
         match docker e ("logs hive-" ++ entry.1 ++ " 2>&1") with
         | Some out => lineHits (lineMatches cs query) entry.1 "logs" (splitLines out) 0
         | None => []
         end
       else [])%list
  end.

Definition allHits (e : Env) (query : string) (cs lg : bool) (h : Hive) : list Hit :=
  entries (minions h) ≫= minionHits e query cs lg.

(** The order of the hits: by the name of the minion, for one minion the
    output before the logs, and for one source by the number of the line. *)
Definition hitBefore (a b : Hit) : Prop :=
  str_lt (hit_minion a) (hit_minion b) ∨
  (hit_minion a = hit_minion b ∧
   ((hit_source a = "output" ∧ hit_source b = "logs") ∨
    (hit_source a = hit_source b ∧ (hit_line a < hit_line b)%nat))).

(** What a loop with the limit [lim] makes of the results [full] it would
    collect without limit. *)
Definition limited (lim : Z) (full : list Hit) : Loop (list Hit) :=
  if (0 <? lim)%Z && (lim <=? Z.of_nat (length full))%Z
  then Return (take (Z.to_nat lim) full) else Continue full.

(** Literal search: [q] is at the head of [s], or somewhere in [s], when
    code units are compared by [eqc]. *)
Fixpoint prefixBy (eqc : ascii → ascii → bool) (q s : string) : bool :=
  match q, s with
  | EmptyString, _ => true
  | String a q', String b s' => eqc a b && prefixBy eqc q' s'
  | String _ _, EmptyString => false
  end.

Fixpoint containsBy (eqc : ascii → ascii → bool) (q s : string) : bool :=
  prefixBy eqc q s ||
  match s with
  | String _ r => containsBy eqc q r
  | EmptyString => false
  end.

(** The pattern that matches the code units of [q], one after the other. *)
Fixpoint literal (q : string) : RegExp.Pattern :=
  match q with
  | String c r => RegExp.Seq (RegExp.Chr c) (literal r)
  | EmptyString => RegExp.Epsilon
  end.

(** The string with every code unit in its canonical form. *)
Fixpoint canonical (s : string) : string :=
  match s with
  | String c r => String (canonicalize c) (canonical r)
  | EmptyString => EmptyString
  end.

(** A string of white space only, and a string that neither begins nor
    ends with white space. *)
Definition white (s : string) : bool := all_chars Js.is_space s.

Fixpoint lastChar (c : ascii) (s : string) : ascii :=
  match s with
  | String d r => lastChar d r
  | EmptyString => c
  end.

Definition bare (s : string) : bool :=
  match s with
  | String c r => negb (Js.is_space c) && negb (Js.is_space (lastChar c r))
  | EmptyString => true
  end.

(** Every dependency recorded in the hive is empty or the name of a
    directory entry: [path.join(this.minionsDir, m.dependsOn, 'STATUS')] is
    then the [STATUS] file of the minion directory of that name. *)
Definition plainDeps (h : Hive) : Prop :=
  map_Forall (λ _ d, match metaJson d ≫= dependsOn with
                     | Some dep => String.eqb dep "" || entryName dep
                     | None => true
                     end = true) (minions h).

#[global] Instance plainDeps_dec h : Decision (plainDeps h).
Proof. unfold plainDeps. apply _. Defined.

(** ** Reasoning about the monad *)

Ltac unfold_m :=
  unfold mbind, mret, M_bind, M_ret, throw, get, put, try_, rethrow in *.

Lemma buildIfNeeded_eq e h :
  buildIfNeeded e h = (match imageReady e with Some err => Throw err | None => Ok tt end, h).
Proof.
  unfold buildIfNeeded, imageReady, buildImage, _docker.
  destruct (imageExists e); [reflexivity|].
  unfold_m. destruct (docker e _); reflexivity.
Qed.

Lemma start_eq e k options h :
  start e k options h =
  match minions h !! k with
  | None => (Throw (NotFound k), h)
  | Some d =>
      match startDir e k options d with
      | Ok (r, d') => (Ok r, withDir h k d')
      | Throw err => (Throw err, h)
      end
  end.
Proof.
  unfold start, startDir, startCmd, existsMinion, readMeta, existsTask, writeMeta, _docker.
  unfold_m. simpl.
  destruct (minions h !! k) as [d|] eqn:Hk; simpl; [|reflexivity].
  rewrite Hk; simpl.
  destruct (metaJson d) as [meta|] eqn:Hm; simpl; [|reflexivity].
  destruct (negb _ && negb _); [reflexivity|].
  rewrite Hk; simpl. destruct (taskMd d); simpl; [|reflexivity].
  rewrite buildIfNeeded_eq.
  destruct (imageReady e); [reflexivity|].
  destruct (docker e (runCmd _ _ _ _ _)); simpl; [|reflexivity].
  rewrite Hk. reflexivity.
Qed.




(** * Names and directories *)

(** ** The order of names *)

Lemma compare_refl s : String.compare s s = Eq.
Proof.
  pose proof (String.compare_antisym s s) as H. destruct (String.compare s s); done.
Qed.

Lemma str_lt_irrefl s : ¬ str_lt s s.
Proof. unfold str_lt, String.ltb. by rewrite compare_refl. Qed.

Lemma str_lt_le a b : str_lt a b → Js.str_le a b.
Proof. unfold str_lt, Js.str_le, String.ltb, String.leb. by destruct (String.compare a b). Qed.

Lemma str_le_trans a : ∀ b c, Js.str_le a b → Js.str_le b c → Js.str_le a c.
Proof.
  unfold Js.str_le, String.leb.
  induction a as [|x a IH]; intros [|y b] [|z c]; simpl; try done.
  unfold Ascii.compare.
  destruct (N.compare_spec (N_of_ascii x) (N_of_ascii y)) as [Hxy|Hxy|Hxy];
    destruct (N.compare_spec (N_of_ascii y) (N_of_ascii z)) as [Hyz|Hyz|Hyz];
    try done.
  - rewrite Hxy, Hyz, N.compare_refl. apply IH.
  - intros _ _. rewrite Hxy. by rewrite (proj2 (N.compare_lt_iff _ _) Hyz).
  - intros _ _. rewrite <- Hyz. by rewrite (proj2 (N.compare_lt_iff _ _) Hxy).
  - intros _ _. assert (Hxz : (N_of_ascii x < N_of_ascii z)%N) by lia.
    by rewrite (proj2 (N.compare_lt_iff _ _) Hxz).
Qed.

#[global] Instance str_le_transitive : Transitive Js.str_le.
Proof. intros a b c. apply str_le_trans. Qed.

#[global] Instance str_le_total : Total Js.str_le.
Proof. intros a b. apply String.leb_total. Qed.

#[global] Instance str_le_antisym : AntiSymm (=) Js.str_le.
Proof. intros a b. apply String.leb_antisym. Qed.

Lemma sort_Permutation l : Js.sort l ≡ₚ l.
Proof. apply merge_sort_Permutation. Qed.

Lemma str_le_lt a b : Js.str_le a b → a ≠ b → str_lt a b.
Proof.
  unfold Js.str_le, str_lt, String.leb, String.ltb.
  destruct (String.compare a b) eqn:Hc; try done.
  apply String.compare_eq_iff in Hc. done.
Qed.

Lemma sorted_strict l : StronglySorted Js.str_le l → NoDup l → StronglySorted str_lt l.
Proof.
  induction 1 as [|a l Hs IH Ha]; intros Hnd; [constructor|].
  apply NoDup_cons in Hnd as [Hin Hnd]. constructor; [by apply IH|].
  rewrite Forall_forall in Ha |- *. intros b Hb. apply str_le_lt; [by apply Ha|].
  intros ->. done.
Qed.

Lemma sublist_StronglySorted {A} (R : relation A) (l1 l2 : list A) :
  l1 `sublist_of` l2 → StronglySorted R l2 → StronglySorted R l1.
Proof.
  induction 1 as [|x l1 l2 Hsub IH|x l1 l2 Hsub IH]; intros Hs; [constructor| |].
  - apply StronglySorted_inv in Hs as [Hs Hx]. constructor; [by apply IH|].
    rewrite Forall_forall in Hx |- *. intros y Hy. apply Hx.
    by eapply elem_of_sublist.
  - apply StronglySorted_inv in Hs as [Hs _]. by apply IH.
Qed.

(** ** Names of directory entries *)

Lemma entryName_nonempty n : entryName n = true → n ≠ "".
Proof. by intros Hn ->. Qed.

Lemma name_char_plain c :
  is_name_char c = true →
  negb (Ascii.eqb c "/") && negb (Ascii.eqb c "000") = true ∧
  Nat.ltb (nat_of_ascii c) 128 = true.
Proof. destruct c as [[] [] [] [] [] [] [] []]; vm_compute; intuition discriminate. Qed.

Lemma name_chars_plain s :
  all_chars is_name_char s = true →
  all_chars (λ c, negb (Ascii.eqb c "/") && negb (Ascii.eqb c "000")) s = true ∧
  utf8Length s = String.length s.
Proof.
  induction s as [|c s IH]; [done|]. simpl. intros [Hc Hs]%andb_true_iff.
  destruct (name_char_plain c Hc) as [Hp Hl]. destruct (IH Hs) as [IH1 IH2].
  rewrite Hp, Hl, IH1, IH2. done.
Qed.

(** A name the validation accepts is the name of a directory entry. *)
Lemma validName_entryName n : validName n → entryName n = true.
Proof.
  intros [Hp Hl]. destruct n as [|c r]; [done|]. simpl in Hp.
  apply andb_true_iff in Hp as [Hc Hr].
  assert (Hcn : is_name_char c = true) by (unfold is_name_char; by rewrite Hc).
  destruct (name_chars_plain (String c r)) as [Ha Hu]; [simpl; by rewrite Hcn|].
  unfold entryName. rewrite Ha, Hu.
  rewrite (proj2 (Nat.leb_le _ _)) by lia.
  assert (Hdot : Ascii.eqb c "." = false).
  { destruct (Ascii.eqb_spec c ".") as [->|]; [|done]. vm_compute in Hc. done. }
  simpl. rewrite Hdot. done.
Qed.

(** ** What [fs.readdirSync] returns *)

Lemma readdirSync_elem {A} (dir : gmap string A) n :
  n ∈ readdirSync dir ↔ is_Some (dir !! n).
Proof.
  unfold readdirSync. rewrite sort_Permutation, list_elem_of_fmap. split.
  - intros ([k x] & -> & Hin). apply elem_of_map_to_list in Hin. eauto.
  - intros [x Hx]. exists (n, x). split; [done|]. by apply elem_of_map_to_list.
Qed.

Lemma readdirSync_NoDup {A} (dir : gmap string A) : NoDup (readdirSync dir).
Proof. unfold readdirSync. rewrite sort_Permutation. apply NoDup_fst_map_to_list. Qed.

Lemma readdirSync_sorted {A} (dir : gmap string A) : StronglySorted str_lt (readdirSync dir).
Proof.
  apply sorted_strict; [|apply readdirSync_NoDup].
  apply StronglySorted_merge_sort; apply _.
Qed.

Lemma readdirSync_empty {A} : readdirSync (∅ : gmap string A) = [].
Proof. unfold readdirSync. by rewrite map_to_list_empty. Qed.

Lemma readdirSync_insert {A} (dir : gmap string A) f x :
  dir !! f = None → readdirSync (<[f := x]> dir) ≡ₚ f :: readdirSync dir.
Proof.
  intros Hf. unfold readdirSync. rewrite !sort_Permutation.
  by rewrite (map_to_list_insert dir f x Hf).
Qed.

Lemma omap_lookup_fst {A} (dir : gmap string A) l :
  (∀ n, n ∈ l → is_Some (dir !! n)) →
  (omap (λ n, pair n <$> dir !! n) l).*1 = l.
Proof.
  induction l as [|n l IH]; intros Hl; [done|].
  simpl. destruct (Hl n (list_elem_of_here _ _)) as [x Hx]. rewrite Hx. simpl.
  f_equal. apply IH. intros k Hk. apply Hl. by apply list_elem_of_further.
Qed.

Lemma entries_fst {A} (dir : gmap string A) : (entries dir).*1 = readdirSync dir.
Proof. apply omap_lookup_fst. intros n. apply readdirSync_elem. Qed.

Lemma entries_elem {A} (dir : gmap string A) n x : (n, x) ∈ entries dir ↔ dir !! n = Some x.
Proof.
  unfold entries. rewrite list_elem_of_omap. split.
  - intros (k & _ & Hf). destruct (dir !! k) eqn:Hk; by simplify_eq/=.
  - intros Hx. exists n. split; [apply readdirSync_elem; eauto|]. by rewrite Hx.
Qed.

Lemma entries_NoDup {A} (dir : gmap string A) : NoDup (entries dir).
Proof. apply (NoDup_fmap_1 fst). rewrite entries_fst. apply readdirSync_NoDup. Qed.

Lemma entries_empty {A} : entries (∅ : gmap string A) = [].
Proof. unfold entries. by rewrite readdirSync_empty. Qed.

(** * C4: [start] *)



(** * C5: [kill] *)


Lemma kill_eq e k h d meta :
  minions h !! k = Some d → metaJson d = Some meta →
  kill e k h =
  (Ok (mkOutcome k "killed"),
   withDir h k (setMeta (set_killedAt (now e) (set_status "killed" meta)) d)).
Proof.
  intros Hk Hm. unfold kill, existsMinion, readMeta, writeMeta, _docker.
  unfold_m. simpl. rewrite Hk. simpl.
  destruct (docker e ("stop hive-" ++ k)); [destruct (docker e ("rm hive-" ++ k))|];
    simpl; rewrite Hk; simpl; rewrite Hm; simpl; rewrite Hk; reflexivity.
Qed.

(** C5.  For an existing worker, [kill] returns normally whatever docker
    does with the stop and remove commands (also when both throw): the result
    is the killed outcome, the stored status is killed and [killedAt] is
    stamped with the clock; nothing else of the hive changes. *)
Theorem kill_always_kills e k h d meta :
  minions h !! k = Some d → metaJson d = Some meta →
  ∃ meta',
    kill e k h = (Ok (mkOutcome k "killed"), withDir h k (setMeta meta' d)) ∧
    metaOf (kill e k h).2 k = Some meta' ∧
    status meta' = "killed" ∧ killedAt meta' = Some (now e) ∧
    (∀ k', k' ≠ k → minions (kill e k h).2 !! k' = minions h !! k') ∧
    network (kill e k h).2 = network h.
Proof.
  intros Hk Hm. exists (set_killedAt (now e) (set_status "killed" meta)).
  rewrite (kill_eq e k h d meta Hk Hm). simpl. repeat split.
  - unfold metaOf. simpl. rewrite lookup_insert_eq. reflexivity.
  - intros k' Hne. by rewrite lookup_insert_ne.
Qed.

(** [kill_always_kills] on the worker [b] of the chain, with a docker that
    fails on every command. *)
Lemma kill_always_kills_witness :
  ∃ meta',
    kill (envWith dockerDown) "b" chainHive =
      (Ok (mkOutcome "b" "killed"),
       withDir chainHive "b"
         (setMeta meta' (waitingDir (envWith dockerOk) "b" "second" "a" noOptions))) ∧
    status meta' = "killed" ∧ killedAt meta' = Some 1700000000000%N.
Proof.
  destruct (kill_always_kills (envWith dockerDown) "b" chainHive
    (waitingDir (envWith dockerOk) "b" "second" "a" noOptions)
    (waitingMeta (envWith dockerOk) "b" "second" "a" noOptions) eq_refl eq_refl)
    as (meta' & Hk & _ & Hs & Ha & _).
  exists meta'. split; [exact Hk|]. split; [exact Hs|exact Ha].
Defined.

(** * C6: names and [spawn] *)

Lemma validate_eq n h :
  _validateName n h = (match nameFault n with Some err => Throw err | None => Ok tt end, h).
Proof.
  unfold _validateName, nameFault.
  destruct (String.eqb n ""); [reflexivity|].
  destruct (Nat.ltb 128 _); [reflexivity|].
  destruct (negb _); reflexivity.
Qed.

Lemma nameFault_valid n : nameFault n = None ↔ validName n.
Proof.
  unfold nameFault, validName.
  destruct (String.eqb_spec n "") as [->|Hn]; [simpl; intuition discriminate|].
  destruct (Nat.ltb_spec 128 (String.length n)); [intuition (discriminate || lia)|].
  destruct (name_pattern n); simpl; intuition (discriminate || lia).
Qed.

Lemma nameFault_kind n err : nameFault n = Some err → kind err = InvalidName.
Proof.
  unfold nameFault.
  destruct (String.eqb n ""); [intros [= <-]; reflexivity|].
  destruct (Nat.ltb 128 _); [intros [= <-]; reflexivity|].
  destruct (negb _); [intros [= <-]; reflexivity|discriminate].
Qed.

Lemma imageReady_kind e err : imageReady e = Some err → kind err = AdapterError.
Proof.
  unfold imageReady. destruct (imageExists e); [discriminate|].
  destruct (docker e _); [discriminate|]. intros [= <-]. reflexivity.
Qed.

Lemma spawn_eq e k task options h :
  spawn e k task options h =
  match nameFault k with
  | Some err => (Throw err, h)
  | None =>
      match minions h !! k with
      | Some _ => (Throw (AlreadyExists k), h)
      | None =>
          match imageReady e with
          | Some err => (Throw err, withDir h k (pendingDir e k task))
          | None =>
              match docker e (spawnCmd e k options) with
              | None =>
                  (Throw (DockerFailed (spawnCmd e k options)), withDir h k (pendingDir e k task))
              | Some out =>
                  (Ok (mkStarted k (Js.trim out) (minionDirOf e k)),
                   withDir h k (setMeta (spawnedMeta e k task options out) (pendingDir e k task)))
              end
          end
      end
  end.
Proof.
  unfold spawn. unfold mbind at 1. unfold M_bind at 1. rewrite validate_eq.
  destruct (nameFault k); [reflexivity|].
  unfold existsMinion, putDir, writeMeta, _docker, spawnCmd. unfold_m. simpl.
  destruct (minions h !! k) as [d|] eqn:Hk; simpl; [reflexivity|].
  rewrite buildIfNeeded_eq.
  destruct (imageReady e); [reflexivity|].
  destruct (docker e (runCmd _ _ _ _ _)); simpl; [|reflexivity].
  rewrite lookup_insert_eq. unfold withDir. simpl. rewrite insert_insert_eq. reflexivity.
Qed.

Lemma rename_validates e old new h :
  (∃ err, (rename e old new h).1 = Throw err ∧ kind err = InvalidName) ↔ ¬ validName new.
Proof.
  rewrite <- nameFault_valid.
  unfold rename. unfold mbind at 1. unfold M_bind at 1. rewrite validate_eq.
  destruct (nameFault new) as [err|] eqn:Hf.
  - split; [discriminate|]. intros _. exists err. split; [reflexivity|].
    by apply nameFault_kind in Hf.
  - split; [|congruence]. intros [err [Hr Hkind]]. exfalso. revert Hr Hkind.
    unfold existsMinion, readMeta, checkNotRunning, writeMeta, renameInbox. unfold_m. simpl.
    repeat (case_match; simplify_eq/=); intros; by simplify_eq/=.
Qed.

Lemma clone_validates e src new copts h :
  (∃ err, (clone e src new copts h).1 = Throw err ∧ kind err = InvalidName) ↔ ¬ validName new.
Proof.
  rewrite <- nameFault_valid.
  unfold clone. unfold mbind at 1. unfold M_bind at 1. rewrite validate_eq.
  destruct (nameFault new) as [err|] eqn:Hf.
  - split; [discriminate|]. intros _. exists err. split; [reflexivity|].
    by apply nameFault_kind in Hf.
  - split; [|congruence]. intros [err [Hr Hkind]]. exfalso. revert Hr Hkind.
    unfold existsMinion, putDir, copyInbox. unfold_m. simpl.
    repeat (case_match; simplify_eq/=); intros; by simplify_eq/=.
Qed.

(** C6, as the code has it.  [spawn] throws an error of kind InvalidName
    exactly when the name does not match the pattern or has more than 128
    characters, and [rename] and [clone] do so for their target name; for a
    valid name whose directory exists it throws the already-exists error;
    for a valid fresh name it stores the worker and then launches the
    container, so that it succeeds when docker builds and runs and throws
    docker's error, with the worker left stored as pending, when docker does
    not; in both cases a second [spawn] of the name throws the
    already-exists error. *)
Theorem create_outcomes e k task options h :
  ((∃ err, (spawn e k task options h).1 = Throw err ∧ kind err = InvalidName) ↔
     ¬ validName k) ∧
  (validName k → is_Some (minions h !! k) →
     spawn e k task options h = (Throw (AlreadyExists k), h)) ∧
  (validName k → minions h !! k = None →
     match imageReady e, docker e (spawnCmd e k options) with
     | None, Some out =>
         spawn e k task options h =
           (Ok (mkStarted k (Js.trim out) (minionDirOf e k)),
            withDir h k (setMeta (spawnedMeta e k task options out) (pendingDir e k task)))
     | None, None =>
         spawn e k task options h =
           (Throw (DockerFailed (spawnCmd e k options)), withDir h k (pendingDir e k task))
     | Some err, _ =>
         spawn e k task options h = (Throw err, withDir h k (pendingDir e k task)) ∧
         kind err = AdapterError
     end) ∧
  (validName k → minions h !! k = None → ∀ e2 task2 options2,
     spawn e2 k task2 options2 (after (spawn e k task options) h) =
       (Throw (AlreadyExists k), after (spawn e k task options) h)) ∧
  (∀ old, (∃ err, (rename e old k h).1 = Throw err ∧ kind err = InvalidName) ↔
     ¬ validName k) ∧
  (∀ src copts, (∃ err, (clone e src k copts h).1 = Throw err ∧ kind err = InvalidName) ↔
     ¬ validName k).
Proof.
  assert (Hfresh : validName k → minions h !! k = None →
            is_Some (minions (after (spawn e k task options) h) !! k)).
  { intros Hv Hk. unfold after. rewrite spawn_eq.
    apply nameFault_valid in Hv. rewrite Hv, Hk.
    destruct (imageReady e); [|destruct (docker e _)]; simpl;
      rewrite lookup_insert_eq; eauto. }
  split; [|split; [|split; [|split; [|split]]]].
  - rewrite <- nameFault_valid, spawn_eq.
    destruct (nameFault k) as [err|] eqn:Hf.
    + split; [discriminate|]. intros _. exists err. split; [reflexivity|].
      by apply nameFault_kind in Hf.
    + split; [|congruence]. intros [err [Hr Hkind]]. exfalso.
      destruct (minions h !! k); simpl in Hr; [by simplify_eq|].
      destruct (imageReady e) as [err'|] eqn:Hi; simpl in Hr.
      * simplify_eq. apply imageReady_kind in Hi. congruence.
      * destruct (docker e _); simpl in Hr; by simplify_eq.
  - intros Hv [d Hd]. rewrite spawn_eq. apply nameFault_valid in Hv. by rewrite Hv, Hd.
  - intros Hv Hk. rewrite spawn_eq. apply nameFault_valid in Hv. rewrite Hv, Hk.
    destruct (imageReady e) as [err|] eqn:Hi; [|by destruct (docker e _)].
    split; [reflexivity|]. by apply imageReady_kind in Hi.
  - intros Hv Hk e2 task2 options2. destruct (Hfresh Hv Hk) as [d Hd].
    rewrite (spawn_eq e2). apply nameFault_valid in Hv. by rewrite Hv, Hd.
  - intros old. apply rename_validates.
  - intros src copts. apply clone_validates.
Qed.

(** C6 as stated fails: for a valid fresh name [spawn] neither succeeds nor
    throws one of the two named errors when [docker run] fails; the error is
    docker's, and the worker stays stored as pending. *)
Lemma spawn_adapter_failure :
  validName "a" ∧ minions emptyHive !! "a" = None ∧
  ∃ err, (spawn (envWith dockerNoRun) "a" "do it" noOptions emptyHive).1 = Throw err ∧
    kind err = AdapterError ∧
    status <$> metaOf (after (spawn (envWith dockerNoRun) "a" "do it" noOptions) emptyHive) "a"
      = Some "pending".
Proof.
  split; [split; [reflexivity|simpl; lia]|]. split; [reflexivity|].
  eexists. split; [vm_compute; reflexivity|]. split; reflexivity.
Qed.

(** * The scheduler pass *)

Lemma signal_withDir_meta h k d m x :
  minions h !! k = Some d → signal (withDir h k (setMeta m d)) x = signal h x.
Proof.
  intros Hk. unfold signal, withDir. simpl.
  destruct (decide (k = x)) as [<-|Hne].
  - rewrite lookup_insert_eq, Hk. reflexivity.
  - by rewrite lookup_insert_ne.
Qed.

Lemma eligible_ext h1 h2 m :
  (∀ x, signal h1 x = signal h2 x) → eligible h1 m = eligible h2 m.
Proof. intros Hs. unfold eligible. by rewrite Hs. Qed.

(** What a call of [start] can do: throw and leave the hive as it was, or
    promote [k]. *)
Lemma start_cases e k o h r h' :
  start e k o h = (r, h') →
  (∃ err, r = Throw err ∧ h' = h) ∨
  (∃ d meta out, r = Ok (mkStarted k (Js.trim out) (minionDirOf e k)) ∧
     minions h !! k = Some d ∧ metaJson d = Some meta ∧
     docker e (startCmd e k o meta) = Some out ∧
     h' = withDir h k (setMeta (startedMeta e o meta out) d)).
Proof.
  rewrite start_eq. destruct (minions h !! k) as [d|] eqn:Hk; [|intros [= <- <-]; eauto].
  unfold startDir. destruct (metaJson d) as [meta|] eqn:Hm; [|intros [= <- <-]; eauto].
  destruct (negb _ && negb _); [intros [= <- <-]; eauto|].
  destruct (taskMd d); [|intros [= <- <-]; eauto].
  destruct (imageReady e); [intros [= <- <-]; eauto|].
  destruct (docker e _) as [out|] eqn:Ho; intros [= <- <-]; [|eauto].
  right. exists d, meta, out. eauto.
Qed.

Lemma start_frame e k o h r h' :
  start e k o h = (r, h') →
  network h' = network h ∧ (∀ x, signal h' x = signal h x) ∧
  (∀ k', k' ≠ k → minions h' !! k' = minions h !! k').
Proof.
  intros Hs. apply start_cases in Hs as [(err & -> & ->)|(d & meta & out & -> & Hk & Hm & Ho & ->)].
  - eauto.
  - split; [reflexivity|]. split.
    + intros x. by apply signal_withDir_meta.
    + intros k' Hne. simpl. by rewrite lookup_insert_ne.
Qed.



(** One turn of the loop of the pass. *)
Lemma startDependents_cons e o m rest started h :
  startDependents e o (m :: rest) started h =
  if eligible h (l_meta m)
  then match start e (name (l_meta m)) o h with
       | (Ok _, h1) =>
           startDependents e o rest
             (started ++ [(name (l_meta m), default "" (dependsOn (l_meta m)))]) h1
       | (Throw err, h1) => (Throw err, h1)
       end
  else startDependents e o rest started h.
Proof.
  unfold eligible, signal, readTaskStatus. simpl.
  destruct (String.eqb (status (l_meta m)) "waiting"); simpl; [|reflexivity].
  destruct (Js.truthy (dependsOn (l_meta m))); simpl; [|reflexivity].
  unfold mbind at 1. unfold M_bind at 1. unfold get.
  destruct (minions h !! default "" (dependsOn (l_meta m))) as [d|]; simpl; [|reflexivity].
  destruct (statusFile d) as [raw|]; simpl; [|reflexivity].
  destruct (String.eqb_spec (Js.trim raw) "COMPLETE") as [Heq|Hne].
  - rewrite Heq. rewrite bool_decide_eq_true_2 by reflexivity.
    unfold mbind, M_bind. destruct (start e _ o h) as [[r|err] h1]; reflexivity.
  - rewrite bool_decide_eq_false_2 by congruence. reflexivity.
Qed.


Lemma names_elem m ms : m ∈ ms → name (l_meta m) ∈ names ms.
Proof. intros Hm. unfold names. by apply (list_elem_of_fmap_2 (λ m, name (l_meta m))). Qed.


Lemma names_filter_cons h m ms k :
  k ∉ names (filter (λ m, eligible h (l_meta m) = true) (m :: ms)) →
  (eligible h (l_meta m) = true → k ≠ name (l_meta m)) ∧
  k ∉ names (filter (λ m, eligible h (l_meta m) = true) ms).
Proof.
  rewrite filter_cons. destruct (decide (eligible h (l_meta m) = true)) as [He|He].
  - unfold names. rewrite fmap_cons, not_elem_of_cons. tauto.
  - intros Hk. split; [congruence|done].
Qed.

(** Whatever the pass returns, it leaves the mailboxes, the signals and the
    directories of the workers that are not eligible as they were. *)
Lemma startDependents_frame e o ms : ∀ started h r h',
  startDependents e o ms started h = (r, h') →
  network h' = network h ∧ (∀ x, signal h' x = signal h x) ∧
  (∀ k, k ∉ names (filter (λ m, eligible h (l_meta m) = true) ms) →
        minions h' !! k = minions h !! k).
Proof.
  induction ms as [|m ms IH]; intros started h r h'.
  - intros [= <- <-]. eauto.
  - rewrite startDependents_cons.
    destruct (eligible h (l_meta m)) eqn:He.
    + destruct (start e (name (l_meta m)) o h) as [[r1|err] h1] eqn:Hs.
      * intros Hl. apply IH in Hl as (Hn & Hsig & Hfr).
        apply start_frame in Hs as (Hn1 & Hsig1 & Hfr1).
        split; [congruence|]. split; [intros x; by rewrite Hsig, Hsig1|].
        intros k Hk. apply names_filter_cons in Hk as [Hk1 Hk2].
        rewrite Hfr, Hfr1; [done|by apply Hk1|].
        intros Hin. apply Hk2. revert Hin. unfold names.
        by rewrite (list_filter_iff _ (λ m, eligible h (l_meta m) = true))
          by (intros x; by rewrite (eligible_ext h1 h _ Hsig1)).
      * intros [= <- <-]. apply start_frame in Hs as (Hn1 & Hsig1 & Hfr1).
        split; [done|]. split; [done|].
        intros k Hk. apply names_filter_cons in Hk as [Hk1 _]. apply Hfr1. by apply Hk1.
    + intros Hl. apply IH in Hl as (Hn & Hsig & Hfr). split; [done|]. split; [done|].
      intros k Hk. apply names_filter_cons in Hk as [_ Hk2]. by apply Hfr.
Qed.




(** ** The listing *)

Lemma named_spec h : named h ↔ ∀ k m, metaOf h k = Some m → name m = k.
Proof.
  unfold named, metaOf. split.
  - intros Hn k m Hm. destruct (minions h !! k) as [d|] eqn:Hk; [|done].
    simpl in Hm. specialize (Hn k d Hk). simpl in Hn. rewrite Hm in Hn.
    by apply String.eqb_eq.
  - intros Hn k d Hk. simpl. destruct (metaJson d) as [m|] eqn:Hm; [|done].
    apply String.eqb_eq. apply Hn. by rewrite Hk.
Qed.

Lemma listEntry_meta e k d m : listEntry e (k, d) = Some m → metaJson d = Some (l_meta m).
Proof.
  unfold listEntry. simpl. destruct (metaJson d) as [meta|]; [|done].
  simpl. by intros [= <-].
Qed.

Lemma listing_elem e h m :
  m ∈ listing e h ↔ ∃ k d, minions h !! k = Some d ∧ listEntry e (k, d) = Some m.
Proof.
  unfold listing. rewrite list_elem_of_omap. split.
  - intros ([k d] & Hin & He). apply entries_elem in Hin. eauto.
  - intros (k & d & Hk & He). exists (k, d). by rewrite entries_elem.
Qed.

Lemma listing_named e h m :
  named h → m ∈ listing e h → metaOf h (name (l_meta m)) = Some (l_meta m).
Proof.
  intros Hn Hm. apply listing_elem in Hm as (k & d & Hk & He).
  apply listEntry_meta in He. rewrite named_spec in Hn.
  assert (Hmeta : metaOf h k = Some (l_meta m)) by (unfold metaOf; by rewrite Hk).
  by rewrite (Hn _ _ Hmeta).
Qed.

Lemma listing_complete e h k meta :
  metaOf h k = Some meta → ∃ m, m ∈ listing e h ∧ l_meta m = meta.
Proof.
  unfold metaOf. destruct (minions h !! k) as [d|] eqn:Hk; [|done]. simpl. intros Hm.
  destruct (listEntry e (k, d)) as [m|] eqn:He.
  - exists m. split; [apply listing_elem; eauto|].
    apply listEntry_meta in He. congruence.
  - unfold listEntry in He. simpl in He. by rewrite Hm in He.
Qed.

Lemma listing_names_sublist e (l : list (string * MinionDir)) :
  (∀ k d m, (k, d) ∈ l → metaJson d = Some m → name m = k) →
  names (omap (listEntry e) l) `sublist_of` l.*1.
Proof.
  induction l as [|[k d] l IH]; intros Hn; [constructor|].
  simpl. destruct (listEntry e (k, d)) as [m|] eqn:He.
  - pose proof (listEntry_meta _ _ _ _ He) as Hm.
    unfold names. rewrite fmap_cons, (Hn k d (l_meta m)); [|apply list_elem_of_here|done].
    constructor. apply IH. intros k' d' m' Hin. apply Hn. by apply list_elem_of_further.
  - constructor. apply IH. intros k' d' m' Hin. apply Hn. by apply list_elem_of_further.
Qed.

Lemma listing_NoDup e h : named h → NoDup (names (listing e h)).
Proof.
  intros Hn. apply (sublist_NoDup _ ((entries (minions h)).*1));
    [rewrite entries_fst; apply readdirSync_NoDup|].
  apply listing_names_sublist. intros k d m Hin Hm.
  apply entries_elem in Hin. rewrite named_spec in Hn. apply Hn.
  unfold metaOf. by rewrite Hin.
Qed.

(** The listing is in ascending order of the names. *)
Lemma listing_sorted e h : named h → StronglySorted str_lt (names (listing e h)).
Proof.
  intros Hn. apply (sublist_StronglySorted _ _ ((entries (minions h)).*1));
    [|rewrite entries_fst; apply readdirSync_sorted].
  apply listing_names_sublist. intros k d m Hin Hm.
  apply entries_elem in Hin. rewrite named_spec in Hn. apply Hn.
  unfold metaOf. by rewrite Hin.
Qed.

Lemma filtered_sorted (P : Listed → Prop) `{∀ m, Decision (P m)} e h :
  named h → StronglySorted str_lt (names (filter P (listing e h))).
Proof.
  intros Hn. apply (sublist_StronglySorted _ _ (names (listing e h)));
    [|by apply listing_sorted].
  unfold names. apply fmap_sublist, sublist_filter.
Qed.


Lemma checkAndStartDependents_eq e o h :
  checkAndStartDependents e o h = startDependents e o (listing e h) [] h.
Proof. reflexivity. Qed.

(** A worker that is not eligible is not among the entries the pass starts. *)
Lemma not_eligible_not_started e h k :
  named h → (∀ meta, metaOf h k = Some meta → eligible h meta = false) →
  k ∉ names (filter (λ m, eligible h (l_meta m) = true) (listing e h)).
Proof.
  intros Hn Hk Hin. unfold names in Hin.
  apply list_elem_of_fmap in Hin as (m & -> & Hm).
  apply list_elem_of_filter in Hm as [He Hm].
  apply (listing_named e h m Hn) in Hm. rewrite (Hk _ Hm) in He. discriminate.
Qed.




Lemma eligible_spec h m :
  eligible h m = true ↔
  status m = "waiting" ∧
  ∃ dep, dependsOn m = Some dep ∧ dep ≠ "" ∧ signal h dep = Some "COMPLETE".
Proof.
  unfold eligible, Js.truthy. rewrite !andb_true_iff, bool_decide_eq_true, String.eqb_eq.
  destruct (dependsOn m) as [dep|]; simpl.
  - rewrite negb_true_iff, String.eqb_neq. split.
    + intros [[Hs Hd] Hsig]. eauto.
    + intros [Hs (dep' & [= <-] & Hd & Hsig)]. eauto.
  - split; [intros [[_ ?] _]; done|intros [_ (dep & ? & _)]; done].
Qed.

Lemma signal_spec h k v :
  signal h k = Some v ↔
  ∃ d raw, minions h !! k = Some d ∧ statusFile d = Some raw ∧ Js.trim raw = v.
Proof.
  unfold signal, readTaskStatus. split.
  - destruct (minions h !! k) as [d|]; simpl; [|done].
    destruct (statusFile d) as [raw|] eqn:Hr; simpl; [|done].
    intros [= <-]. eauto.
  - intros (d & raw & -> & Hr & <-). simpl. by rewrite Hr.
Qed.

(** The pass leaves every worker that is not eligible as it was. *)
Lemma pass_leaves e o h r h' k :
  named h → checkAndStartDependents e o h = (r, h') →
  (∀ meta, metaOf h k = Some meta → eligible h meta = false) →
  minions h' !! k = minions h !! k.
Proof.
  intros Hn Hpass Hk. rewrite checkAndStartDependents_eq in Hpass.
  pose proof (startDependents_frame _ _ _ _ _ _ _ Hpass) as (_ & _ & Hfr).
  apply Hfr. by apply (not_eligible_not_started e).
Qed.



(** * C1: what a pass promotes *)




(** * C2: one hop of a chain per pass *)




(** * C3: a failing start in a pass *)




(** * The mailbox *)

Lemma jsonFiles_elem (files : gmap string Msg) f :
  f ∈ jsonFiles files ↔ is_Some (files !! f) ∧ Js.ends_with f ".json" = true.
Proof.
  unfold jsonFiles. rewrite list_elem_of_filter, readdirSync_elem. tauto.
Qed.

Lemma jsonFiles_empty : jsonFiles ∅ = [].
Proof. unfold jsonFiles. by rewrite (@readdirSync_empty Msg). Qed.

Lemma jsonFiles_NoDup (files : gmap string Msg) : NoDup (jsonFiles files).
Proof. apply NoDup_filter, readdirSync_NoDup. Qed.

Lemma length_omap_lookup (files : gmap string Msg) l :
  (∀ f, f ∈ l → is_Some (files !! f)) →
  length (omap (λ f, files !! f) l) = length l.
Proof.
  induction l as [|f l IH]; intros Hl; [reflexivity|].
  simpl. destruct (Hl f (list_elem_of_here _ _)) as [x Hx]. rewrite Hx. simpl.
  f_equal. apply IH. intros g Hg. apply Hl. by apply list_elem_of_further.
Qed.

(** The messages [inbox] returns are as many as the files it selects. *)
Lemma length_inbox (files : gmap string Msg) :
  length (omap (λ f, files !! f) (Js.sort (jsonFiles files))) = length (jsonFiles files).
Proof.
  rewrite length_omap_lookup.
  - by rewrite sort_Permutation.
  - intros f Hf. rewrite sort_Permutation in Hf. by apply jsonFiles_elem in Hf as [? _].
Qed.

Lemma jsonFiles_cleared (files : gmap string Msg) :
  jsonFiles (foldr delete files (jsonFiles files)) = [].
Proof.
  apply elem_of_nil_inv. intros f Hf. apply jsonFiles_elem in Hf as [[x Hx] He].
  apply lookup_foldr_delete_Some in Hx as [Hnot Hx]. apply Hnot.
  apply jsonFiles_elem. eauto.
Qed.

Lemma inbox_eq k h :
  is_Some (minions h !! k) →
  inbox k h =
  (Ok match network h !! k with
      | Some files => omap (λ f, files !! f) (Js.sort (jsonFiles files))
      | None => []
      end, h).
Proof.
  intros Hk. unfold inbox, existsMinion. unfold_m. simpl.
  rewrite bool_decide_eq_true_2 by done. simpl.
  destruct (network h !! k); reflexivity.
Qed.

Lemma clearInbox_eq k h :
  is_Some (minions h !! k) →
  clearInbox k h =
  match network h !! k with
  | Some files =>
      (Ok (mkCleared k (length (jsonFiles files))),
       mkHive (minions h) (<[k := foldr delete files (jsonFiles files)]> (network h)))
  | None => (Ok (mkCleared k 0), h)
  end.
Proof.
  intros Hk. unfold clearInbox, existsMinion. unfold_m. simpl.
  rewrite bool_decide_eq_true_2 by done. simpl.
  destruct (network h !! k); reflexivity.
Qed.

(** * C8: [clearInbox] *)

(** C8.  For an existing recipient whose inbox holds the messages [msgs],
    [clearInbox] returns their number; after it [inbox] returns the empty
    list, and a further [clearInbox] returns 0 and leaves the hive as the
    first left it, so that every later call returns 0 as well; the minions and
    the other inboxes are not touched. *)
Theorem clearInbox_counts k h :
  is_Some (minions h !! k) →
  ∃ msgs, inbox k h = (Ok msgs, h) ∧
    (clearInbox k h).1 = Ok (mkCleared k (length msgs)) ∧
    inbox k (after (clearInbox k) h) = (Ok [], after (clearInbox k) h) ∧
    clearInbox k (after (clearInbox k) h) = (Ok (mkCleared k 0), after (clearInbox k) h) ∧
    minions (after (clearInbox k) h) = minions h ∧
    (∀ k', k' ≠ k → network (after (clearInbox k) h) !! k' = network h !! k').
Proof.
  intros Hk. eexists. split; [by apply inbox_eq|].
  unfold after. rewrite (clearInbox_eq k h Hk).
  destruct (network h !! k) as [files|] eqn:Hn; simpl.
  - split; [by rewrite length_inbox|].
    rewrite inbox_eq, clearInbox_eq by done. simpl. rewrite lookup_insert_eq.
    rewrite jsonFiles_cleared. simpl. rewrite insert_insert_eq.
    repeat split. intros k' Hne. by rewrite lookup_insert_ne.
  - split; [done|]. rewrite inbox_eq, clearInbox_eq by done. rewrite Hn. done.
Qed.

(** [clearInbox_counts] on the inbox of [dep] after two messages. *)
Lemma clearInbox_counts_witness :
  (clearInbox "dep" mailHive).1 = Ok (mkCleared "dep" 2) ∧
  inbox "dep" (after (clearInbox "dep") mailHive) = (Ok [], after (clearInbox "dep") mailHive).
Proof.
  destruct (clearInbox_counts "dep" mailHive (ex_intro _ _ eq_refl))
    as (msgs & Hin & Hc & Hempty & _).
  split; [|exact Hempty]. rewrite Hc. vm_compute in Hin. injection Hin as <-. reflexivity.
Defined.

(** * C9: [wait] *)






(** * C10: the metadata invariant *)

Lemma truthy_Some v : Js.truthy v = true → v ≠ None.
Proof. by destruct v. Qed.

Lemma hiveInv_lookup h k d : hiveInv h → minions h !! k = Some d → dirInv d.
Proof. intros Hh Hk. exact (map_Forall_lookup_1 _ _ _ _ Hh Hk). Qed.

(** Closes the invariant of a record the operations write. *)
Ltac solve_metaInv :=
  split; [intros [Hs|Hs]|intros Hs]; simpl in *; try discriminate; try done;
  try (apply truthy_Some; by apply negb_false_iff).

Ltac solve_dirInv Hh :=
  let m' := fresh "m'" in let Hm' := fresh "Hm'" in
  intros m' Hm'; simpl in Hm';
  first
    [ injection Hm' as <-; solve_metaInv
    | eapply (hiveInv_lookup _ _ _ Hh); [eassumption|exact Hm']
    | idtac ].

Ltac solve_hiveInv Hh :=
  unfold hiveInv; simpl;
  repeat (apply map_Forall_insert_2; [solve_dirInv Hh|]);
  try exact Hh.

Lemma pause_inv e k h : hiveInv h → hiveInv (after (pause e k) h).
Proof.
  intros Hh. unfold after, pause, existsMinion, readMeta, writeMeta, _docker.
  unfold_m. simpl.
  repeat (case_match; simplify_eq/=); try done; solve_hiveInv Hh.
Qed.

Lemma resume_inv e k h : hiveInv h → hiveInv (after (resume e k) h).
Proof.
  intros Hh. unfold after, resume, existsMinion, readMeta, writeMeta, _docker.
  unfold_m. simpl.
  repeat (case_match; simplify_eq/=); try done; solve_hiveInv Hh.
Qed.

Lemma restart_inv e k h : hiveInv h → hiveInv (after (restart e k) h).
Proof.
  intros Hh. unfold after, restart, existsMinion, readMeta, writeMeta, _docker.
  unfold_m. simpl.
  repeat (case_match; simplify_eq/=); try done; solve_hiveInv Hh.
Qed.

Lemma kill_inv e k h : hiveInv h → hiveInv (after (kill e k) h).
Proof.
  intros Hh. unfold after, kill, existsMinion, readMeta, writeMeta, _docker.
  unfold_m. simpl.
  repeat (case_match; simplify_eq/=); try done; solve_hiveInv Hh.
Qed.

Lemma spawnWaiting_inv e k task dep o h :
  hiveInv h → hiveInv (after (spawnWaiting e k task dep o) h).
Proof.
  intros Hh. unfold after, spawnWaiting. unfold mbind at 1. unfold M_bind at 1.
  rewrite validate_eq. destruct (nameFault k); [done|].
  unfold existsMinion, putDir. unfold_m. simpl.
  repeat (case_match; simplify_eq/=); try done; solve_hiveInv Hh.
Qed.

Lemma spawn_inv e k task o h : hiveInv h → hiveInv (after (spawn e k task o) h).
Proof.
  intros Hh. unfold after. rewrite spawn_eq.
  repeat (case_match; simplify_eq/=); try done; solve_hiveInv Hh.
Qed.

Lemma start_inv e k o h : hiveInv h → hiveInv (after (start e k o) h).
Proof.
  intros Hh. unfold after. destruct (start e k o h) as [r h'] eqn:Hs. simpl.
  apply start_cases in Hs as [(err & -> & ->)|(d & meta & out & -> & Hk & Hm & Ho & ->)];
    [done|].
  solve_hiveInv Hh.
Qed.

Lemma retry_inv e k o h : hiveInv h → hiveInv (after (retry e k o) h).
Proof.
  intros Hh. unfold after, retry, existsMinion, readMeta, writeMeta, putDir, _docker.
  unfold_m. simpl.
  repeat (case_match; simplify_eq/=); try done; solve_hiveInv Hh.
  all: try (rewrite buildIfNeeded_eq in *; repeat (case_match; simplify_eq/=)).
  all: solve_hiveInv Hh.
Qed.

Lemma clone_inv e source new copts h : hiveInv h → hiveInv (after (clone e source new copts) h).
Proof.
  intros Hh. unfold after, clone. unfold mbind at 1. unfold M_bind at 1.
  rewrite validate_eq. destruct (nameFault new); [done|].
  unfold existsMinion, putDir, copyInbox, resetClone. unfold_m. simpl.
  repeat (case_match; simplify_eq/=); try done; solve_hiveInv Hh.
  all: destruct (metaJson _); simplify_eq/=; solve_metaInv.
Qed.

Lemma startDependents_inv e o ms : ∀ started h,
  hiveInv h → hiveInv (after (startDependents e o ms started) h).
Proof.
  induction ms as [|m ms IH]; intros started h Hh; [done|].
  unfold after. rewrite startDependents_cons.
  destruct (eligible h (l_meta m)); [|by apply IH].
  pose proof (start_inv e (name (l_meta m)) o h Hh) as Hs. unfold after in Hs.
  destruct (start e (name (l_meta m)) o h) as [[r|err] h1]; [|done].
  by apply IH.
Qed.

Lemma step_inv e op h : hiveInv h → hiveInv (step e op h).
Proof.
  destruct op; simpl.
  - apply spawn_inv.
  - apply spawnWaiting_inv.
  - apply start_inv.
  - apply pause_inv.
  - apply resume_inv.
  - apply restart_inv.
  - apply kill_inv.
  - apply retry_inv.
  - apply clone_inv.
  - intros Hh. unfold after. rewrite checkAndStartDependents_eq.
    by apply (startDependents_inv e options (listing e h) [] h).
Qed.

(** The minions [rename] leaves behind: those it found, or, once the
    directory is moved, the moved directory with the new metadata. *)
Lemma rename_minions e old new h r h' :
  rename e old new h = (r, h') →
  (∃ err, r = Throw err ∧ minions h' = minions h) ∨
  ∃ d meta, minions h !! old = Some d ∧ metaJson d = Some meta ∧
    minions h' =
      <[new := setMeta (set_containerId None (set_renamed old (now e) (set_name new meta))) d]>
        (delete old (minions h)).
Proof.
  unfold rename. unfold mbind at 1. unfold M_bind at 1. rewrite validate_eq.
  destruct (nameFault new); [intros [= <- <-]; left; eauto|].
  unfold existsMinion, readMeta, checkNotRunning, writeMeta, renameInbox. unfold_m. simpl.
  destruct (minions h !! old) as [d|] eqn:Hold; simpl; [|intros [= <- <-]; left; eauto].
  destruct (bool_decide (is_Some (minions h !! new))); simpl;
    [intros [= <- <-]; left; eauto|].
  rewrite Hold. simpl.
  destruct (metaJson d) as [meta|] eqn:Hmeta; simpl; [|intros [= <- <-]; left; eauto].
  destruct (Js.truthy (containerId meta)); simpl;
    [destruct (docker e (inspectCmd old)); simpl;
       [destruct (_ || _); simpl; [intros [= <- <-]; left; eauto|]|]|].
  all: rewrite Hold; simpl; rewrite lookup_insert_eq; simpl.
  all: intros Hr; right; exists d, meta; split; [done|]; split; [done|].
  all: revert Hr; repeat (case_match; simplify_eq/=); intros [= <- <-]; simpl;
    by rewrite insert_insert_eq.
Qed.

(** What [rename] leaves of the invariant: its second half everywhere, and
    all of it but for the renamed worker. *)
Lemma rename_inv e old new h k m :
  hiveInv h → metaOf (after (rename e old new) h) k = Some m →
  waitingInv m ∧ (k ≠ new → metaInv m) ∧
  (status m ≠ "running" → status m ≠ "paused" → metaInv m).
Proof.
  intros Hh.
  assert (Hsame : ∀ k', minions h !! k' ≫= metaJson = Some m →
            waitingInv m ∧ (k ≠ new → metaInv m) ∧
            (status m ≠ "running" → status m ≠ "paused" → metaInv m)).
  { intros k'. destruct (minions h !! k') as [d|] eqn:Hk; [|done]. simpl. intros Hm.
    pose proof (hiveInv_lookup h k' d Hh Hk m Hm) as Hinv.
    split; [exact (proj2 Hinv)|]. split; intros; exact Hinv. }
  unfold metaOf, after. destruct (rename e old new h) as [r h'] eqn:Hr. simpl.
  destruct (rename_minions e old new h r h' Hr)
    as [(err & _ & ->)|(d & meta & Hd & Hm & ->)]; [apply Hsame|].
  destruct (decide (k = new)) as [->|Hne].
  - rewrite lookup_insert_eq. simpl. intros [= <-].
    pose proof (hiveInv_lookup h old d Hh Hd meta Hm) as [Hrun Hwait].
    assert (Hw : waitingInv
              (set_containerId None (set_renamed old (now e) (set_name new meta)))).
    { intros Hs. simpl in *. split; [by apply Hwait|done]. }
    split; [done|]. split; [done|].
    intros Hnr Hnp. split; [intros [?|?]; done|done].
  - rewrite lookup_insert_ne by done.
    destruct (decide (k = old)) as [->|Hno]; [by rewrite lookup_delete_eq|].
    rewrite lookup_delete_ne by done. apply Hsame.
Qed.

(** C10, as the code has it.  Every operation of the lifecycle and of the
    scheduler other than [rename] preserves the invariant (running or paused
    implies a container id; waiting implies a dependency and no container
    id), whether it returns or throws, so that every hive these operations
    reach from the empty one satisfies it.  [rename] preserves it for every
    worker but the renamed one; the renamed worker keeps its status and loses
    its container id, so that it satisfies the waiting half, and the whole
    invariant when its status is neither running nor paused. *)
Theorem invariant_preserved :
  (∀ e op h, hiveInv h → hiveInv (step e op h)) ∧
  (∀ h, reachable h → hiveInv h) ∧
  (∀ e old new h k m, hiveInv h → metaOf (after (rename e old new) h) k = Some m →
     waitingInv m ∧ (k ≠ new → metaInv m) ∧
     (status m ≠ "running" → status m ≠ "paused" → metaInv m)) ∧
  (∀ e old new h r, rename e old new h = (Ok r, after (rename e old new) h) →
     ∃ m, metaOf (after (rename e old new) h) new = Some m ∧ containerId m = None ∧
       ∃ m0, metaOf h old = Some m0 ∧ status m = status m0).
Proof.
  split; [|split; [|split]].
  - intros e op h. apply step_inv.
  - intros h Hr. induction Hr as [|e op h _ IH]; [|by apply step_inv].
    unfold hiveInv. apply map_Forall_empty.
  - intros e old new h k m. apply rename_inv.
  - intros e old new h r Hr.
    destruct (rename_minions e old new h _ _ Hr)
      as [(err & ? & _)|(d & meta & Hd & Hm & Heq)]; [done|].
    eexists. unfold metaOf. rewrite Heq, lookup_insert_eq. simpl.
    split; [done|]. split; [done|]. exists meta. rewrite Hd. done.
Qed.

(** C10 as stated fails: a worker that was spawned, and whose container has
    exited since, is renamed: the rename succeeds and leaves it with the
    status running and no container id. *)
Lemma rename_breaks_invariant :
  hiveInv (after (spawn (envWith dockerOk) "a" "first" noOptions) emptyHive) ∧
  (∃ r h', rename (envWith dockerExited) "a" "a2"
             (after (spawn (envWith dockerOk) "a" "first" noOptions) emptyHive) = (Ok r, h') ∧
     (status <$> metaOf h' "a2") = Some "running" ∧
     (containerId <$> metaOf h' "a2") = Some None) ∧
  ¬ hiveInv (after (rename (envWith dockerExited) "a" "a2")
               (after (spawn (envWith dockerOk) "a" "first" noOptions) emptyHive)).
Proof.
  split; [|split].
  - apply spawn_inv. unfold hiveInv. apply map_Forall_empty.
  - eexists. eexists. split; [vm_compute; reflexivity|]. split; reflexivity.
  - intros Hinv.
    assert (Hm : ∃ d m, minions (after (rename (envWith dockerExited) "a" "a2")
               (after (spawn (envWith dockerOk) "a" "first" noOptions) emptyHive)) !! "a2"
               = Some d ∧ metaJson d = Some m ∧ status m = "running" ∧ containerId m = None).
    { eexists. eexists. split; [vm_compute; reflexivity|]. repeat split. }
    destruct Hm as (d & m & Hd & Hm & Hs & Hc).
    destruct (hiveInv_lookup _ _ _ Hinv Hd m Hm) as [Hrun _].
    apply Hrun; [by left|done].
Qed.

(** * C7: [send] and [inbox] *)

Lemma send_eq e from to body h :
  is_Some (minions h !! from) → is_Some (minions h !! to) →
  send e from to body h =
  (Ok (message e from to body),
   mkHive (minions h)
     (<[to := <[fileOf e from := message e from to body]> (inboxFiles h to)]> (network h))).
Proof.
  intros Hf Ht. unfold send, existsMinion, _minionInbox, inboxFiles. unfold_m. simpl.
  rewrite (bool_decide_eq_true_2 _ Hf). simpl.
  rewrite (bool_decide_eq_true_2 _ Ht). simpl.
  destruct (network h !! to); simpl; [reflexivity|].
  by rewrite insert_insert_eq.
Qed.

(** C7, at an input on which the code departs from it.  [a] sends "first" to
    [dep] when the high-resolution clock shows 999999999999999 and [b] sends
    "second" when it shows 1000000000000000: [inbox] returns "second" before
    "first", the file names being compared as strings. *)
Theorem inbox_order_broken :
  (999999999999999 < 1000000000000000)%N ∧
  (send (envAt 999999999999999 "k3x9") "a" "dep" "first" fanHive).1 =
    Ok (mkMsg "999999999999999-a-k3x9" "a" "dep" "first" 1700000000000%N) ∧
  (send (envAt 1000000000000000 "qq22") "b" "dep" "second"
     (after (send (envAt 999999999999999 "k3x9") "a" "dep" "first") fanHive)).1 =
    Ok (mkMsg "1000000000000000-b-qq22" "b" "dep" "second" 1700000000000%N) ∧
  inbox "dep" rolloverHive =
    (Ok [mkMsg "1000000000000000-b-qq22" "b" "dep" "second" 1700000000000%N;
         mkMsg "999999999999999-a-k3x9" "a" "dep" "first" 1700000000000%N],
     rolloverHive).
Proof.
  split; [reflexivity|]. split; [vm_compute; reflexivity|].
  split; vm_compute; reflexivity.
Qed.

Lemma ends_with_app s suffix : Js.ends_with (s ++ suffix) suffix = true.
Proof.
  induction s as [|c s IH]; simpl.
  - destruct suffix; simpl; by rewrite ?String.eqb_refl, ?Ascii.eqb_refl.
  - rewrite IH. apply orb_true_r.
Qed.

(** A file whose name is above those of the inbox is read last. *)
Lemma inbox_append (files : gmap string Msg) f m :
  Js.ends_with f ".json" = true →
  (∀ g, g ∈ jsonFiles files → str_lt g f) →
  omap (λ g, <[f := m]> files !! g) (Js.sort (jsonFiles (<[f := m]> files))) =
  (omap (λ g, files !! g) (Js.sort (jsonFiles files)) ++ [m])%list.
Proof.
  intros Hjson Hbelow.
  assert (Hfresh : files !! f = None).
  { destruct (files !! f) as [x|] eqn:Hf; [|done]. exfalso.
    apply (str_lt_irrefl f), Hbelow, jsonFiles_elem. eauto. }
  assert (Hperm : jsonFiles (<[f := m]> files) ≡ₚ f :: jsonFiles files).
  { unfold jsonFiles. rewrite (readdirSync_insert files f m Hfresh).
    by rewrite filter_cons_True. }
  assert (Hsorted : Js.sort (jsonFiles (<[f := m]> files)) =
                    (Js.sort (jsonFiles files) ++ [f])%list).
  { apply (StronglySorted_unique Js.str_le).
    - apply StronglySorted_merge_sort; apply _.
    - apply StronglySorted_app_2.
      + intros g1 g2 Hg1 Hg2. apply list_elem_of_singleton in Hg2 as ->.
        apply str_lt_le, Hbelow. by rewrite sort_Permutation in Hg1.
      + apply StronglySorted_merge_sort; apply _.
      + repeat constructor.
    - rewrite !sort_Permutation, Hperm. by rewrite Permutation_cons_append. }
  rewrite Hsorted, omap_app. simpl. rewrite lookup_insert_eq. simpl. f_equal.
  apply list_omap_ext, Forall2_same_length_lookup. split; [done|].
  intros i g g' Hg Hg'. rewrite Hg in Hg'. injection Hg' as <-.
  apply lookup_insert_ne. intros <-.
  apply (str_lt_irrefl f), Hbelow.
  rewrite <- sort_Permutation. by eapply list_elem_of_lookup_2.
Qed.

Lemma inboxOf_eq h k :
  is_Some (minions h !! k) →
  inboxOf h k = omap (λ g, inboxFiles h k !! g) (Js.sort (jsonFiles (inboxFiles h k))).
Proof.
  intros Hk. unfold inboxOf, inboxFiles. rewrite (inbox_eq k h Hk). simpl.
  destruct (network h !! k); [done|]. simpl.
  by rewrite jsonFiles_empty.
Qed.

(** One [send]: the message is the last of the recipient's inbox when its
    file name is above those already there. *)
Lemma send_inbox e from to body h :
  is_Some (minions h !! from) → is_Some (minions h !! to) →
  (∀ g, g ∈ jsonFiles (inboxFiles h to) → str_lt g (fileOf e from)) →
  (send e from to body h).1 = Ok (message e from to body) ∧
  minions (after (send e from to body) h) = minions h ∧
  inboxFiles (after (send e from to body) h) to
    = <[fileOf e from := message e from to body]> (inboxFiles h to) ∧
  inboxOf (after (send e from to body) h) to
    = (inboxOf h to ++ [message e from to body])%list.
Proof.
  intros Hf Ht Hbelow. unfold after. rewrite (send_eq e from to body h Hf Ht). simpl.
  assert (Hfiles : inboxFiles
            (mkHive (minions h)
               (<[to := <[fileOf e from := message e from to body]> (inboxFiles h to)]>
                  (network h))) to
            = <[fileOf e from := message e from to body]> (inboxFiles h to)).
  { unfold inboxFiles at 1. simpl. by rewrite lookup_insert_eq. }
  repeat split; [done|].
  rewrite !inboxOf_eq by done. rewrite Hfiles.
  apply inbox_append; [apply ends_with_app|done].
Qed.

Lemma jsonFiles_insert (files : gmap string Msg) f m g :
  g ∈ jsonFiles (<[f := m]> files) → g = f ∨ g ∈ jsonFiles files.
Proof.
  rewrite !jsonFiles_elem. intros [Hg He].
  destruct (decide (g = f)) as [->|Hne]; [by left|].
  right. by rewrite lookup_insert_ne in Hg.
Qed.

Lemma sendAll_cons to e from body rest h :
  sendAll to ((e, from, body) :: rest) h =
  match send e from to body h with
  | (Ok m, h1) =>
      match sendAll to rest h1 with
      | (Ok ms, h2) => (Ok (m :: ms), h2)
      | (Throw err, h2) => (Throw err, h2)
      end
  | (Throw err, h1) => (Throw err, h1)
  end.
Proof. reflexivity. Qed.

(** Sends whose file names ascend, above those of the inbox, are read by
    [inbox] in the order they were sent, after what the inbox held. *)
Lemma sendAll_inbox to steps : ∀ h,
  is_Some (minions h !! to) →
  (∀ step, step ∈ steps → is_Some (minions h !! step.1.2)) →
  (∀ g step, g ∈ jsonFiles (inboxFiles h to) → step ∈ steps → str_lt g (stepFile step)) →
  StronglySorted str_lt (stepFile <$> steps) →
  (sendAll to steps h).1 = Ok (stepMessage to <$> steps) ∧
  minions (after (sendAll to steps) h) = minions h ∧
  inboxOf (after (sendAll to steps) h) to = (inboxOf h to ++ (stepMessage to <$> steps))%list.
Proof.
  induction steps as [|[[e from] body] steps IH]; intros h Ht Hfrom Hbelow Hsorted.
  - simpl. by rewrite app_nil_r.
  - rewrite fmap_cons in Hsorted. apply StronglySorted_inv in Hsorted as [Hsorted Hhead].
    destruct (send_inbox e from to body h) as (Hmsg & Hmin & Hfiles & Hinbox).
    { apply (Hfrom (e, from, body)), list_elem_of_here. }
    { done. }
    { intros g Hg. apply (Hbelow g (e, from, body) Hg), list_elem_of_here. }
    unfold after in *. rewrite sendAll_cons.
    destruct (send e from to body h) as [r h1]. simpl in Hmsg, Hmin, Hfiles, Hinbox. subst r.
    destruct (IH h1) as (Hmsgs & Hmin' & Hinbox'); [by rewrite Hmin| | |done|].
    { intros step Hstep. rewrite Hmin. apply Hfrom. by apply list_elem_of_further. }
    { intros g step Hg Hstep. rewrite Hfiles in Hg.
      apply jsonFiles_insert in Hg as [->|Hg].
      - rewrite Forall_forall in Hhead. apply Hhead.
        by apply (list_elem_of_fmap_2 stepFile).
      - apply (Hbelow g step Hg). by apply list_elem_of_further. }
    destruct (sendAll to steps h1) as [r2 h2]. simpl in Hmsgs, Hmin', Hinbox'. subst r2.
    simpl. split; [done|]. split; [congruence|].
    rewrite Hinbox', Hinbox, <- app_assoc. done.
Qed.

(** ** Decimal numbers as strings *)

Lemma valueBE_snoc l d : valueBE (l ++ [d]) = (10 * valueBE l + digitOf d)%N.
Proof.
  induction l as [|c l IH]; simpl; [lia|].
  rewrite IH, length_app. simpl.
  replace (N.of_nat (length l + 1)) with (N.succ (N.of_nat (length l))) by lia.
  rewrite N.pow_succ_r by lia. lia.
Qed.

Lemma valueBE_rev l : valueBE (rev l) = valueLE l.
Proof. induction l as [|d l IH]; simpl; [done|]. rewrite valueBE_snoc, IH. lia. Qed.

Lemma valueBE_bound l : Forall isDigit l → (valueBE l < 10 ^ N.of_nat (length l))%N.
Proof.
  induction 1 as [|d l Hd _ IH]; simpl; [lia|].
  replace (N.of_nat (S (length l))) with (N.succ (N.of_nat (length l))) by lia.
  rewrite N.pow_succ_r by lia. unfold isDigit, digitOf in *. nia.
Qed.

Lemma digit_of_small m :
  (m < 10)%N → isDigit (ascii_of_N (48 + m)) ∧ digitOf (ascii_of_N (48 + m)) = m.
Proof.
  intros Hm. unfold isDigit, digitOf. rewrite N_ascii_embedding by lia. lia.
Qed.

Lemma digits_le_spec fuel : ∀ n,
  (n < 10 ^ N.of_nat fuel)%N → (0 < fuel)%nat →
  Forall isDigit (Js.digits_le fuel n) ∧ valueLE (Js.digits_le fuel n) = n.
Proof.
  induction fuel as [|fuel IH]; intros n Hn Hfuel; [lia|].
  simpl. pose proof (N.mod_upper_bound n 10 ltac:(lia)) as Hmod.
  pose proof (N.div_mod n 10 ltac:(lia)) as Hdm.
  destruct (digit_of_small (n mod 10) Hmod) as [Hd Hv].
  destruct (N.ltb_spec n 10) as [Hlt|Hge].
  - split; [constructor; [done|constructor]|]. simpl.
    rewrite Hv, N.mod_small by done. lia.
  - replace (N.of_nat (S fuel)) with (N.succ (N.of_nat fuel)) in Hn by lia.
    rewrite N.pow_succ_r in Hn by lia.
    destruct (IH (n / 10)%N) as [Hds Hval].
    { apply N.Div0.div_lt_upper_bound; lia. }
    { destruct fuel; [simpl in Hn; lia|lia]. }
    split; [by constructor|]. simpl. rewrite Hv, Hval.
    revert Hdm. generalize (n mod 10)%N (n / 10)%N. intros r q Hdm. lia.
Qed.

Lemma decimal_fuel n : (n < 10 ^ N.of_nat (S (N.to_nat (N.log2 n))))%N.
Proof.
  replace (N.of_nat (S (N.to_nat (N.log2 n)))) with (N.succ (N.log2 n)) by lia.
  destruct (N.eq_dec n 0%N) as [->|Hn]; [simpl; lia|].
  assert (Hlog : (n < 2 ^ N.succ (N.log2 n))%N) by (apply N.log2_spec; lia).
  assert (Hpow : (2 ^ N.succ (N.log2 n) ≤ 10 ^ N.succ (N.log2 n))%N)
    by (apply N.pow_le_mono_l; lia).
  lia.
Qed.

(** The digits of [decimal n], most significant first, denote [n]. *)
Lemma decimal_spec n :
  ∃ l, Js.decimal n = string_of_list_ascii l ∧ Forall isDigit l ∧ valueBE l = n.
Proof.
  destruct (digits_le_spec (S (N.to_nat (N.log2 n))) n (decimal_fuel n) ltac:(lia))
    as [Hds Hval].
  exists (rev (Js.digits_le (S (N.to_nat (N.log2 n))) n)). split; [done|]. split.
  - by apply Forall_rev.
  - by rewrite valueBE_rev.
Qed.

Lemma length_string_of_list l : String.length (string_of_list_ascii l) = length l.
Proof. induction l as [|c l IH]; simpl; [done|]. by rewrite IH. Qed.

Lemma append_cons c (s t : string) : String c s ++ t = String c (s ++ t).
Proof. reflexivity. Qed.

(** Numbers with as many digits compare as their decimal strings do, whatever
    follows the digits. *)
Lemma compare_digits l1 : ∀ l2 x y,
  length l1 = length l2 → Forall isDigit l1 → Forall isDigit l2 →
  (valueBE l1 < valueBE l2)%N →
  String.compare (string_of_list_ascii l1 ++ x) (string_of_list_ascii l2 ++ y) = Lt.
Proof.
  induction l1 as [|d1 t1 IH]; intros [|d2 t2] x y Hlen H1 H2 Hval; simpl in *; try lia.
  apply Forall_cons in H1 as [Hd1 H1]. apply Forall_cons in H2 as [Hd2 H2].
  injection Hlen as Hlen. rewrite Hlen in Hval.
  pose proof (valueBE_bound t1 H1) as Hb1. pose proof (valueBE_bound t2 H2) as Hb2.
  rewrite Hlen in Hb1. unfold Ascii.compare.
  unfold isDigit, digitOf in *.
  destruct (N.compare_spec (N_of_ascii d1) (N_of_ascii d2)) as [Heq|Hlt|Hgt].
  - apply IH; [done..|]. rewrite Heq in Hval. lia.
  - done.
  - exfalso. nia.
Qed.

Lemma append_assoc (a b c : string) : (a ++ b) ++ c = a ++ (b ++ c).
Proof. induction a as [|x a IH]; [done|]. rewrite !append_cons. by f_equal. Qed.

(** Two sends in the order of the clock, with clock values of as many
    digits, write files whose names ascend. *)
Lemma clockOrder_files w s1 s2 : clockOrder w s1 s2 → str_lt (stepFile s1) (stepFile s2).
Proof.
  intros (Hlt & Hw1 & Hw2). unfold str_lt, String.ltb, stepFile, fileOf, messageId.
  destruct (decimal_spec (hrtime s1.1.1)) as (l1 & E1 & Hd1 & Hv1).
  destruct (decimal_spec (hrtime s2.1.1)) as (l2 & E2 & Hd2 & Hv2).
  rewrite E1 in Hw1 |- *. rewrite E2 in Hw2 |- *. rewrite length_string_of_list in Hw1, Hw2.
  rewrite !append_assoc.
  rewrite (compare_digits l1 l2); [done|congruence|done|done|]. by rewrite Hv1, Hv2.
Qed.

(** X27.  The order [inbox] returns: on an inbox without message files,
    sends made in the order of the high-resolution clock, with clock values
    of as many decimal digits, all return, and [inbox] then returns their
    messages in the order they were sent, whoever the senders are. *)
Lemma inbox_send_order w to steps h :
  is_Some (minions h !! to) →
  (∀ step, step ∈ steps → is_Some (minions h !! step.1.2)) →
  jsonFiles (inboxFiles h to) = [] →
  StronglySorted (clockOrder w) steps →
  (sendAll to steps h).1 = Ok (stepMessage to <$> steps) ∧
  inbox to (after (sendAll to steps) h)
    = (Ok (stepMessage to <$> steps), after (sendAll to steps) h).
Proof.
  intros Ht Hfrom Hempty Hsorted.
  destruct (sendAll_inbox to steps h Ht Hfrom) as (Hmsgs & Hmin & Hinbox).
  { intros g step Hg. rewrite Hempty in Hg. by apply elem_of_nil in Hg. }
  { eapply StronglySorted_fmap; [|exact Hsorted]. intros s1 s2. apply clockOrder_files. }
  split; [done|].
  assert (Ht' : is_Some (minions (after (sendAll to steps) h) !! to)) by (by rewrite Hmin).
  rewrite (inbox_eq _ _ Ht'). f_equal.
  rewrite (inboxOf_eq _ _ Ht'), (inboxOf_eq _ _ Ht), Hempty in Hinbox. simpl in Hinbox.
  rewrite <- Hinbox. unfold inboxFiles.
  destruct (network (after (sendAll to steps) h) !! to); [done|].
  simpl. by rewrite jsonFiles_empty.
Qed.

(** X26.  After one [send] between two minions, to an inbox without message
    files, [inbox] of the recipient returns exactly the message [send]
    returned, which carries the sender, the recipient and the body given. *)
Lemma send_then_inbox e from to body h :
  is_Some (minions h !! from) → is_Some (minions h !! to) →
  jsonFiles (inboxFiles h to) = [] →
  ∃ msg, (send e from to body h).1 = Ok msg ∧
    msg_from msg = from ∧ msg_to msg = to ∧ msg_body msg = body ∧
    inbox to (after (send e from to body) h) = (Ok [msg], after (send e from to body) h).
Proof.
  intros Hf Ht Hempty. exists (message e from to body).
  destruct (send_inbox e from to body h Hf Ht) as (Hmsg & Hmin & _ & Hinbox).
  { intros g Hg. rewrite Hempty in Hg. by apply elem_of_nil in Hg. }
  split; [done|]. repeat split.
  assert (Ht' : is_Some (minions (after (send e from to body) h) !! to)) by (by rewrite Hmin).
  rewrite (inbox_eq _ _ Ht'). f_equal.
  rewrite (inboxOf_eq _ _ Ht'), (inboxOf_eq _ _ Ht), Hempty in Hinbox. simpl in Hinbox.
  rewrite <- Hinbox. unfold inboxFiles.
  destruct (network (after (send e from to body) h) !! to); [done|].
  simpl. by rewrite jsonFiles_empty.
Qed.

(** * The names in the metadata *)

Lemma named_lookup h k d m :
  named h → minions h !! k = Some d → metaJson d = Some m → name m = k.
Proof.
  intros Hn Hk Hm. pose proof (map_Forall_lookup_1 _ _ _ _ Hn Hk) as Hd.
  simpl in Hd. rewrite Hm in Hd. by apply String.eqb_eq.
Qed.

Lemma named_bind h k m :
  named h → option_bind MinionDir Meta metaJson (minions h !! k) = Some m → name m = k.
Proof. rewrite named_spec. intros Hn Hm. by apply Hn. Qed.

(** Closes the naming condition of a directory the operations write. *)
Ltac solve_named Hn :=
  unfold named; simpl;
  repeat (apply map_Forall_insert_2;
          [simpl; repeat case_match; simplify_eq/=;
           first [ done | apply String.eqb_refl
                 | apply String.eqb_eq; eapply (named_lookup _ _ _ _ Hn); eassumption
                 | apply String.eqb_eq; eapply (named_bind _ _ _ Hn); eassumption ] |]);
  try exact Hn.

Lemma start_named e k o h : named h → named (after (start e k o) h).
Proof.
  intros Hn. unfold after. destruct (start e k o h) as [r h'] eqn:Hs. simpl.
  apply start_cases in Hs as [(err & -> & ->)|(d & meta & out & -> & Hk & Hm & Ho & ->)];
    [done|].
  solve_named Hn.
Qed.

Lemma startDependents_named e o ms : ∀ started h,
  named h → named (after (startDependents e o ms started) h).
Proof.
  induction ms as [|m ms IH]; intros started h Hn; [done|].
  unfold after. rewrite startDependents_cons.
  destruct (eligible h (l_meta m)); [|by apply IH].
  pose proof (start_named e (name (l_meta m)) o h Hn) as Hs. unfold after in Hs.
  destruct (start e (name (l_meta m)) o h) as [[r|err] h1]; [|done].
  by apply IH.
Qed.

(** The operations keep the name of every directory in its metadata. *)
Lemma step_named e op h : named h → named (step e op h).
Proof.
  intros Hn. destruct op; simpl.
  - unfold after. rewrite spawn_eq. repeat (case_match; simplify_eq/=); try done;
      solve_named Hn.
  - unfold after, spawnWaiting. unfold mbind at 1. unfold M_bind at 1.
    rewrite validate_eq. destruct (nameFault k); [done|].
    unfold existsMinion, putDir. unfold_m. simpl.
    repeat (case_match; simplify_eq/=); try done; solve_named Hn.
  - by apply start_named.
  - unfold after, pause, existsMinion, readMeta, writeMeta, _docker. unfold_m. simpl.
    repeat (case_match; simplify_eq/=); try done; solve_named Hn.
  - unfold after, resume, existsMinion, readMeta, writeMeta, _docker. unfold_m. simpl.
    repeat (case_match; simplify_eq/=); try done; solve_named Hn.
  - unfold after, restart, existsMinion, readMeta, writeMeta, _docker. unfold_m. simpl.
    repeat (case_match; simplify_eq/=); try done; solve_named Hn.
  - unfold after, kill, existsMinion, readMeta, writeMeta, _docker. unfold_m. simpl.
    repeat (case_match; simplify_eq/=); try done; solve_named Hn.
  - unfold after, retry, existsMinion, readMeta, writeMeta, putDir, _docker.
    unfold_m. simpl.
    repeat (case_match; simplify_eq/=); try done; solve_named Hn.
    all: try (rewrite buildIfNeeded_eq in *; repeat (case_match; simplify_eq/=)).
    all: solve_named Hn.
  - unfold after, clone. unfold mbind at 1. unfold M_bind at 1.
    rewrite validate_eq. destruct (nameFault new); [done|].
    unfold existsMinion, putDir, copyInbox, resetClone. unfold_m. simpl.
    repeat (case_match; simplify_eq/=); try done; solve_named Hn.
    all: apply map_Forall_insert_2; [|exact Hn].
    all: simpl; destruct (metaJson _); simpl; [apply String.eqb_refl|done].
  - unfold after. rewrite checkAndStartDependents_eq.
    by apply (startDependents_named e options (listing e h) [] h).
Qed.

Lemma rename_named e old new h : named h → named (after (rename e old new) h).
Proof.
  intros Hn. unfold after. destruct (rename e old new h) as [r h'] eqn:Hr. simpl.
  destruct (rename_minions e old new h r h' Hr)
    as [(err & _ & Heq)|(d & meta & Hd & Hm & Heq)]; unfold named; rewrite Heq; [done|].
  apply map_Forall_insert_2; [simpl; apply String.eqb_refl|].
  by apply map_Forall_delete.
Qed.

(** X28.  Every hive the operations of the lifecycle and of the scheduler
    reach from the empty one has the names in place: the [name] in each
    [meta.json] is the name of its directory. *)
Lemma reachable_named h : reachable h → named h.
Proof.
  induction 1 as [|e op h _ IH]; [|by apply step_named].
  unfold named. apply map_Forall_empty.
Qed.

(** * More of the lifecycle *)

(** ** Pause, resume, restart *)

(** Runs a monadic computation on a minion whose directory and metadata are
    known. *)
Ltac run_on Hk Hm := repeat first [rewrite Hk | rewrite Hm | progress simpl].

Lemma pause_eq e k h d meta :
  minions h !! k = Some d → metaJson d = Some meta →
  pause e k h =
  if Js.truthy (containerId meta) then
    match docker e ("pause hive-" ++ k) with
    | Some _ => (Ok (mkOutcome k "paused"),
                 withDir h k (setMeta (set_pausedAt (now e) (set_status "paused" meta)) d))
    | None => (Throw (FailedTo "pause"), h)
    end
  else (Throw (NoContainer k), h).
Proof.
  intros Hk Hm. unfold pause, existsMinion, readMeta, writeMeta, _docker.
  unfold_m. run_on Hk Hm.
  destruct (Js.truthy (containerId meta)); simpl; [|reflexivity].
  destruct (docker e _); run_on Hk Hm; reflexivity.
Qed.

Lemma resume_eq e k h d meta :
  minions h !! k = Some d → metaJson d = Some meta →
  resume e k h =
  if Js.truthy (containerId meta) then
    match docker e ("unpause hive-" ++ k) with
    | Some _ => (Ok (mkOutcome k "running"),
                 withDir h k (setMeta (set_resumedAt (now e) (set_status "running" meta)) d))
    | None => (Throw (FailedTo "resume"), h)
    end
  else (Throw (NoContainer k), h).
Proof.
  intros Hk Hm. unfold resume, existsMinion, readMeta, writeMeta, _docker.
  unfold_m. run_on Hk Hm.
  destruct (Js.truthy (containerId meta)); simpl; [|reflexivity].
  destruct (docker e _); run_on Hk Hm; reflexivity.
Qed.

Lemma restart_eq e k h d meta :
  minions h !! k = Some d → metaJson d = Some meta →
  restart e k h =
  if Js.truthy (containerId meta) then
    match docker e ("restart hive-" ++ k) with
    | Some _ => (Ok (mkOutcome k "restarted"),
                 withDir h k (setMeta (set_restartedAt (now e) (set_status "running" meta)) d))
    | None => (Throw (FailedTo "restart"), h)
    end
  else (Throw (NoContainer k), h).
Proof.
  intros Hk Hm. unfold restart, existsMinion, readMeta, writeMeta, _docker.
  unfold_m. run_on Hk Hm.
  destruct (Js.truthy (containerId meta)); simpl; [|reflexivity].
  destruct (docker e _); run_on Hk Hm; reflexivity.
Qed.

Lemma missing_minion_throws e k h :
  minions h !! k = None →
  pause e k h = (Throw (NotFound k), h) ∧ resume e k h = (Throw (NotFound k), h) ∧
  restart e k h = (Throw (NotFound k), h).
Proof.
  intros Hk. unfold pause, resume, restart, existsMinion. unfold_m. simpl.
  rewrite Hk. done.
Qed.

(** X1.  [pause], [resume] and [restart] are all-or-nothing and do not look
    at the status.  For a name of a directory entry that has no directory
    each throws the not-found error.  For a minion that has metadata each
    throws the no-container error when the metadata hold no container id
    and the Failed-to error when there is one and the docker command fails;
    in all these cases the hive is as it was.  When there is a container id
    and the docker command succeeds each returns, whatever the status was,
    and has changed nothing but the status and its own time stamp in the
    metadata of that minion: the status is paused after [pause] and running
    after [resume] and [restart]. *)
Theorem suspend_outcomes e k h :
  entryName k = true →
  (minions h !! k = None →
     pause e k h = (Throw (NotFound k), h) ∧ resume e k h = (Throw (NotFound k), h) ∧
     restart e k h = (Throw (NotFound k), h)) ∧
  (∀ d meta, minions h !! k = Some d → metaJson d = Some meta →
     (Js.truthy (containerId meta) = false →
        pause e k h = (Throw (NoContainer k), h) ∧
        resume e k h = (Throw (NoContainer k), h) ∧
        restart e k h = (Throw (NoContainer k), h)) ∧
     (Js.truthy (containerId meta) = true →
        (docker e ("pause hive-" ++ k) = None →
           pause e k h = (Throw (FailedTo "pause"), h)) ∧
        (docker e ("unpause hive-" ++ k) = None →
           resume e k h = (Throw (FailedTo "resume"), h)) ∧
        (docker e ("restart hive-" ++ k) = None →
           restart e k h = (Throw (FailedTo "restart"), h)) ∧
        (is_Some (docker e ("pause hive-" ++ k)) →
           pause e k h =
             (Ok (mkOutcome k "paused"),
              withDir h k (setMeta (set_pausedAt (now e) (set_status "paused" meta)) d))) ∧
        (is_Some (docker e ("unpause hive-" ++ k)) →
           resume e k h =
             (Ok (mkOutcome k "running"),
              withDir h k (setMeta (set_resumedAt (now e) (set_status "running" meta)) d))) ∧
        (is_Some (docker e ("restart hive-" ++ k)) →
           restart e k h =
             (Ok (mkOutcome k "restarted"),
              withDir h k
                (setMeta (set_restartedAt (now e) (set_status "running" meta)) d))))).
Proof.
  intros _. split; [apply missing_minion_throws|].
  intros d meta Hk Hm.
  rewrite (pause_eq e k h d meta Hk Hm), (resume_eq e k h d meta Hk Hm),
    (restart_eq e k h d meta Hk Hm).
  split; intros ->; [done|].
  split; [by intros ->|]. split; [by intros ->|]. split; [by intros ->|].
  split; [by intros [? ->]|]. split; by intros [? ->].
Qed.

(** [suspend_outcomes] on the waiting minion [b] of the chain, which has no
    container. *)
Lemma suspend_outcomes_witness :
  pause (envWith dockerOk) "b" chainHive = (Throw (NoContainer "b"), chainHive).
Proof.
  exact (proj1 (proj1 (proj2 (suspend_outcomes (envWith dockerOk) "b" chainHive
    eq_refl) _ _ eq_refl eq_refl) eq_refl)).
Defined.

(** X2.  Pausing and then resuming a minion that has a container, docker
    doing both, leaves it running with the two time stamps set and everything
    else in its directory, the container id included, as it was; the status
    it had before the pause is not brought back. *)
Theorem pause_then_resume e1 e2 k h d meta :
  minions h !! k = Some d → metaJson d = Some meta →
  Js.truthy (containerId meta) = true →
  is_Some (docker e1 ("pause hive-" ++ k)) → is_Some (docker e2 ("unpause hive-" ++ k)) →
  (pause e1 k h).1 = Ok (mkOutcome k "paused") ∧
  (resume e2 k (after (pause e1 k) h)).1 = Ok (mkOutcome k "running") ∧
  after (resume e2 k) (after (pause e1 k) h) =
    withDir h k
      (setMeta (set_resumedAt (now e2) (set_pausedAt (now e1) (set_status "running" meta))) d).
Proof.
  intros Hk Hm Ht [o1 H1] [o2 H2]. unfold after.
  rewrite (pause_eq e1 k h d meta Hk Hm), Ht, H1. simpl. split; [done|].
  erewrite resume_eq; [| by (simpl; apply lookup_insert_eq) | done].
  simpl. rewrite Ht, H2. simpl. split; [done|].
  unfold withDir. simpl. by rewrite insert_insert_eq.
Qed.

(** [pause_then_resume] on a spawned minion. *)
Lemma pause_then_resume_witness :
  status <$> metaOf (after (resume (envWith dockerOk) "a")
                      (after (pause (envWith dockerOk) "a") workingHive)) "a" = Some "running".
Proof.
  destruct (pause_then_resume (envWith dockerOk) (envWith dockerOk) "a" workingHive
    _ _ eq_refl eq_refl eq_refl (ex_intro _ _ eq_refl) (ex_intro _ _ eq_refl)) as (_ & _ & ->).
  reflexivity.
Defined.

(** ** Retry *)

Lemma retry_eq e k o h d task old :
  minions h !! k = Some d → taskMd d = Some task → metaJson d = Some old →
  retry e k o h =
  match imageReady e with
  | Some err => (Throw err, withDir h k (resetRun d))
  | None =>
      match docker e (startCmd e k o old) with
      | None => (Throw (DockerFailed (startCmd e k o old)), withDir h k (resetRun d))
      | Some out =>
          (Ok (mkStarted k (Js.trim out) (minionDirOf e k)),
           withDir h k (setMeta (retriedMeta e k o task old out) (resetRun d)))
      end
  end.
Proof.
  intros Hk Ht Hm. unfold retry, existsMinion, readMeta, writeMeta, putDir, _docker.
  unfold mbind at 1. unfold M_bind at 1. unfold_m. run_on Hk Hm. rewrite Ht. run_on Hk Hm.
  destruct (docker e ("stop hive-" ++ k)); [destruct (docker e ("rm hive-" ++ k))|];
    simpl; rewrite buildIfNeeded_eq; (destruct (imageReady e); [reflexivity|]); simpl;
    unfold startCmd;
    (destruct (docker e (runCmd e k o _ _)); [|reflexivity]); simpl;
    rewrite lookup_insert_eq; unfold withDir; simpl; rewrite insert_insert_eq; reflexivity.
Qed.

(** X3.  [retry] of a minion that has its task and its metadata removes the
    [STATUS] file and empties the output directory before it runs docker, so
    that a retry docker fails throws docker's error with the old metadata
    still in place and the completion signal gone.  A retry that returns has
    written new metadata: running, the new container id, a new creation time,
    the old one kept as [retryOf], the resource limits carried over unless
    overridden, and no dependency; the task file is kept. *)
Theorem retry_outcomes e k o h d task old :
  minions h !! k = Some d → taskMd d = Some task → metaJson d = Some old →
  (∀ err h', retry e k o h = (Throw err, h') →
     kind err = AdapterError ∧ h' = withDir h k (mkDir (Some old) (Some task) None (Some ∅)) ∧
     signal h' k = None ∧ metaOf h' k = Some old) ∧
  (∀ r h', retry e k o h = (Ok r, h') →
     ∃ out, docker e (startCmd e k o old) = Some out ∧
       r = mkStarted k (Js.trim out) (minionDirOf e k) ∧
       h' = withDir h k
              (mkDir (Some (retriedMeta e k o task old out)) (Some task) None (Some ∅))) ∧
  (imageReady e = None → ∀ out, docker e (startCmd e k o old) = Some out →
     retry e k o h =
       (Ok (mkStarted k (Js.trim out) (minionDirOf e k)),
        withDir h k
          (mkDir (Some (retriedMeta e k o task old out)) (Some task) None (Some ∅)))) ∧
  (∀ out, status (retriedMeta e k o task old out) = "running" ∧
     containerId (retriedMeta e k o task old out) = Some (Js.trim out) ∧
     createdAt (retriedMeta e k o task old out) = now e ∧
     retryOf (retriedMeta e k o task old out) = Some (createdAt old) ∧
     dependsOn (retriedMeta e k o task old out) = None ∧
     memory (retriedMeta e k o task old out) =
       (if Js.truthy (o_memory o) then o_memory o
        else if Js.truthy (memory old) then memory old else None) ∧
     cpus (retriedMeta e k o task old out) =
       (if Js.truthy (o_cpus o) then o_cpus o
        else if Js.truthy (cpus old) then cpus old else None)).
Proof.
  intros Hk Ht Hm. rewrite (retry_eq e k o h d task old Hk Ht Hm).
  unfold resetRun, setMeta. simpl. rewrite Ht, Hm.
  split; [|split; [|split]].
  - intros err h' Hr.
    assert (Hh : h' = withDir h k (mkDir (Some old) (Some task) None (Some ∅)) ∧
                 kind err = AdapterError).
    { destruct (imageReady e) as [err'|] eqn:Hi.
      - injection Hr as <- <-. split; [done|]. by apply imageReady_kind in Hi.
      - destruct (docker e _); [discriminate|]. injection Hr as <- <-. done. }
    destruct Hh as [-> Hkind]. split; [done|]. split; [done|].
    unfold signal, metaOf. simpl. rewrite lookup_insert_eq. done.
  - intros r h' Hr. destruct (imageReady e); [discriminate|].
    destruct (docker e _) as [out|]; [|discriminate].
    injection Hr as <- <-. by exists out.
  - intros Hi out Ho. by rewrite Hi, Ho.
  - intros out. simpl. unfold store_if, Js.or_else.
    repeat split; repeat case_match; try done; congruence.
Qed.

(** [retry_outcomes] on the completed minion of the fan, with a docker whose
    [run] fails: the signal is gone and the metadata are the old ones. *)
Lemma retry_outcomes_witness :
  signal fanHive "dep" = Some "COMPLETE" ∧
  signal (after (retry (envWith dockerNoRun) "dep" noOptions) fanHive) "dep" = None ∧
  status <$> metaOf (after (retry (envWith dockerNoRun) "dep" noOptions) fanHive) "dep"
    = Some "running".
Proof.
  split; [reflexivity|].
  destruct (retry_outcomes (envWith dockerNoRun) "dep" noOptions fanHive _ "zeroth" _
              eq_refl eq_refl eq_refl) as (Hthrow & _).
  destruct (Hthrow (DockerFailed (startCmd (envWith dockerNoRun) "dep" noOptions
               (spawnedMeta (envWith dockerOk) "dep" "zeroth" noOptions
                  ("abc123containerid" ++ String "010" ""))))
              (after (retry (envWith dockerNoRun) "dep" noOptions) fanHive) eq_refl)
    as (_ & _ & Hs & Hm).
  split; [exact Hs|]. rewrite Hm. reflexivity.
Defined.

(** ** Rename *)

Lemma rename_eq e old new h d meta :
  nameFault new = None → minions h !! old = Some d → minions h !! new = None →
  metaJson d = Some meta →
  rename e old new h =
  if renameRefused e old meta then (Throw (CannotRenameRunning old), h)
  else
    match network h !! old with
    | None => (Ok (mkRenamed old new (minionDirOf e new)),
               mkHive (renamedMinions e old new d meta h) (network h))
    | Some files =>
        if bool_decide (default ∅ (network h !! new) = ∅)
        then (Ok (mkRenamed old new (minionDirOf e new)),
              mkHive (renamedMinions e old new d meta h)
                (<[new := files]> (delete old (network h))))
        else (Throw (ENOTEMPTY new), mkHive (renamedMinions e old new d meta h) (network h))
    end.
Proof.
  intros Hf Hold Hnew Hm. unfold rename. unfold mbind at 1. unfold M_bind at 1.
  rewrite validate_eq, Hf.
  unfold existsMinion, readMeta, checkNotRunning, writeMeta, renameInbox, renameRefused,
    renamedMinions, renamedMeta.
  unfold_m. simpl. rewrite Hold. simpl. rewrite Hnew. simpl. rewrite Hold. simpl.
  rewrite Hm. simpl.
  destruct (Js.truthy (containerId meta)); simpl;
    [destruct (docker e (inspectCmd old)); simpl; [destruct (_ || _); simpl; [done|]|]|].
  all: rewrite Hold; simpl; rewrite lookup_insert_eq; simpl; rewrite insert_insert_eq.
  all: destruct (network h !! old); simpl; [|done].
  all: destruct (network h !! new); simpl; [|done].
  all: by destruct (bool_decide _).
Qed.

(** X4.  A [rename] that returns has moved the directory, with its task,
    [STATUS] and output files, and the inbox to the new name; nothing is left
    under the old name, no other minion is touched, and the [dependsOn] of
    the minions that waited for the old name is not rewritten: the old name
    has no signal any more, so none of them is eligible for a scheduler pass.
    A [rename] that throws has changed nothing, except when the inbox cannot
    be moved onto a non-empty one: then the directory has been moved and the
    inbox has not. *)
Theorem rename_outcomes e old new h r h' :
  rename e old new h = (r, h') →
  (∀ res, r = Ok res →
     ∃ d meta, minions h !! old = Some d ∧ metaJson d = Some meta ∧
       res = mkRenamed old new (minionDirOf e new) ∧
       minions h' !! new = Some (setMeta (renamedMeta e old new meta) d) ∧
       minions h' !! old = None ∧
       (∀ k, k ≠ old → k ≠ new → minions h' !! k = minions h !! k) ∧
       signal h' new = signal h old ∧ signal h' old = None ∧
       (∀ m, dependsOn m = Some old → eligible h' m = false) ∧
       network h' !! old = None ∧
       (∀ files, network h !! old = Some files → network h' !! new = Some files) ∧
       (∀ k, k ≠ old → k ≠ new → network h' !! k = network h !! k)) ∧
  (∀ err, r = Throw err →
     h' = h ∨
     ∃ d meta files, err = ENOTEMPTY new ∧ minions h !! old = Some d ∧
       metaJson d = Some meta ∧ network h !! old = Some files ∧
       default ∅ (network h !! new) ≠ ∅ ∧
       h' = mkHive (renamedMinions e old new d meta h) (network h)).
Proof.
  intros Hr.
  destruct (nameFault new) as [err0|] eqn:Hf.
  { revert Hr. unfold rename. unfold mbind at 1. unfold M_bind at 1.
    rewrite validate_eq, Hf. intros [= <- <-]. split; [done|]. intros; by left. }
  destruct (minions h !! old) as [d|] eqn:Hold; cycle 1.
  { revert Hr. unfold rename. unfold mbind at 1. unfold M_bind at 1.
    rewrite validate_eq, Hf. unfold existsMinion. unfold_m. simpl. rewrite Hold. simpl.
    intros [= <- <-]. split; [done|]. intros; by left. }
  destruct (minions h !! new) as [d2|] eqn:Hnew.
  { revert Hr. unfold rename. unfold mbind at 1. unfold M_bind at 1.
    rewrite validate_eq, Hf. unfold existsMinion. unfold_m. simpl. rewrite Hold. simpl.
    rewrite Hnew. simpl. intros [= <- <-]. split; [done|]. intros; by left. }
  destruct (metaJson d) as [meta|] eqn:Hm; cycle 1.
  { revert Hr. unfold rename. unfold mbind at 1. unfold M_bind at 1.
    rewrite validate_eq, Hf. unfold existsMinion, readMeta. unfold_m. simpl.
    rewrite Hold. simpl. rewrite Hnew. simpl. rewrite Hold. simpl. rewrite Hm. simpl.
    intros [= <- <-]. split; [done|]. intros; by left. }
  assert (Hne : old ≠ new) by (intros ->; congruence).
  rewrite (rename_eq e old new h d meta Hf Hold Hnew Hm) in Hr.
  destruct (renameRefused e old meta).
  { injection Hr as <- <-. split; [done|]. intros; by left. }
  assert (Hmin : minions h' = renamedMinions e old new d meta h).
  { destruct (network h !! old); [destruct (bool_decide _)|]; by injection Hr as <- <-. }
  assert (Hsig : signal h' old = None).
  { unfold signal. rewrite Hmin. unfold renamedMinions.
    rewrite lookup_insert_ne, lookup_delete_eq by done. done. }
  split.
  - intros res ->. exists d, meta. split; [done|]. split; [done|].
    split; [destruct (network h !! old); [destruct (bool_decide _)|]; congruence|].
    rewrite Hmin. unfold renamedMinions.
    split; [by rewrite lookup_insert_eq|].
    split; [by rewrite lookup_insert_ne, lookup_delete_eq|].
    split; [intros k ? ?; by rewrite lookup_insert_ne, lookup_delete_ne|].
    split; [unfold signal; rewrite Hmin; unfold renamedMinions;
            rewrite lookup_insert_eq, Hold; done|].
    split; [done|].
    split.
    { intros m Hd. apply not_true_is_false. rewrite eligible_spec.
      intros [_ (dep & Hdep & _ & Hs)]. rewrite Hd in Hdep. injection Hdep as <-.
      rewrite Hsig in Hs. done. }
    destruct (network h !! old) as [files|] eqn:Hnet.
    + destruct (bool_decide _); [|done]. injection Hr as _ <-. simpl.
      split; [by rewrite lookup_insert_ne, lookup_delete_eq|].
      split; [intros ? [= <-]; by rewrite lookup_insert_eq|].
      intros k ? ?. by rewrite lookup_insert_ne, lookup_delete_ne.
    + injection Hr as _ <-. simpl. split; [done|]. split; [done|]. done.
  - intros err ->. right.
    destruct (network h !! old) as [files|] eqn:Hnet; [|done].
    destruct (bool_decide _) eqn:Hb; [done|]. injection Hr as <- <-.
    exists d, meta, files. apply bool_decide_eq_false in Hb. done.
Qed.

(** [rename_outcomes] on the completed minion of the fan, for which [a] and
    [b] wait: after the rename neither of them is eligible. *)
Lemma rename_outcomes_witness :
  (∀ k, k = "a" ∨ k = "b" → ∃ m, metaOf fanHive k = Some m ∧ eligible fanHive m = true) ∧
  ∀ m, dependsOn m = Some "dep" →
    eligible (after (rename (envWith dockerExited) "dep" "dep2") fanHive) m = false.
Proof.
  split.
  - intros k [-> | ->]; eexists; (split; [vm_compute; reflexivity|]); reflexivity.
  - destruct (rename_outcomes (envWith dockerExited) "dep" "dep2" fanHive _ _
      (surjective_pairing _)) as [Hok _].
    assert (Hr : (rename (envWith dockerExited) "dep" "dep2" fanHive).1
                 = Ok (mkRenamed "dep" "dep2" "/hive/minions/dep2"))
      by (vm_compute; reflexivity).
    destruct (Hok _ Hr) as (d & meta & _ & _ & _ & _ & _ & _ & _ & _ & Hdep & _).
    exact Hdep.
Defined.

(** X5.  Renaming back.  After a [rename] from [old] to [new] that returned,
    when [old] is a name the validation accepts and there was no inbox under
    [new], the [rename] from [new] to [old] returns whatever docker says (the
    container id is gone, so docker is not asked): the inboxes are as they
    were at the start and so are the files of the directory; its metadata
    are the first ones with the name [old], no container id, and
    [renamedFrom] and [renamedAt] telling of the second rename. *)
Theorem rename_back e1 e2 old new h r h' d meta :
  validName old → network h !! new = None →
  minions h !! old = Some d → metaJson d = Some meta →
  rename e1 old new h = (Ok r, h') →
  rename e2 new old h' =
    (Ok (mkRenamed new old (minionDirOf e2 old)),
     mkHive (<[old := setMeta (renamedMeta e2 new old meta) d]> (minions h)) (network h)).
Proof.
  intros Hv Hnn Hold Hm Hr. apply nameFault_valid in Hv.
  assert (Hnew : minions h !! new = None).
  { destruct (minions h !! new) eqn:Hnew; [|done]. exfalso. revert Hr.
    unfold rename. unfold mbind at 1. unfold M_bind at 1. rewrite validate_eq.
    destruct (nameFault new); [done|]. unfold existsMinion. unfold_m. simpl.
    rewrite Hold. simpl. rewrite Hnew. done. }
  assert (Hfn : nameFault new = None).
  { destruct (nameFault new) eqn:Hfn; [|done]. exfalso. revert Hr.
    unfold rename. unfold mbind at 1. unfold M_bind at 1. rewrite validate_eq, Hfn. done. }
  assert (Hne : old ≠ new) by (intros ->; congruence).
  rewrite (rename_eq e1 old new h d meta Hfn Hold Hnew Hm) in Hr.
  destruct (renameRefused e1 old meta); [done|].
  rewrite Hnn in Hr. simpl in Hr.
  assert (Hh' : h' = mkHive (renamedMinions e1 old new d meta h)
                  (match network h !! old with
                   | Some files => <[new := files]> (delete old (network h))
                   | None => network h
                   end)).
  { destruct (network h !! old); [rewrite bool_decide_eq_true_2 in Hr by done|];
      by injection Hr as _ <-. }
  subst h'.
  erewrite rename_eq; [|done| | |]; cycle 1.
  { simpl. unfold renamedMinions. apply lookup_insert_eq. }
  { simpl. unfold renamedMinions. by rewrite lookup_insert_ne, lookup_delete_eq. }
  { reflexivity. }
  unfold renameRefused, renamedMeta. simpl.
  assert (Hms : renamedMinions e2 new old
            (setMeta (set_containerId None (set_renamed old (now e1) (set_name new meta))) d)
            (set_containerId None (set_renamed old (now e1) (set_name new meta)))
            {| minions := renamedMinions e1 old new d meta h;
               network := match network h !! old with
                          | Some files => <[new:=files]> (delete old (network h))
                          | None => network h
                          end |} =
          <[old := setMeta (renamedMeta e2 new old meta) d]> (minions h)).
  { unfold renamedMinions, renamedMeta. simpl. rewrite delete_insert_eq.
    rewrite (delete_id (delete old (minions h)) new)
      by (by rewrite lookup_delete_ne).
    by rewrite insert_delete_eq. }
  rewrite Hms.
  destruct (network h !! old) as [files|] eqn:Hnet; simpl.
  - rewrite lookup_insert_eq. rewrite lookup_insert_ne, lookup_delete_eq by done. simpl.
    rewrite bool_decide_eq_true_2 by done. do 2 f_equal.
    rewrite delete_insert_eq. rewrite (delete_id (delete old (network h)) new)
      by (by rewrite lookup_delete_ne).
    rewrite insert_delete_eq. by apply insert_id.
  - rewrite Hnn. reflexivity.
Qed.

(** [rename_back] on the last minion of the chain. *)
Lemma rename_back_witness :
  (rename (envWith dockerOk) "c2" "c"
     (after (rename (envWith dockerOk) "c" "c2") chainHive)).1
    = Ok (mkRenamed "c2" "c" "/hive/minions/c") ∧
  network (after (rename (envWith dockerOk) "c2" "c")
             (after (rename (envWith dockerOk) "c" "c2") chainHive)) = network chainHive.
Proof.
  assert (Hv : validName "c") by (split; [reflexivity|simpl; lia]).
  pose proof (rename_back (envWith dockerOk) (envWith dockerOk) "c" "c2" chainHive
    (mkRenamed "c" "c2" "/hive/minions/c2")
    (after (rename (envWith dockerOk) "c" "c2") chainHive) _ _ Hv eq_refl eq_refl eq_refl
    eq_refl) as Hback.
  unfold after at 2. rewrite Hback. split; reflexivity.
Defined.

(** ** Clone *)

Lemma clone_eq e src new o h d task :
  nameFault new = None → minions h !! src = Some d → taskMd d = Some task →
  minions h !! new = None →
  clone e src new o h =
  (Ok (mkCloned new src (if workspace o then "workspace" else "task-only") (minionDirOf e new)),
   mkHive (<[new := cloneDir e src new o d task]> (minions h))
     (if workspace o && withInbox o then
        match network h !! src with
        | Some files => <[new := files ∪ default ∅ (network h !! new)]> (network h)
        | None => network h
        end
      else network h)).
Proof.
  intros Hf Hsrc Ht Hnew. unfold clone. unfold mbind at 1. unfold M_bind at 1.
  rewrite validate_eq, Hf.
  unfold existsMinion, putDir, copyInbox, cloneDir. unfold_m. simpl.
  rewrite Hsrc. simpl. rewrite Hnew. simpl. rewrite Hsrc. simpl. rewrite Ht.
  destruct (workspace o); simpl; [|done].
  destruct (withInbox o); simpl; [|done].
  by destruct (network h !! src).
Qed.

(** X6.  [clone] of a minion that has its task, to a valid name that is not
    taken, always returns, and docker has no part in it: the new directory
    holds the task, no [STATUS] and an empty output directory (a workspace
    clone has one only if the source had one); the source and every other
    minion are untouched; the metadata of the clone are pending
    with no container id and tell where it was cloned from.  A task-only
    clone has fresh metadata.  A workspace clone keeps the other fields of
    the source, its creation time and its dependency among them, and copies
    the inbox only when asked to.  A clone that has metadata can be started:
    [start] on it returns whenever docker builds and runs. *)
Theorem clone_outcomes e src new o h d task :
  validName new → minions h !! src = Some d → taskMd d = Some task →
  minions h !! new = None →
  ∃ d', clone e src new o h =
          (Ok (mkCloned new src (if workspace o then "workspace" else "task-only")
                 (minionDirOf e new)),
           mkHive (<[new := d']> (minions h)) (network (after (clone e src new o) h))) ∧
    taskMd d' = Some task ∧ statusFile d' = None ∧
    (workspace o = false → outputDir d' = Some ∅ ∧
       metaJson d' = Some (clonedMeta e src new task)) ∧
    (workspace o = true → outputDir d' = (λ _, ∅) <$> outputDir d ∧
       metaJson d' =
         (λ m, set_status "pending" (set_containerId None
                 (set_cloned src (now e) (set_name new m)))) <$> metaJson d) ∧
    (∀ m, metaJson d' = Some m →
       name m = new ∧ status m = "pending" ∧ containerId m = None ∧
       clonedFrom m = Some src ∧ clonedAt m = Some (now e)) ∧
    (∀ m m0, metaJson d' = Some m → metaJson d = Some m0 → workspace o = true →
       createdAt m = createdAt m0 ∧ dependsOn m = dependsOn m0 ∧
       memory m = memory m0 ∧ cpus m = cpus m0) ∧
    (workspace o && withInbox o = false → network (after (clone e src new o) h) = network h) ∧
    (∀ e', now e' = now e → minionsDir e' = minionsDir e →
       clone e' src new o h = clone e src new o h) ∧
    (∀ m e2 o2 out, metaJson d' = Some m → imageReady e2 = None →
       docker e2 (startCmd e2 new o2 m) = Some out →
       (start e2 new o2 (after (clone e src new o) h)).1 =
         Ok (mkStarted new (Js.trim out) (minionDirOf e2 new))).
Proof.
  intros Hv Hsrc Ht Hnew. apply nameFault_valid in Hv.
  exists (cloneDir e src new o d task). unfold after.
  rewrite (clone_eq e src new o h d task Hv Hsrc Ht Hnew). simpl.
  split; [done|].
  unfold cloneDir, resetClone.
  split; [by destruct (workspace o)|]. split; [by destruct (workspace o)|].
  split; [by intros ->|]. split; [by intros ->|].
  split.
  { intros m. destruct (workspace o); simpl.
    - destruct (metaJson d); simpl; [|done]. by intros [= <-].
    - by intros [= <-]. }
  split.
  { intros m m0 Hm Hm0 Hw. rewrite Hw, Hm0 in Hm. simpl in Hm. by injection Hm as <-. }
  split; [by intros ->|].
  split.
  { intros e' Hnow Hdir. rewrite (clone_eq e' src new o h d task Hv Hsrc Ht Hnew).
    unfold cloneDir, resetClone, clonedMeta, minionDirOf. by rewrite Hnow, Hdir. }
  intros m e2 o2 out Hm Hi Ho. rewrite start_eq. simpl. rewrite lookup_insert_eq.
  unfold startDir. rewrite Hm.
  assert (Hs : status m = "pending").
  { revert Hm. destruct (workspace o); simpl.
    - destruct (metaJson d); simpl; [|done]. by intros [= <-].
    - by intros [= <-]. }
  rewrite Hs. simpl.
  assert (Htask : taskMd (if workspace o
                          then {| metaJson := (λ meta : Meta, set_status "pending"
                                     (set_containerId None
                                        (set_cloned src (now e) (set_name new meta)))) <$>
                                     metaJson d;
                                  taskMd := taskMd d; statusFile := None;
                                  outputDir := (λ _ : gmap string string, ∅) <$> outputDir d |}
                          else {| metaJson := Some (clonedMeta e src new task);
                                  taskMd := Some task; statusFile := None;
                                  outputDir := Some ∅ |}) = Some task)
    by (by destruct (workspace o)).
  rewrite Htask, Hi, Ho. reflexivity.
Qed.

(** [clone_outcomes] on the completed minion of the fan, with a docker that
    is down: the workspace clone has no [STATUS] file. *)
Lemma clone_outcomes_witness :
  ∃ d', (clone (envWith dockerDown) "dep" "dep2" (mkCloneOptions true false) fanHive).1 =
          Ok (mkCloned "dep2" "dep" "workspace" "/hive/minions/dep2") ∧
    minions (after (clone (envWith dockerDown) "dep" "dep2" (mkCloneOptions true false))
               fanHive) !! "dep2" = Some d' ∧
    taskMd d' = Some "zeroth" ∧ statusFile d' = None.
Proof.
  assert (Hv : validName "dep2") by (split; [reflexivity|simpl; lia]).
  destruct (clone_outcomes (envWith dockerDown) "dep" "dep2" (mkCloneOptions true false)
              fanHive _ "zeroth" Hv eq_refl eq_refl eq_refl) as (d' & Hc & Ht & Hs & _).
  exists d'. unfold after. rewrite Hc. split; [reflexivity|].
  split; [apply lookup_insert_eq|]. split; [exact Ht|exact Hs].
Defined.

(** ** Spawn waiting *)

Lemma spawnWaiting_eq e k task dep o h :
  spawnWaiting e k task dep o h =
  match nameFault k with
  | Some err => (Throw err, h)
  | None =>
      match minions h !! k with
      | Some _ => (Throw (AlreadyExists k), h)
      | None =>
          match minions h !! dep with
          | None => (Throw (DependencyNotFound dep), h)
          | Some _ =>
              (Ok (mkWaiting k (minionDirOf e k) "waiting" dep),
               withDir h k (waitingDir e k task dep o))
          end
      end
  end.
Proof.
  unfold spawnWaiting. unfold mbind at 1. unfold M_bind at 1. rewrite validate_eq.
  destruct (nameFault k); [done|].
  unfold existsMinion, putDir. unfold_m. simpl.
  destruct (minions h !! k); simpl; [done|].
  destruct (minions h !! dep); simpl; done.
Qed.

(** X7.  [spawnWaiting] with a dependency that is the name of a directory
    entry never asks docker: with the same clock and paths it gives the same
    outcome whatever docker is.  It throws, and changes nothing, when the
    name is invalid, when the name is taken, or when the dependency does not
    exist, in this order; a minion can therefore not be made to wait for
    itself.  Otherwise it returns and stores the minion as waiting for the
    dependency with no container id, and the minion is not eligible for a
    scheduler pass until the [STATUS] of the dependency reads COMPLETE once
    trimmed. *)
Theorem spawnWaiting_outcomes e k task dep o h :
  entryName dep = true →
  (∀ e', now e' = now e → minionsDir e' = minionsDir e →
     spawnWaiting e' k task dep o h = spawnWaiting e k task dep o h) ∧
  (∀ err, (spawnWaiting e k task dep o h).1 = Throw err →
     after (spawnWaiting e k task dep o) h = h ∧
     (kind err = InvalidName ↔ ¬ validName k) ∧
     (err = AlreadyExists k ↔ validName k ∧ is_Some (minions h !! k)) ∧
     (err = DependencyNotFound dep ↔
        validName k ∧ minions h !! k = None ∧ minions h !! dep = None)) ∧
  (∃ err, (spawnWaiting e k task k o h).1 = Throw err) ∧
  (∀ r, (spawnWaiting e k task dep o h).1 = Ok r →
     r = mkWaiting k (minionDirOf e k) "waiting" dep ∧
     after (spawnWaiting e k task dep o) h = withDir h k (waitingDir e k task dep o) ∧
     (signal h dep ≠ Some "COMPLETE" →
        eligible (after (spawnWaiting e k task dep o) h) (waitingMeta e k task dep o) = false) ∧
     (signal h dep = Some "COMPLETE" →
        eligible (after (spawnWaiting e k task dep o) h) (waitingMeta e k task dep o) = true)).
Proof.
  intros Hdep%entryName_nonempty. unfold after. rewrite !spawnWaiting_eq.
  split; [|split; [|split]].
  - intros e' Hnow Hdir. rewrite spawnWaiting_eq.
    unfold waitingDir, waitingMeta, minionDirOf. by rewrite Hnow, Hdir.
  - intros err. rewrite <- nameFault_valid.
    destruct (nameFault k) as [err0|] eqn:Hf; simpl.
    + intros [= <-]. split; [done|]. apply nameFault_kind in Hf as Hkind.
      split; [split; [done|by rewrite Hkind]|].
      split; (split; [intros ->; done|intros [? _]; done]).
    + destruct (minions h !! k) as [d|] eqn:Hk; simpl.
      * intros [= <-]. split; [done|]. split; [split; [done|intros H; by destruct H]|].
        split; [split; [eauto|done]|]. split; [done|]. intros (_ & ? & _). done.
      * destruct (minions h !! dep) eqn:Hd; simpl; [done|]. intros [= <-].
        split; [done|]. split; [split; [done|intros H; by destruct H]|].
        split; [split; [done|]; intros [_ [? ?]]; done|]. done.
  - destruct (nameFault k); [eauto|].
    destruct (minions h !! k) eqn:Hk; [eauto|]. eauto.
  - intros r. destruct (nameFault k); [done|].
    destruct (minions h !! k) eqn:Hk; [done|].
    destruct (minions h !! dep) as [dd|] eqn:Hd; [|done]. simpl. intros [= <-].
    split; [done|]. split; [done|].
    assert (Hne : k ≠ dep) by (intros ->; congruence).
    assert (Hsig : signal (withDir h k (waitingDir e k task dep o)) dep = signal h dep).
    { unfold signal. simpl. by rewrite lookup_insert_ne. }
    split.
    + intros Hs. apply not_true_is_false. rewrite eligible_spec.
      intros [_ (dep' & Hd' & _ & Hs')]. simpl in Hd'. injection Hd' as <-.
      rewrite Hsig in Hs'. done.
    + intros Hs. apply eligible_spec. split; [done|]. exists dep.
      split; [done|]. split; [done|]. by rewrite Hsig.
Qed.

(** [spawnWaiting_outcomes] on the chain: a fourth minion waits for [c]. *)
Lemma spawnWaiting_outcomes_witness :
  ∃ err, (spawnWaiting (envWith dockerDown) "d" "fourth" "d" noOptions chainHive).1 = Throw err.
Proof.
  exact (proj1 (proj2 (proj2
    (spawnWaiting_outcomes (envWith dockerDown) "d" "fourth" "c" noOptions chainHive
       eq_refl)))).
Defined.

(** ** A pass that has returned *)


Lemma hive_eq (h1 h2 : Hive) : minions h1 = minions h2 → network h1 = network h2 → h1 = h2.
Proof. destruct h1, h2. simpl. by intros -> ->. Qed.




(** ** A killed minion *)

(** X9.  Once [kill] has run on a minion, [start] refuses it with the
    wrong-status error, naming the status killed, and no scheduler pass
    touches it, also when it was waiting and its dependency has signalled
    COMPLETE; [retry] is what brings it back: it runs whenever docker does
    and the task is there. *)
Theorem killed_stays_down e k h d meta :
  minions h !! k = Some d → metaJson d = Some meta →
  (∀ e2 o2, start e2 k o2 (after (kill e k) h)
            = (Throw (NotPendingWaiting k "killed"), after (kill e k) h)) ∧
  (named h → ∀ e2 o2,
     minions (after (checkAndStartDependents e2 o2) (after (kill e k) h)) !! k
       = minions (after (kill e k) h) !! k) ∧
  (∀ task e2 o2 out, taskMd d = Some task → imageReady e2 = None →
     docker e2 (startCmd e2 k o2 (set_killedAt (now e) (set_status "killed" meta))) = Some out →
     (retry e2 k o2 (after (kill e k) h)).1
       = Ok (mkStarted k (Js.trim out) (minionDirOf e2 k))).
Proof.
  intros Hk Hm. unfold after at 1 2 4 5. rewrite (kill_eq e k h d meta Hk Hm). simpl.
  split; [|split].
  - intros e2 o2. rewrite start_eq. simpl. rewrite lookup_insert_eq. reflexivity.
  - intros Hn e2 o2.
    assert (Hn' : named (withDir h k (setMeta (set_killedAt (now e) (set_status "killed" meta)) d))).
    { pose proof (step_named e (OpKill k) h Hn) as Hn'. simpl in Hn'. unfold after in Hn'.
      by rewrite (kill_eq e k h d meta Hk Hm) in Hn'. }
    unfold after. destruct (checkAndStartDependents e2 o2 _) as [r h'] eqn:Hpass. simpl.
    apply (pass_leaves e2 o2 _ r h' k Hn' Hpass).
    intros meta'. unfold metaOf. simpl. rewrite lookup_insert_eq. simpl. by intros [= <-].
  - intros task e2 o2 out Ht Hi Ho. unfold after. rewrite (kill_eq e k h d meta Hk Hm).
    erewrite retry_eq; [| by (simpl; apply lookup_insert_eq) | exact Ht | reflexivity ].
    by rewrite Hi, Ho.
Qed.

(** [killed_stays_down] on the minion [b] of the fan, whose dependency has
    signalled COMPLETE. *)
Lemma killed_stays_down_witness :
  start (envWith dockerOk) "b" noOptions (after (kill (envWith dockerOk) "b") fanHive)
  = (Throw (NotPendingWaiting "b" "killed"), after (kill (envWith dockerOk) "b") fanHive).
Proof.
  exact (proj1 (killed_stays_down (envWith dockerOk) "b" fanHive _ _ eq_refl eq_refl)
           (envWith dockerOk) noOptions).
Defined.

(** ** Listing and reading *)

Lemma trim_start_white pre s : white pre = true → Js.trim_start (pre ++ s) = Js.trim_start s.
Proof.
  induction pre as [|c pre IH]; [done|]. simpl. intros [Hc Hp]%andb_true_iff.
  rewrite Hc. by apply IH.
Qed.

Lemma trim_start_of_white post : white post = true → Js.trim_start post = "".
Proof.
  induction post as [|c post IH]; [done|]. simpl. intros [Hc Hp]%andb_true_iff.
  rewrite Hc. by apply IH.
Qed.

Lemma trim_end_of_white post : white post = true → Js.trim_end post = "".
Proof.
  induction post as [|c post IH]; [done|]. simpl. intros [Hc Hp]%andb_true_iff.
  by rewrite (IH Hp), Hc.
Qed.

Lemma trim_end_white s post : white post = true → Js.trim_end (s ++ post) = Js.trim_end s.
Proof.
  intros Hp. induction s as [|c s IH]; [by apply trim_end_of_white|].
  rewrite append_cons. simpl. by rewrite IH.
Qed.

Lemma trim_end_fixed c r :
  Js.is_space (lastChar c r) = false → Js.trim_end (String c r) = String c r.
Proof.
  revert c. induction r as [|d r IH]; intros c Hl; simpl in *.
  - by rewrite Hl.
  - specialize (IH d Hl). simpl in IH. by rewrite IH.
Qed.

(** [trim] removes the white space at both ends and nothing else. *)
Lemma trim_spec pre core post :
  white pre = true → white post = true → bare core = true →
  Js.trim (pre ++ core ++ post) = core.
Proof.
  intros Hpre Hpost Hcore. unfold Js.trim. rewrite trim_start_white by done.
  destruct core as [|c r].
  - simpl. by rewrite trim_start_of_white.
  - simpl in Hcore. apply andb_true_iff in Hcore as [Hc Hl].
    apply negb_true_iff in Hc, Hl. rewrite append_cons.
    assert (Hs : Js.trim_start (String c (r ++ post)) = String c (r ++ post))
      by (simpl; by rewrite Hc).
    rewrite Hs, <- append_cons, trim_end_white by done. by apply trim_end_fixed.
Qed.

Lemma trim_start_split s :
  ∃ pre, s = pre ++ Js.trim_start s ∧ white pre = true ∧
    match Js.trim_start s with
    | String c _ => Js.is_space c = false
    | EmptyString => True
    end.
Proof.
  induction s as [|c s IH]; [by exists ""|]. simpl.
  destruct (Js.is_space c) eqn:Hc.
  - destruct IH as (pre & Hs & Hp & Hh). exists (String c pre).
    rewrite append_cons, <- Hs. unfold white in *. simpl. by rewrite Hc.
  - exists "". done.
Qed.

Lemma trim_end_split s : ∃ post, s = Js.trim_end s ++ post ∧ white post = true.
Proof.
  induction s as [|c s IH]; [by exists ""|]. simpl.
  destruct IH as (post & Hs & Hp).
  destruct (Js.trim_end s) as [|d r'] eqn:Ht.
  - simpl in Hs. subst s. destruct (Js.is_space c) eqn:Hc.
    + exists (String c post). unfold white in *. simpl. by rewrite Hc.
    + exists post. done.
  - exists post. by rewrite append_cons, <- Hs.
Qed.

Lemma trim_end_last s : ∀ c r,
  Js.trim_end s = String c r → Js.is_space (lastChar c r) = false.
Proof.
  induction s as [|a s IH]; intros c r; [done|]. simpl.
  destruct (Js.trim_end s) as [|d r'].
  - destruct (Js.is_space a) eqn:Ha; [done|]. by intros [= <- <-].
  - intros [= <- <-]. simpl. by apply IH.
Qed.

Lemma trim_end_head c r :
  Js.is_space c = false → ∃ r', Js.trim_end (String c r) = String c r'.
Proof.
  intros Hc. simpl. destruct (Js.trim_end r); [rewrite Hc|]; eauto.
Qed.

(** Whatever the string, [trim] gives its part between the white space at
    the two ends. *)
Lemma trim_split s :
  ∃ pre post, s = pre ++ Js.trim s ++ post ∧ white pre = true ∧ white post = true ∧
    bare (Js.trim s) = true.
Proof.
  destruct (trim_start_split s) as (pre & Hs & Hpre & Hh).
  destruct (trim_end_split (Js.trim_start s)) as (post & Ht & Hpost).
  exists pre, post. unfold Js.trim. rewrite <- Ht. split; [done|]. split; [done|].
  split; [done|].
  destruct (Js.trim_start s) as [|c r]; [done|].
  destruct (trim_end_head c r Hh) as [r' Hr]. rewrite Hr. simpl.
  by rewrite Hh, (trim_end_last _ _ _ Hr).
Qed.

Lemma status_run e k h :
  status_ e k h =
  match minions h !! k with
  | None => (Throw (NotFound k), h)
  | Some d =>
      match metaJson d with
      | None => (Throw (ENOENT (minionDirOf e k ++ "/meta.json")), h)
      | Some meta =>
          (Ok (mkStatus meta (signal h k) (outputOf h k)
                 (if Js.truthy (containerId meta)
                  then Some (default "(container removed)" (docker e ("logs hive-" ++ k)))
                  else None)), h)
      end
  end.
Proof.
  unfold status_, existsMinion, readMeta, signal, outputOf. unfold_m. simpl.
  destruct (minions h !! k) as [d|] eqn:Hk; simpl; [|done].
  rewrite Hk. simpl. destruct (metaJson d); simpl; [|done]. by rewrite Hk.
Qed.

(** X10.  In a hive whose metadata carry their directory names [list]
    changes nothing and returns the minions that have a [meta.json], each
    once and in ascending order of their names, the directories without one
    being skipped.  An entry carries the metadata and the task status that
    [status] returns for that minion, and, when the metadata hold a
    container id, what docker inspect prints, trimmed, or removed when the
    inspect fails. *)
Theorem list_entries e h :
  named h →
  ∃ ms, list_ e h = (Ok ms, h) ∧
    StronglySorted str_lt (names ms) ∧
    (∀ k, k ∈ names ms ↔ is_Some (metaOf h k)) ∧
    (∀ m, m ∈ ms →
       ∃ st, status_ e (name (l_meta m)) h = (Ok st, h) ∧
         s_meta st = l_meta m ∧ s_taskStatus st = taskStatus m) ∧
    (∀ m, m ∈ ms →
       containerStatus m =
         if Js.truthy (containerId (l_meta m))
         then Some (match docker e (inspectCmd (name (l_meta m))) with
                    | Some out => Js.trim out
                    | None => "removed"
                    end)
         else None).
Proof.
  intros Hn. exists (listing e h). split; [reflexivity|].
  split; [by apply listing_sorted|].
  assert (Hentry : ∀ m, m ∈ listing e h →
            ∃ d, minions h !! name (l_meta m) = Some d ∧
              listEntry e (name (l_meta m), d) = Some m).
  { intros m Hm. apply listing_elem in Hm as (k & d & Hk & Hl).
    assert (Hkn : name (l_meta m) = k).
    { apply (named_lookup h k d _ Hn Hk). by apply (listEntry_meta e k d m). }
    rewrite Hkn. eauto. }
  split; [|split].
  - intros k. split.
    + intros Hin. apply list_elem_of_fmap in Hin as (m & -> & Hin).
      rewrite (listing_named e h m Hn Hin). eauto.
    + intros [meta Hm]. destruct (listing_complete e h k meta Hm) as (m & Hin & <-).
      assert (Hname : name (l_meta m) = k) by (rewrite named_spec in Hn; by apply Hn).
      rewrite <- Hname. by apply names_elem.
  - intros m Hm. destruct (Hentry m Hm) as (d & Hk & Hl).
    rewrite status_run, Hk. rewrite (listEntry_meta e _ d m Hl).
    eexists. split; [reflexivity|]. split; [done|]. simpl.
    unfold signal. rewrite Hk. simpl.
    unfold listEntry in Hl. simpl in Hl. destruct (metaJson d); [|done].
    simpl in Hl. injection Hl as Hl. by apply (f_equal taskStatus) in Hl.
  - intros m Hm. destruct (Hentry m Hm) as (d & Hk & Hl).
    unfold listEntry in Hl. simpl in Hl. destruct (metaJson d) as [m0|]; [|done].
    simpl in Hl. injection Hl as Hl.
    pose proof (f_equal l_meta Hl) as Hmeta. pose proof (f_equal containerStatus Hl) as Hcs.
    simpl in Hmeta, Hcs. by rewrite <- Hcs, Hmeta.
Qed.

(** [list_entries] on the chain: the three minions in the order of their
    names. *)
Lemma list_entries_witness :
  ∃ ms, list_ (envWith dockerOk) chainHive = (Ok ms, chainHive) ∧
    StronglySorted str_lt (names ms) ∧ ∀ k, k ∈ names ms ↔ is_Some (metaOf chainHive k).
Proof.
  assert (Hn : named chainHive) by (apply (bool_decide_unpack _); vm_compute; exact I).
  destruct (list_entries (envWith dockerOk) chainHive Hn) as (ms & Hl & Hs & Hin & _).
  exists ms. split; [exact Hl|]. split; [exact Hs|exact Hin].
Defined.

(** X11.  What the readers report of the [STATUS] file.  For a minion that
    has metadata [status] and [collect] return, leave the hive as it is, and
    report the content of the file with the white space at its two ends
    removed and nothing else changed: when the file holds a core that
    neither begins nor ends with white space, with white space before and
    after it, the status reported is the core, so COMPLETE followed by a
    line feed or a no-break space reads COMPLETE; whatever the file holds,
    what is reported neither begins nor ends with white space and is what
    the file holds between the white space at its ends; without the file no
    status is reported.  [collect] returns the output log and the container
    logs of [status]: the logs are absent without a container id and read
    (container removed) when docker fails, where [logs] throws in both
    cases. *)
Theorem reading_a_minion e k lines h d meta :
  minions h !! k = Some d → metaJson d = Some meta →
  ∃ st, status_ e k h = (Ok st, h) ∧
    collect e k h = (Ok (mkCollected k (s_taskStatus st) (s_output st) (s_logs st)), h) ∧
    s_meta st = meta ∧ s_output st = readOutput d ∧
    (statusFile d = None → s_taskStatus st = None) ∧
    (∀ pre core post, statusFile d = Some (pre ++ core ++ post) →
       white pre = true → white post = true → bare core = true →
       s_taskStatus st = Some core) ∧
    (∀ raw, statusFile d = Some raw →
       ∃ core pre post, s_taskStatus st = Some core ∧ raw = pre ++ core ++ post ∧
         white pre = true ∧ white post = true ∧ bare core = true) ∧
    (Js.truthy (containerId meta) = false →
       s_logs st = None ∧ logs e k lines h = (Throw (NoContainer k), h)) ∧
    (Js.truthy (containerId meta) = true →
       s_logs st = Some (default "(container removed)" (docker e ("logs hive-" ++ k))) ∧
       logs e k lines h =
         (match docker e ("logs --tail " ++ Js.decimal lines ++ " hive-" ++ k) with
          | Some out => Ok out
          | None => Throw (FailedTo "get logs")
          end, h)).
Proof.
  intros Hk Hm.
  assert (Hc : collect e k h =
    match status_ e k h with
    | (Ok st, h') => (Ok (mkCollected k (s_taskStatus st) (s_output st) (s_logs st)), h')
    | (Throw err, h') => (Throw err, h')
    end) by reflexivity.
  rewrite Hc, status_run, Hk, Hm. eexists. split; [reflexivity|]. split; [reflexivity|].
  simpl. unfold signal, outputOf, readTaskStatus. rewrite Hk. simpl.
  split; [done|]. split; [done|]. split; [by intros ->|].
  split; [intros pre core post -> Hpre Hpost Hcore; simpl; f_equal; by apply trim_spec|].
  split.
  { intros raw ->. simpl. destruct (trim_split raw) as (pre & post & Hr & Hpre & Hpost & Hb).
    exists (Js.trim raw), pre, post. done. }
  unfold logs, existsMinion, readMeta, _docker. unfold_m. run_on Hk Hm.
  split; intros ->; simpl; [done|].
  split; [done|]. by destruct (docker e ("logs --tail " ++ _)).
Qed.

(** [reading_a_minion] on the completed minion of the fan. *)
Lemma reading_a_minion_witness :
  ∃ st, status_ (envWith dockerOk) "dep" fanHive = (Ok st, fanHive) ∧
    s_taskStatus st = Some "COMPLETE".
Proof.
  destruct (reading_a_minion (envWith dockerOk) "dep" 50 fanHive _ _ eq_refl eq_refl)
    as (st & Hs & _ & _ & _ & _ & Ht & _).
  exists st. split; [exact Hs|]. exact (Ht "" "COMPLETE" "" eq_refl eq_refl eq_refl eq_refl).
Defined.

(** ** Sending *)

(** X12.  [send] between two names of directory entries checks the sender
    before the recipient and throws without changing anything when either
    has no directory.  When both have one it returns the message, with the
    given sender, recipient and body, and writes it into the inbox of the
    recipient under the name made of its id: no minion and no other inbox is
    touched, and the other files of the inbox stay. *)
Theorem send_outcomes e from to body h :
  entryName from = true → entryName to = true →
  (minions h !! from = None → send e from to body h = (Throw (SenderNotFound from), h)) ∧
  (is_Some (minions h !! from) → minions h !! to = None →
     send e from to body h = (Throw (RecipientNotFound to), h)) ∧
  (is_Some (minions h !! from) → is_Some (minions h !! to) →
     (send e from to body h).1 = Ok (mkMsg (messageId e from) from to body (now e)) ∧
     minions (after (send e from to body) h) = minions h ∧
     (∀ k, k ≠ to → network (after (send e from to body) h) !! k = network h !! k) ∧
     network (after (send e from to body) h) !! to =
       Some (<[messageId e from ++ ".json" := mkMsg (messageId e from) from to body (now e)]>
               (inboxFiles h to))).
Proof.
  intros _ _. split; [|split].
  - intros Hf. unfold send, existsMinion. unfold_m. simpl. by rewrite Hf.
  - intros [d Hf] Ht. unfold send, existsMinion. unfold_m. simpl. rewrite Hf. simpl.
    by rewrite Ht.
  - intros Hf Ht. unfold after. rewrite (send_eq e from to body h Hf Ht). simpl.
    split; [done|]. split; [done|].
    split; [intros k Hk; by rewrite lookup_insert_ne|]. by rewrite lookup_insert_eq.
Qed.

(** [send_outcomes] on the fan: [a] writes to a minion that does not exist. *)
Lemma send_outcomes_witness :
  send (envWith dockerOk) "a" "nobody" "hello" fanHive
  = (Throw (RecipientNotFound "nobody"), fanHive).
Proof.
  exact (proj1 (proj2 (send_outcomes (envWith dockerOk) "a" "nobody" "hello" fanHive
                         eq_refl eq_refl))
           (ex_intro _ _ eq_refl) eq_refl).
Defined.

(** * Cleanup and prune *)

Lemma try_docker e cmd h : try_ (_docker e cmd) h = (Ok tt, h).
Proof. unfold try_, _docker. unfold_m. by destruct (docker e cmd). Qed.

Lemma cleanupLoop_cons e o m rest cleaned h :
  cleanupLoop e o (m :: rest) cleaned h =
  if cleanable o m then
    if removeFiles o then
      match minions h !! name (l_meta m) with
      | Some _ =>
          cleanupLoop e o rest (cleaned ++ [name (l_meta m)])
            (mkHive (delete (name (l_meta m)) (minions h)) (network h))
      | None => (Throw (ENOENT (minionDirOf e (name (l_meta m)))), h)
      end
    else cleanupLoop e o rest (cleaned ++ [name (l_meta m)]) h
  else cleanupLoop e o rest cleaned h.
Proof.
  simpl. unfold cleanable. destruct (_ || _ || _); [|done].
  unfold mbind at 1. unfold M_bind at 1. rewrite try_docker.
  destruct (removeFiles o); [|done].
  unfold rmMinionDir. unfold_m. simpl. by destruct (minions h !! name (l_meta m)).
Qed.

Lemma cleanupLoop_spec e o ms : ∀ cleaned h,
  NoDup (names ms) → (∀ m, m ∈ ms → is_Some (minions h !! name (l_meta m))) →
  ∃ h', cleanupLoop e o ms cleaned h =
          (Ok (cleaned ++ names (filter (λ m, cleanable o m = true) ms))%list, h') ∧
    network h' = network h ∧
    ∀ k, minions h' !! k =
         if removeFiles o && bool_decide (k ∈ names (filter (λ m, cleanable o m = true) ms))
         then None else minions h !! k.
Proof.
  induction ms as [|m ms IH]; intros cleaned h Hnd Hex.
  - exists h. split; [simpl; by rewrite app_nil_r|]. split; [done|].
    intros k. by destruct (removeFiles o).
  - unfold names in Hnd. rewrite fmap_cons in Hnd. apply NoDup_cons in Hnd as [Hm Hnd].
    fold (names ms) in Hm, Hnd. rewrite cleanupLoop_cons, filter_cons.
    destruct (cleanable o m) eqn:Hc.
    + rewrite decide_True by done. unfold names at 1. rewrite fmap_cons.
      fold (names (filter (λ m, cleanable o m = true) ms)).
      destruct (removeFiles o) eqn:Hrm.
      * destruct (Hex m) as [d Hd]; [left|]. rewrite Hd.
        destruct (IH (cleaned ++ [name (l_meta m)])%list
                    (mkHive (delete (name (l_meta m)) (minions h)) (network h)) Hnd)
          as (h' & Hrun & Hnet & Hmin).
        { intros x Hx. simpl. rewrite lookup_delete_ne; [apply Hex; by right|].
          intros Heq. apply Hm. rewrite Heq. by apply names_elem. }
        exists h'. rewrite Hrun, <- app_assoc. split; [done|]. split; [done|].
        intros k. rewrite Hmin. simpl.
        destruct (decide (k = name (l_meta m))) as [->|Hne].
        -- rewrite lookup_delete_eq.
           rewrite (bool_decide_eq_true_2 (name (l_meta m) ∈ _ :: _)) by left.
           by destruct (bool_decide _).
        -- rewrite lookup_delete_ne by done.
           destruct (bool_decide (k ∈ names _)) eqn:Hb.
           ++ apply bool_decide_eq_true in Hb.
              by rewrite (bool_decide_eq_true_2 (k ∈ _ :: _)) by (by right).
           ++ apply bool_decide_eq_false in Hb.
              rewrite (bool_decide_eq_false_2 (k ∈ _ :: _)); [done|].
              intros Hin. apply elem_of_cons in Hin as [?|?]; done.
      * destruct (IH (cleaned ++ [name (l_meta m)])%list h Hnd) as (h' & Hrun & Hnet & Hmin).
        { intros x Hx. apply Hex. by right. }
        exists h'. rewrite Hrun, <- app_assoc. split; [done|]. split; [done|].
        intros k. rewrite Hmin. done.
    + rewrite decide_False by congruence.
      destruct (IH cleaned h Hnd) as (h' & Hrun & Hnet & Hmin).
      { intros x Hx. apply Hex. by right. }
      exists h'. done.
Qed.

(** A listed minion has its directory under its name. *)
Lemma listed_exists e h m :
  named h → m ∈ listing e h → is_Some (minions h !! name (l_meta m)).
Proof.
  intros Hn Hm. pose proof (listing_named e h m Hn Hm) as Hmeta. unfold metaOf in Hmeta.
  destruct (minions h !! name (l_meta m)); [eauto|done].
Qed.

(** X13.  In a hive whose metadata carry their directory names [cleanup]
    returns, whatever docker does: its result is the names of the minions
    with metadata whose [STATUS] reads COMPLETE once trimmed or whose status
    is killed, or of all minions with metadata when [all] is set, in
    ascending order.  Without [removeFiles] the hive is as before; with it
    the directories of the returned minions are gone and nothing else is:
    the other minions stay, and so do all inboxes, those of the removed
    minions included. *)
Theorem cleanup_spec e o h :
  named h →
  ∃ h', cleanup e o h = (Ok (names (filter (λ m, cleanable o m = true) (listing e h))), h') ∧
    StronglySorted str_lt (names (filter (λ m, cleanable o m = true) (listing e h))) ∧
    (∀ k, k ∈ names (filter (λ m, cleanable o m = true) (listing e h)) ↔
       ∃ meta, metaOf h k = Some meta ∧
         (signal h k = Some "COMPLETE" ∨ status meta = "killed" ∨ cu_all o = true)) ∧
    network h' = network h ∧
    (removeFiles o = false → h' = h) ∧
    (removeFiles o = true → ∀ k,
       minions h' !! k =
         if bool_decide (k ∈ names (filter (λ m, cleanable o m = true) (listing e h)))
         then None else minions h !! k).
Proof.
  intros Hn.
  destruct (cleanupLoop_spec e o (listing e h) [] h) as (h' & Hrun & Hnet & Hmin).
  { by apply listing_NoDup. }
  { intros m Hm. by apply (listed_exists e). }
  exists h'. split; [exact Hrun|]. split; [by apply filtered_sorted|].
  split; [|split; [done|split]].
  - intros k. split.
    + intros Hin. apply list_elem_of_fmap in Hin as (m & -> & Hin).
      apply list_elem_of_filter in Hin as [Hc Hin].
      pose proof (listing_named e h m Hn Hin) as Hmeta. exists (l_meta m). split; [done|].
      apply listing_elem in Hin as (k & d & Hk & Hl).
      assert (Hkn : name (l_meta m) = k).
      { apply (named_lookup h k d _ Hn Hk). by apply (listEntry_meta e k d m). }
      unfold cleanable in Hc. apply orb_true_iff in Hc as [Hc|Hc]; [|by right; right].
      apply orb_true_iff in Hc as [Hc|Hc]; [left|right; left; by apply String.eqb_eq].
      apply bool_decide_eq_true in Hc. unfold signal. rewrite Hkn, Hk. simpl.
      unfold listEntry in Hl. simpl in Hl. destruct (metaJson d); [|done]. simpl in Hl.
      injection Hl as <-. done.
    + intros (meta & Hm & Hor).
      destruct (listing_complete e h k meta Hm) as (m & Hin & <-).
      assert (Hname : name (l_meta m) = k) by (rewrite named_spec in Hn; by apply Hn).
      subst k. apply names_elem. apply list_elem_of_filter. split; [|done].
      unfold cleanable. destruct Hor as [Hs|[Hs|Hs]].
      * apply listing_elem in Hin as (k' & d & Hk & Hl).
        assert (Hkn : name (l_meta m) = k').
        { apply (named_lookup h k' d _ Hn Hk). by apply (listEntry_meta e k' d m). }
        rewrite Hkn in Hs. unfold signal in Hs. rewrite Hk in Hs. simpl in Hs.
        unfold listEntry in Hl. simpl in Hl. destruct (metaJson d); [|done]. simpl in Hl.
        injection Hl as <-. simpl. by rewrite bool_decide_eq_true_2.
      * rewrite Hs. simpl. by rewrite orb_true_r.
      * rewrite Hs. by rewrite orb_true_r.
  - intros Hrm. apply hive_eq; [|done]. apply map_eq. intros k. rewrite Hmin, Hrm. done.
  - intros Hrm k. rewrite Hmin, Hrm. done.
Qed.

(** [cleanup_spec] on the fan, with a docker that is down and the files
    removed: the completed minion goes and its inbox stays. *)
Lemma cleanup_spec_witness :
  ∃ h', cleanup (envWith dockerDown) (mkCleanupOptions false true) mailHive =
          (Ok (names (filter (λ m, cleanable (mkCleanupOptions false true) m = true)
                        (listing (envWith dockerDown) mailHive))), h') ∧
    network h' = network mailHive.
Proof.
  assert (Hn : named mailHive) by (apply (bool_decide_unpack _); vm_compute; exact I).
  destruct (cleanup_spec (envWith dockerDown) (mkCleanupOptions false true) mailHive Hn)
    as (h' & Hrun & _ & _ & Hnet & _).
  exists h'. split; [exact Hrun|exact Hnet].
Defined.

(** X14.  The inbox of a minion that [cleanup] removed is found again by a
    minion created later under the same name: after a [cleanup] with
    [removeFiles], a [spawn] of the name of a removed minion makes a minion
    whose inbox returns the messages the old one had, whether docker ran the
    new container or not. *)
Theorem cleanup_then_spawn e o h k e2 task o2 :
  named h → removeFiles o = true → validName k →
  k ∈ names (filter (λ m, cleanable o m = true) (listing e h)) →
  inbox k (after (spawn e2 k task o2) (after (cleanup e o) h))
  = (Ok (inboxOf h k), after (spawn e2 k task o2) (after (cleanup e o) h)).
Proof.
  intros Hn Hrm Hv Hin.
  destruct (cleanupLoop_spec e o (listing e h) [] h) as (h' & Hrun & Hnet & Hmin).
  { by apply listing_NoDup. }
  { intros m Hm. by apply (listed_exists e). }
  assert (Hc : after (cleanup e o) h = h').
  { unfold after, cleanup, list_. unfold_m. simpl. fold (listing e h). by rewrite Hrun. }
  rewrite Hc.
  assert (Hgone : minions h' !! k = None).
  { rewrite (Hmin k), Hrm. simpl. by rewrite bool_decide_eq_true_2. }
  assert (Hwas : is_Some (minions h !! k)).
  { apply list_elem_of_fmap in Hin as (m & -> & Hm).
    apply list_elem_of_filter in Hm as [_ Hm]. by apply (listed_exists e). }
  apply nameFault_valid in Hv.
  assert (Hsp : is_Some (minions (after (spawn e2 k task o2) h') !! k) ∧
                network (after (spawn e2 k task o2) h') = network h').
  { unfold after. rewrite spawn_eq, Hv, Hgone.
    destruct (imageReady e2); [|destruct (docker e2 _)]; simpl;
      rewrite lookup_insert_eq; eauto. }
  destruct Hsp as [Hex Hnet2].
  rewrite (inbox_eq _ _ Hex). f_equal. f_equal.
  rewrite (inboxOf_eq _ _ Hwas). unfold inboxFiles. rewrite Hnet2, Hnet.
  destruct (network h !! k); [done|]. simpl. by rewrite jsonFiles_empty.
Qed.

(** [cleanup_then_spawn] on the fan after two messages to [dep]. *)
Lemma cleanup_then_spawn_witness :
  inbox "dep" (after (spawn (envWith dockerOk) "dep" "again" noOptions)
                 (after (cleanup (envWith dockerOk) (mkCleanupOptions false true)) mailHive))
  = (Ok (inboxOf mailHive "dep"),
     after (spawn (envWith dockerOk) "dep" "again" noOptions)
       (after (cleanup (envWith dockerOk) (mkCleanupOptions false true)) mailHive)).
Proof.
  assert (Hn : named mailHive) by (apply (bool_decide_unpack _); vm_compute; exact I).
  assert (Hv : validName "dep") by (split; [reflexivity|simpl; lia]).
  apply (cleanup_then_spawn (envWith dockerOk) (mkCleanupOptions false true) mailHive "dep"
           (envWith dockerOk) "again" noOptions Hn eq_refl Hv).
  vm_compute. apply list_elem_of_here.
Defined.

(** ** Prune *)

Lemma pruneLoop_cons e o ageMs m rest pruned h :
  pruneLoop e o ageMs (m :: rest) pruned h =
  if prunable e o ageMs m then
    pruneLoop e o ageMs rest (pruned ++ [prunedEntry e m])
      (if dryRun o then h
       else mkHive (delete (name (l_meta m)) (minions h))
                   (delete (name (l_meta m)) (network h)))
  else pruneLoop e o ageMs rest pruned h.
Proof.
  simpl. unfold prunable, ageOf.
  destruct (bool_decide (taskStatus m = Some "COMPLETE"));
    destruct (bool_decide (taskStatus m = Some "FAILED")); simpl; try done.
  all: destruct (pr_all o || _); [|done].
  all: unfold mbind at 1; unfold M_bind at 1.
  all: destruct (dryRun o); simpl; [done|].
  all: unfold mbind at 1; unfold M_bind at 1; rewrite try_docker; done.
Qed.

Lemma pruneLoop_spec e o ageMs ms : ∀ pruned h,
  ∃ h', pruneLoop e o ageMs ms pruned h =
          (Ok (pruned ++ (prunedEntry e <$> filter (λ m, prunable e o ageMs m = true) ms))%list,
           h') ∧
    (∀ k, minions h' !! k =
          if negb (dryRun o) &&
             bool_decide (k ∈ names (filter (λ m, prunable e o ageMs m = true) ms))
          then None else minions h !! k) ∧
    (∀ k, network h' !! k =
          if negb (dryRun o) &&
             bool_decide (k ∈ names (filter (λ m, prunable e o ageMs m = true) ms))
          then None else network h !! k).
Proof.
  induction ms as [|m ms IH]; intros pruned h.
  - exists h. split; [simpl; by rewrite app_nil_r|].
    split; intros k; by destruct (dryRun o).
  - rewrite pruneLoop_cons, filter_cons.
    destruct (prunable e o ageMs m) eqn:Hp.
    + rewrite decide_True by done. unfold names. rewrite !fmap_cons.
      fold (names (filter (λ m, prunable e o ageMs m = true) ms)).
      destruct (IH (pruned ++ [prunedEntry e m])%list
                  (if dryRun o then h
                   else mkHive (delete (name (l_meta m)) (minions h))
                               (delete (name (l_meta m)) (network h))))
        as (h' & Hrun & Hmin & Hnet).
      exists h'. rewrite Hrun, <- app_assoc. split; [done|].
      split; intros k; [rewrite Hmin|rewrite Hnet]; destruct (dryRun o); simpl; try done.
      all: destruct (decide (k = name (l_meta m))) as [->|Hne].
      all: try (rewrite lookup_delete_eq;
                rewrite (bool_decide_eq_true_2 (name (l_meta m) ∈ _ :: _)) by left;
                by destruct (bool_decide _)).
      all: rewrite lookup_delete_ne by done.
      all: destruct (bool_decide (k ∈ names _)) eqn:Hb;
        [apply bool_decide_eq_true in Hb;
         by rewrite (bool_decide_eq_true_2 (k ∈ _ :: _)) by (by right)|].
      all: apply bool_decide_eq_false in Hb.
      all: rewrite (bool_decide_eq_false_2 (k ∈ _ :: _)); [done|].
      all: intros Hin; apply elem_of_cons in Hin as [?|?]; done.
    + rewrite decide_False by congruence. apply IH.
Qed.

Lemma prune_eq e o h :
  prune e o h =
  match threshold o with
  | inl err => (inl err, h)
  | inr ageMs =>
      (inr (pruneLoop e o ageMs (listing e h) [] h).1, (pruneLoop e o ageMs (listing e h) [] h).2)
  end.
Proof. unfold prune, threshold. by destruct (if pr_all o then _ else _). Qed.


(** X29.  Unlike [cleanup], [prune] takes the inbox along: after a [prune]
    that is not a dry run, a [spawn] of the name of a pruned minion makes a
    minion whose inbox is empty, whatever messages the old one had and
    whether docker ran the new container or not. *)
Theorem prune_then_spawn e o h ageMs k e2 task o2 :
  threshold o = inr ageMs → dryRun o = false → validName k →
  k ∈ names (filter (λ m, prunable e o ageMs m = true) (listing e h)) →
  inbox k (after (spawn e2 k task o2) (prune e o h).2)
  = (Ok [], after (spawn e2 k task o2) (prune e o h).2).
Proof.
  intros Ht Hd Hv Hin. rewrite prune_eq, Ht. simpl.
  destruct (pruneLoop_spec e o ageMs (listing e h) [] h) as (h' & Hrun & Hmin & Hnet).
  rewrite Hrun. simpl.
  assert (Hgone : minions h' !! k = None).
  { rewrite Hmin, Hd. simpl. by rewrite bool_decide_eq_true_2. }
  assert (Hbox : network h' !! k = None).
  { rewrite Hnet, Hd. simpl. by rewrite bool_decide_eq_true_2. }
  apply nameFault_valid in Hv.
  assert (Hsp : is_Some (minions (after (spawn e2 k task o2) h') !! k) ∧
                network (after (spawn e2 k task o2) h') = network h').
  { unfold after. rewrite spawn_eq, Hv, Hgone.
    destruct (imageReady e2); [|destruct (docker e2 _)]; simpl;
      rewrite lookup_insert_eq; eauto. }
  destruct Hsp as [Hex Hnet2].
  rewrite (inbox_eq _ _ Hex). by rewrite Hnet2, Hbox.
Qed.

(** [prune_then_spawn] on the fan after two messages to [dep], every
    completed minion being pruned. *)
Lemma prune_then_spawn_witness :
  inbox "dep" (after (spawn (envWith dockerOk) "dep" "again" noOptions)
                 (prune (envWith dockerOk) (mkPruneOptions None true false) mailHive).2)
  = (Ok [],
     after (spawn (envWith dockerOk) "dep" "again" noOptions)
       (prune (envWith dockerOk) (mkPruneOptions None true false) mailHive).2).
Proof.
  assert (Hv : validName "dep") by (split; [reflexivity|simpl; lia]).
  apply (prune_then_spawn (envWith dockerOk) (mkPruneOptions None true false) mailHive 0%Z
           "dep" (envWith dockerOk) "again" noOptions eq_refl eq_refl Hv).
  vm_compute. apply list_elem_of_here.
Defined.

(** * Ages *)

Lemma splitLast_snoc s u : splitLast (s ++ String u "") = Some (s, u).
Proof.
  induction s as [|c s IH]; [reflexivity|].
  rewrite append_cons. simpl. by rewrite IH.
Qed.

Lemma splitLast_None s : splitLast s = None → s = "".
Proof. destruct s as [|c s]; [done|]. simpl. by destruct (splitLast s) as [[? ?]|]. Qed.

Lemma splitLast_spec s p u : splitLast s = Some (p, u) → s = p ++ String u "".
Proof.
  revert p. induction s as [|c s IH]; intros p; [done|]. simpl.
  destruct (splitLast s) as [[p' l]|] eqn:Hs.
  - intros [= <- <-]. rewrite append_cons. f_equal. by apply IH.
  - intros [= <- <-]. by rewrite (splitLast_None s Hs).
Qed.

Lemma ageMultiplier_spec u mult :
  ageMultiplier u = Some mult ↔
  (u = "d"%char ∧ mult = 86400000%Z) ∨ (u = "h"%char ∧ mult = 3600000%Z) ∨
  (u = "m"%char ∧ mult = 60000%Z).
Proof.
  unfold ageMultiplier.
  destruct (Ascii.eqb_spec u "d") as [->|Hd]; [split; [intros [= <-]; eauto|]|].
  { intros [[_ ->]|[[? _]|[? _]]]; done. }
  destruct (Ascii.eqb_spec u "h") as [->|Hh]; [split; [intros [= <-]; eauto|]|].
  { intros [[? _]|[[_ ->]|[? _]]]; done. }
  destruct (Ascii.eqb_spec u "m") as [->|Hm]; [split; [intros [= <-]; eauto|]|].
  { intros [[? _]|[[? _]|[_ ->]]]; done. }
  split; [done|]. intros [[? _]|[[? _]|[? _]]]; done.
Qed.

Lemma is_digit_spec c : is_digit c = true ↔ isDigit c.
Proof.
  unfold is_digit, isDigit. rewrite andb_true_iff, !Nat.leb_le.
  unfold nat_of_ascii. lia.
Qed.

Lemma all_digits_spec l :
  all_chars is_digit (string_of_list_ascii l) = true ↔ Forall isDigit l.
Proof.
  induction l as [|c l IH]; simpl; [split; [constructor|done]|].
  rewrite andb_true_iff, IH, is_digit_spec, Forall_cons. done.
Qed.

Lemma decimal_nonempty n : Js.decimal n ≠ "".
Proof.
  unfold Js.decimal. simpl.
  destruct (n <? 10)%N; simpl.
  - done.
  - destruct (rev _); simpl; done.
Qed.

Lemma parseAge_decimal n u mult :
  ageMultiplier u = Some mult →
  _parseAge (Js.decimal n ++ String u "") = inr (Z.of_N n * mult)%Z.
Proof.
  intros Hu. unfold _parseAge. rewrite splitLast_snoc.
  destruct (decimal_spec n) as (l & Hl & Hd & Hv).
  pose proof (decimal_nonempty n) as Hne.
  destruct (Js.decimal n) as [|c r] eqn:Hdec; [done|].
  rewrite Hl, (proj2 (all_digits_spec l) Hd), Hu.
  unfold parseDigits. by rewrite list_ascii_of_string_of_list_ascii, Hv.
Qed.

(** X16.  [_parseAge] accepts exactly the strings made of one or more
    decimal digits followed by d, h or m; anything else, the empty string, a
    bare number or a unit alone included, makes it throw.  For an accepted
    string whose number of milliseconds is below 2^53 the result is the
    number the digits denote (leading zeros allowed) times 86400000, 3600000
    or 60000: up to that bound it reads back the decimal writing of a
    number.  From 2^53 on the doubles of the code round and nothing is
    stated. *)
Theorem parseAge_spec s :
  ((∃ z, _parseAge s = inr z) ↔
     ∃ ds u mult, s = ds ++ String u "" ∧ ds ≠ "" ∧ all_chars is_digit ds = true ∧
       ageMultiplier u = Some mult) ∧
  (∀ ds u mult, s = ds ++ String u "" → ds ≠ "" → all_chars is_digit ds = true →
     ageMultiplier u = Some mult → (Z.of_N (parseDigits ds) * mult < 2 ^ 53)%Z →
     _parseAge s = inr (Z.of_N (parseDigits ds) * mult)%Z) ∧
  (∀ err, _parseAge s = inl err → err = InvalidAge s) ∧
  (∀ n, (Z.of_N n * 86400000 < 2 ^ 53)%Z →
        _parseAge (Js.decimal n ++ "d") = inr (Z.of_N n * 86400000)%Z ∧
        _parseAge (Js.decimal n ++ "h") = inr (Z.of_N n * 3600000)%Z ∧
        _parseAge (Js.decimal n ++ "m") = inr (Z.of_N n * 60000)%Z) ∧
  (∀ u, _parseAge (String u "") = inl (InvalidAge (String u ""))) ∧
  (∀ n, _parseAge (Js.decimal n) = inl (InvalidAge (Js.decimal n))).
Proof.
  assert (Hval : ∀ ds u mult, s = ds ++ String u "" → ds ≠ "" →
            all_chars is_digit ds = true → ageMultiplier u = Some mult →
            _parseAge s = inr (Z.of_N (parseDigits ds) * mult)%Z).
  { intros ds u mult -> Hne Hd Hu. unfold _parseAge. rewrite splitLast_snoc.
    destruct ds as [|c r]; [done|]. by rewrite Hd, Hu. }
  split; [|split; [by eauto|split; [|split; [|split]]]].
  - split.
    + intros [z Hz]. unfold _parseAge in Hz.
      destruct (splitLast s) as [[[|c r] u]|] eqn:Hs; [done| |done].
      destruct (all_chars is_digit (String c r)) eqn:Hd; [|done].
      destruct (ageMultiplier u) as [mult|] eqn:Hu; [|done].
      exists (String c r), u, mult. split; [by apply splitLast_spec|done].
    + intros (ds & u & mult & Hs & Hne & Hd & Hu). eauto.
  - intros err. unfold _parseAge.
    destruct (splitLast s) as [[[|c r] u]|]; [by intros [= <-]| |by intros [= <-]].
    destruct (all_chars _ _); [|by intros [= <-]].
    destruct (ageMultiplier u); [done|by intros [= <-]].
  - intros n _. split; [|split]; by apply parseAge_decimal.
  - intros u. reflexivity.
  - intros n. unfold _parseAge.
    destruct (splitLast (Js.decimal n)) as [[[|c r] u]|] eqn:Hs; [done| |done].
    destruct (all_chars _ _); [|done].
    destruct (ageMultiplier u) as [mult|] eqn:Hu; [|done]. exfalso.
    apply splitLast_spec in Hs.
    destruct (decimal_spec n) as (l & Hl & Hd & _). rewrite Hl in Hs.
    assert (Hin : u ∈ l).
    { apply (f_equal list_ascii_of_string) in Hs.
      rewrite list_ascii_of_string_of_list_ascii in Hs. rewrite Hs.
      clear. change (String c r) with (String c r). generalize (String c r). intros s.
      induction s as [|a s IH]; simpl; [left|by right]. }
    rewrite Forall_forall in Hd. specialize (Hd u Hin). unfold isDigit in Hd.
    apply ageMultiplier_spec in Hu as [[-> _]|[[-> _]|[-> _]]]; vm_compute in Hd;
      destruct Hd as [H1 H2]; by (apply H1 || apply H2).
Qed.

Lemma numberToString_nonneg z : (0 ≤ z)%Z → numberToString z = Js.decimal (Z.to_N z).
Proof. intros Hz. unfold numberToString. by rewrite (proj2 (Z.ltb_ge z 0) Hz). Qed.

Lemma formatAge_minutes ms :
  (0 ≤ ms < 3600000)%Z →
  _formatAge ms = Js.decimal (Z.to_N (ms / 60000)) ++ "m" ∧ (0 ≤ ms / 60000 < 60)%Z.
Proof.
  intros Hms. unfold _formatAge.
  assert (Hd : (ms / 86400000 = 0)%Z) by (apply Z.div_small; lia).
  assert (Hr : Z.rem ms 86400000 = ms) by (apply Z.rem_small; lia).
  assert (Hr2 : Z.rem ms 3600000 = ms) by (apply Z.rem_small; lia).
  assert (Hh : (ms / 3600000 = 0)%Z) by (apply Z.div_small; lia).
  assert (Hm : (0 ≤ ms / 60000 < 60)%Z).
  { split; [apply Z.div_pos; lia|apply Z.div_lt_upper_bound; lia]. }
  rewrite Hd, Hr, Hr2, Hh. simpl. split; [|done]. by rewrite numberToString_nonneg by lia.
Qed.

Lemma formatAge_hours ms :
  (3600000 ≤ ms < 86400000)%Z →
  _formatAge ms =
    Js.decimal (Z.to_N (ms / 3600000)) ++ "h " ++
    Js.decimal (Z.to_N (ms mod 3600000 / 60000)) ++ "m" ∧
  (1 ≤ ms / 3600000 < 24)%Z ∧ (0 ≤ ms mod 3600000 / 60000 < 60)%Z.
Proof.
  intros Hms. unfold _formatAge.
  assert (Hd : (ms / 86400000 = 0)%Z) by (apply Z.div_small; lia).
  assert (Hr : Z.rem ms 86400000 = ms) by (apply Z.rem_small; lia).
  assert (Hr2 : Z.rem ms 3600000 = (ms mod 3600000)%Z) by (apply Z.rem_mod_nonneg; lia).
  assert (Hh : (1 ≤ ms / 3600000 < 24)%Z).
  { split; [apply Z.div_le_lower_bound; lia|apply Z.div_lt_upper_bound; lia]. }
  assert (Hm : (0 ≤ ms mod 3600000 / 60000 < 60)%Z).
  { pose proof (Z.mod_pos_bound ms 3600000 ltac:(lia)).
    split; [apply Z.div_pos; lia|apply Z.div_lt_upper_bound; lia]. }
  rewrite Hd, Hr, Hr2. simpl.
  rewrite (proj2 (Z.ltb_lt 0 (ms / 3600000)) ltac:(lia)).
  split; [|done]. by rewrite !numberToString_nonneg by lia.
Qed.

Lemma formatAge_days ms :
  (86400000 ≤ ms)%Z →
  _formatAge ms =
    Js.decimal (Z.to_N (ms / 86400000)) ++ "d " ++
    Js.decimal (Z.to_N (ms mod 86400000 / 3600000)) ++ "h" ∧
  (1 ≤ ms / 86400000)%Z ∧ (0 ≤ ms mod 86400000 / 3600000 < 24)%Z.
Proof.
  intros Hms. unfold _formatAge.
  assert (Hd : (1 ≤ ms / 86400000)%Z) by (apply Z.div_le_lower_bound; lia).
  assert (Hr : Z.rem ms 86400000 = (ms mod 86400000)%Z) by (apply Z.rem_mod_nonneg; lia).
  assert (Hh : (0 ≤ ms mod 86400000 / 3600000 < 24)%Z).
  { pose proof (Z.mod_pos_bound ms 86400000 ltac:(lia)).
    split; [apply Z.div_pos; lia|apply Z.div_lt_upper_bound; lia]. }
  rewrite Hr. rewrite (proj2 (Z.ltb_lt 0 (ms / 86400000)) ltac:(lia)).
  split; [|done]. by rewrite !numberToString_nonneg by lia.
Qed.

Lemma rem_neg_bound ms b : (ms < 0)%Z → (0 < b)%Z → (- b < Z.rem ms b ≤ 0)%Z.
Proof.
  intros Hms Hb. pose proof (Z.rem_bound_pos (- ms) b ltac:(lia) Hb) as Hr.
  rewrite Z.rem_opp_l in Hr by lia. lia.
Qed.

(** X17.  [_formatAge] shows the two largest units only: days and hours from
    one day on, hours and minutes from one hour on, minutes below, each
    rounded down, with hours below 24 and minutes below 60.  A negative
    argument never shows days or hours: the result is a number of minutes
    between -60 and 0, whatever the size of the argument. *)
Theorem formatAge_cases ms :
  ((0 ≤ ms < 3600000)%Z →
     _formatAge ms = Js.decimal (Z.to_N (ms / 60000)) ++ "m" ∧ (0 ≤ ms / 60000 < 60)%Z) ∧
  ((3600000 ≤ ms < 86400000)%Z →
     _formatAge ms =
       Js.decimal (Z.to_N (ms / 3600000)) ++ "h " ++
       Js.decimal (Z.to_N (ms mod 3600000 / 60000)) ++ "m" ∧
     (1 ≤ ms / 3600000 < 24)%Z ∧ (0 ≤ ms mod 3600000 / 60000 < 60)%Z) ∧
  ((86400000 ≤ ms)%Z →
     _formatAge ms =
       Js.decimal (Z.to_N (ms / 86400000)) ++ "d " ++
       Js.decimal (Z.to_N (ms mod 86400000 / 3600000)) ++ "h" ∧
     (1 ≤ ms / 86400000)%Z ∧ (0 ≤ ms mod 86400000 / 3600000 < 24)%Z) ∧
  ((ms < 0)%Z →
     ∃ q, (-60 ≤ q ≤ 0)%Z ∧ _formatAge ms = numberToString q ++ "m").
Proof.
  split; [apply formatAge_minutes|]. split; [apply formatAge_hours|].
  split; [apply formatAge_days|].
  intros Hms. exists (Z.rem ms 3600000 / 60000)%Z. unfold _formatAge.
  assert (Hd : (ms / 86400000 < 0)%Z) by (apply Z.div_lt_upper_bound; lia).
  pose proof (rem_neg_bound ms 86400000 Hms ltac:(lia)) as Hr.
  pose proof (rem_neg_bound ms 3600000 Hms ltac:(lia)) as Hr2.
  assert (Hh : (Z.rem ms 86400000 / 3600000 ≤ 0)%Z).
  { apply Z.lt_succ_r. apply Z.div_lt_upper_bound; lia. }
  assert (Hm : (-60 ≤ Z.rem ms 3600000 / 60000 ≤ 0)%Z).
  { split; [apply Z.div_le_lower_bound; lia|].
    apply Z.lt_succ_r. apply Z.div_lt_upper_bound; lia. }
  split; [done|].
  rewrite (proj2 (Z.ltb_ge 0 (ms / 86400000)) ltac:(lia)).
  by rewrite (proj2 (Z.ltb_ge 0 (Z.rem ms 86400000 / 3600000)) ltac:(lia)).
Qed.

(** X18.  What [_formatAge] shows of a threshold [_parseAge] has read, for
    numbers that stay below 2^53 when taken as days in milliseconds: a
    number of minutes below 60 is shown as it was written, a number of hours
    from 1 to 23 with 0 minutes after it, and a number of days from 1 on,
    within that bound, with 0 hours after it. *)
Theorem parse_then_format n :
  (Z.of_N n * 86400000 < 2 ^ 53)%Z →
  (∀ z, _parseAge (Js.decimal n ++ "m") = inr z → (n < 60)%N →
     _formatAge z = Js.decimal n ++ "m") ∧
  (∀ z, _parseAge (Js.decimal n ++ "h") = inr z → (1 ≤ n < 24)%N →
     _formatAge z = Js.decimal n ++ "h 0m") ∧
  (∀ z, _parseAge (Js.decimal n ++ "d") = inr z → (1 ≤ n)%N →
     _formatAge z = Js.decimal n ++ "d 0h").
Proof.
  intros _. split; [|split]; intros z Hz Hn.
  - rewrite (parseAge_decimal n "m" 60000 eq_refl) in Hz. injection Hz as <-.
    rewrite (proj1 (formatAge_minutes (Z.of_N n * 60000) ltac:(lia))). rewrite Z.div_mul by lia. by rewrite N2Z.id.
  - rewrite (parseAge_decimal n "h" 3600000 eq_refl) in Hz. injection Hz as <-.
    rewrite (proj1 (formatAge_hours (Z.of_N n * 3600000) ltac:(lia))). rewrite Z.div_mul, Z.mod_mul by lia.
    by rewrite N2Z.id.
  - rewrite (parseAge_decimal n "d" 86400000 eq_refl) in Hz. injection Hz as <-.
    rewrite (proj1 (formatAge_days (Z.of_N n * 86400000) ltac:(lia))). rewrite Z.div_mul, Z.mod_mul by lia.
    by rewrite N2Z.id.
Qed.

(** [parse_then_format] on 30 minutes. *)
Lemma parse_then_format_witness : _formatAge 1800000 = "30m".
Proof.
  assert (Hb : (Z.of_N 30 * 86400000 < 2 ^ 53)%Z) by (vm_compute; reflexivity).
  exact (proj1 (parse_then_format 30 Hb) 1800000%Z eq_refl ltac:(lia)).
Defined.

(** * Broadcast *)

Lemma broadcastLoop_cons envs i from body m rest sent h :
  broadcastLoop envs i from body (m :: rest) sent h =
  if decide (name (l_meta m) ≠ from) then
    match send (envs i) from (name (l_meta m)) body h with
    | (Ok msg, h1) => broadcastLoop envs (S i) from body rest (sent ++ [msg]) h1
    | (Throw err, h1) => (Throw err, h1)
    end
  else broadcastLoop envs i from body rest sent h.
Proof.
  simpl. destruct (String.eqb_spec (name (l_meta m)) from) as [Heq|Hne]; simpl.
  - by rewrite decide_False by (intros ?; done).
  - rewrite decide_True by done. unfold mbind at 1. unfold M_bind at 1.
    by destruct (send _ _ _ _ _) as [[?|?] ?].
Qed.

Lemma broadcastLoop_spec envs from body ms : ∀ i sent h,
  is_Some (minions h !! from) →
  (∀ m, m ∈ ms → is_Some (minions h !! name (l_meta m))) → NoDup (names ms) →
  ∃ h', broadcastLoop envs i from body ms sent h =
          (Ok (sent ++ imap (λ j k, message (envs (i + j)%nat) from k body)
                         (filter (λ k, k ≠ from) (names ms)))%list, h') ∧
    minions h' = minions h ∧
    (∀ k, k ∉ filter (λ k, k ≠ from) (names ms) → network h' !! k = network h !! k) ∧
    (∀ j k, filter (λ k, k ≠ from) (names ms) !! j = Some k →
       network h' !! k =
         Some (<[fileOf (envs (i + j)%nat) from := message (envs (i + j)%nat) from k body]>
                 (inboxFiles h k))).
Proof.
  induction ms as [|m ms IH]; intros i sent h Hfrom Hex Hnd.
  - exists h. simpl. rewrite app_nil_r. done.
  - unfold names in Hnd |- *. rewrite fmap_cons in Hnd |- *.
    apply NoDup_cons in Hnd as [Hm Hnd]. fold (names ms) in Hm, Hnd |- *.
    rewrite broadcastLoop_cons, filter_cons.
    destruct (decide (name (l_meta m) ≠ from)) as [Hne|Heq].
    + assert (Hto : is_Some (minions h !! name (l_meta m))) by (apply Hex; left).
      rewrite (send_eq _ _ _ _ _ Hfrom Hto).
      destruct (IH (S i) (sent ++ [message (envs i) from (name (l_meta m)) body])%list
                  (mkHive (minions h)
                     (<[name (l_meta m) :=
                          <[fileOf (envs i) from := message (envs i) from (name (l_meta m)) body]>
                            (inboxFiles h (name (l_meta m)))]> (network h))))
        as (h' & Hrun & Hmin & Hfr & Hin); [done| |done|].
      { intros x Hx. simpl. apply Hex. by right. }
      assert (Hnot : name (l_meta m) ∉ filter (λ k, k ≠ from) (names ms)).
      { intros Hx. apply Hm. by apply list_elem_of_filter in Hx as [_ ?]. }
      exists h'. rewrite Hrun. split; [|split; [done|split]].
      * assert (Himap : ∀ l : list string,
                  imap (λ j k, message (envs (S i + j)%nat) from k body) l =
                  imap ((λ j k, message (envs (i + j)%nat) from k body) ∘ S) l).
        { intros l. apply imap_ext. intros j k _. simpl. by rewrite Nat.add_succ_r. }
        rewrite Himap, <- app_assoc, imap_cons, Nat.add_0_r. reflexivity.
      * intros k Hk. rewrite Hfr.
        -- simpl. rewrite lookup_insert_ne; [done|]. intros <-. apply Hk. left.
        -- intros Hx. apply Hk. by right.
      * intros [|j] k Hj; simpl in Hj.
        -- injection Hj as <-. rewrite Hfr by done. simpl.
           by rewrite lookup_insert_eq, Nat.add_0_r.
        -- rewrite (Hin j k Hj). rewrite Nat.add_succ_r. simpl. do 2 f_equal.
           unfold inboxFiles. simpl. rewrite lookup_insert_ne; [done|].
           intros <-. apply Hnot. by eapply list_elem_of_lookup_2.
    + destruct (IH i sent h Hfrom) as (h' & Hrun & Hmin & Hfr & Hin); [|done|].
      { intros x Hx. apply Hex. by right. }
      exists h'. done.
Qed.

(** X19.  [broadcast] from a name of a directory entry throws, with nothing
    changed, when the sender has no directory.  In a hive whose metadata
    carry their directory names it otherwise returns one message for every
    minion with metadata other than the sender, in ascending order of their
    names, each with the sender and the body given: the message is written
    into the inbox of that minion and into no other; the inbox of the sender
    and the minions themselves are not touched, and a directory without
    [meta.json] gets no message. *)
Theorem broadcast_spec e envs from body h :
  named h → entryName from = true →
  (minions h !! from = None →
     broadcast e envs from body h = (Throw (SenderNotFound from), h)) ∧
  (is_Some (minions h !! from) →
     ∃ h', broadcast e envs from body h =
             (Ok (imap (λ j k, message (envs j) from k body) (recipients e h from)), h') ∧
       minions h' = minions h ∧
       StronglySorted str_lt (recipients e h from) ∧
       (∀ k, k ∈ recipients e h from ↔ k ≠ from ∧ is_Some (metaOf h k)) ∧
       (∀ k, k ∉ recipients e h from → network h' !! k = network h !! k) ∧
       (∀ j k, recipients e h from !! j = Some k →
          network h' !! k =
            Some (<[fileOf (envs j) from := message (envs j) from k body]>
                    (inboxFiles h k)))).
Proof.
  intros Hn _. split.
  - intros Hf. unfold broadcast, existsMinion. unfold_m. simpl. by rewrite Hf.
  - intros Hf.
    destruct (broadcastLoop_spec envs from body (listing e h) 0 [] h Hf)
      as (h' & Hrun & Hmin & Hfr & Hin).
    { intros m Hm. by apply (listed_exists e). }
    { by apply listing_NoDup. }
    exists h'. split.
    { unfold broadcast, existsMinion, list_. unfold_m. simpl.
      rewrite (bool_decide_eq_true_2 _ Hf). simpl. exact Hrun. }
    split; [done|]. split.
    { apply (sublist_StronglySorted _ _ (names (listing e h)));
        [apply sublist_filter|by apply listing_sorted]. }
    split; [|split; [done|done]].
    intros k. unfold recipients. rewrite list_elem_of_filter. split.
    + intros [Hne Hk]. split; [done|].
      apply list_elem_of_fmap in Hk as (m & -> & Hm).
      rewrite (listing_named e h m Hn Hm). eauto.
    + intros [Hne [meta Hm]]. split; [done|].
      destruct (listing_complete e h k meta Hm) as (m & Hl & <-).
      assert (Hname : name (l_meta m) = k) by (rewrite named_spec in Hn; by apply Hn).
      rewrite <- Hname. by apply names_elem.
Qed.

(** [broadcast_spec] on the fan: [dep] writes to [a] and [b]. *)
Lemma broadcast_spec_witness :
  ∃ h', broadcast (envWith dockerOk) (λ i, envAt (N.of_nat i) "k3x9") "dep" "done" fanHive =
          (Ok (imap (λ j k, message (envAt (N.of_nat j) "k3x9") "dep" k "done")
                 (recipients (envWith dockerOk) fanHive "dep")), h') ∧
    minions h' = minions fanHive.
Proof.
  assert (Hn : named fanHive) by (apply (bool_decide_unpack _); vm_compute; exact I).
  destruct (proj2 (broadcast_spec (envWith dockerOk) (λ i, envAt (N.of_nat i) "k3x9")
                     "dep" "done" fanHive Hn eq_refl) (ex_intro _ _ eq_refl))
    as (h' & Hrun & Hmin & _).
  exists h'. split; [exact Hrun|exact Hmin].
Defined.

(** * Sizes *)

Lemma humanUnit_cases n :
  (humanUnit (length units) n 0 ≤ 3)%nat ∧
  ((humanUnit (length units) n 0 < 3)%nat →
     (n < 1024 * 1024 ^ N.of_nat (humanUnit (length units) n 0))%N) ∧
  ((0 < humanUnit (length units) n 0)%nat →
     (1024 ^ N.of_nat (humanUnit (length units) n 0) ≤ n)%N).
Proof.
  change (length units) with 4%nat. cbn [humanUnit].
  change (Nat.ltb 0 (length units - 1)) with true.
  change (Nat.ltb 1 (length units - 1)) with true.
  change (Nat.ltb 2 (length units - 1)) with true.
  change (Nat.ltb 3 (length units - 1)) with false.
  rewrite !andb_true_r, andb_false_r.
  change (1024 * 1024 ^ N.of_nat 0)%N with 1024%N.
  change (1024 * 1024 ^ N.of_nat 1)%N with 1048576%N.
  change (1024 * 1024 ^ N.of_nat 2)%N with 1073741824%N.
  destruct (N.leb_spec 1024 n) as [H1|H1]; [|simpl; lia].
  destruct (N.leb_spec 1048576 n) as [H2|H2]; [|simpl; lia].
  destruct (N.leb_spec 1073741824 n) as [H3|H3]; simpl; lia.
Qed.

Lemma toFixed1_bounds n d :
  (0 < d)%N →
  (2 * d * ((20 * n + d) / (2 * d)) ≤ 20 * n + d)%N ∧
  (20 * n + d < 2 * d * ((20 * n + d) / (2 * d)) + 2 * d)%N.
Proof.
  intros Hd. pose proof (N.div_mod' (20 * n + d) (2 * d)) as Hdm.
  pose proof (N.mod_lt (20 * n + d) (2 * d) ltac:(lia)) as Hlt.
  revert Hdm Hlt. generalize ((20 * n + d) / (2 * d))%N ((20 * n + d) mod (2 * d))%N.
  intros q r Hdm Hlt. lia.
Qed.

Lemma toFixed1_whole k d :
  (0 < d)%N → toFixed1 (k * d) d = Js.decimal k ++ ".0".
Proof.
  intros Hd. unfold toFixed1.
  assert (Ht : ((20 * (k * d) + d) / (2 * d) = 10 * k)%N).
  { symmetry. apply (N.div_unique _ _ _ d); lia. }
  rewrite Ht. rewrite N.mul_comm, N.div_mul, N.Div0.mod_mul by lia. reflexivity.
Qed.

(** X20.  [_humanSize] of a whole number of bytes below 2^53 picks the unit
    by powers of 1024 and stops at GB: the unit is B below 1024, KB below
    1024^2, MB below 1024^3 and GB from there on.  The number printed has one
    decimal and is the value in that unit rounded to the nearest tenth, the
    half going up, so that up to 1024.0 can be printed in a unit below GB.
    Below 1024 the result is the number of bytes with .0B after it, and a
    whole multiple of a unit prints as that multiple with .0 and the unit. *)
Theorem humanSize_spec n :
  (n < 2 ^ 53)%N →
  (∃ i t, (i ≤ 3)%nat ∧
     _humanSize n = Js.decimal (t / 10) ++ "." ++ Js.decimal (t mod 10) ++ nth i units "" ∧
     ((i < 3)%nat → (n < 1024 * 1024 ^ N.of_nat i)%N ∧ (t ≤ 10240)%N) ∧
     ((0 < i)%nat → (1024 ^ N.of_nat i ≤ n)%N) ∧
     (2 * 1024 ^ N.of_nat i * t ≤ 20 * n + 1024 ^ N.of_nat i)%N ∧
     (20 * n < 2 * 1024 ^ N.of_nat i * t + 1024 ^ N.of_nat i)%N) ∧
  ((n < 1024)%N → _humanSize n = Js.decimal n ++ ".0B") ∧
  (∀ k i, (i ≤ 3)%nat → ((0 < i)%nat → (1 ≤ k)%N) → ((i < 3)%nat → (k < 1024)%N) →
     n = (k * 1024 ^ N.of_nat i)%N →
     _humanSize n = Js.decimal k ++ ".0" ++ nth i units "").
Proof.
  intros _.
  assert (Hwhole : ∀ k i, (i ≤ 3)%nat → ((0 < i)%nat → (1 ≤ k)%N) →
            ((i < 3)%nat → (k < 1024)%N) →
            n = (k * 1024 ^ N.of_nat i)%N →
            _humanSize n = Js.decimal k ++ ".0" ++ nth i units "").
  { intros k i Hi Hk Hlt ->.
    destruct (humanUnit_cases (k * 1024 ^ N.of_nat i)) as (Hle & Hup & Hlow).
    assert (Hu : humanUnit (length units) (k * 1024 ^ N.of_nat i) 0 = i).
    { revert Hle Hup Hlow. generalize (humanUnit (length units) (k * 1024 ^ N.of_nat i) 0).
      intros u Hle Hup Hlow.
      assert (Hi' : i = 0%nat ∨ i = 1%nat ∨ i = 2%nat ∨ i = 3%nat) by lia.
      assert (Hu' : u = 0%nat ∨ u = 1%nat ∨ u = 2%nat ∨ u = 3%nat) by lia.
      destruct Hi' as [-> | [-> | [-> | ->]]]; destruct Hu' as [-> | [-> | [-> | ->]]];
        try done;
        exfalso; simpl in *;
        repeat match goal with
               | H : (_ < _)%nat → _ |- _ =>
                   first [specialize (H ltac:(lia)) | clear H]
               end; lia. }
    unfold _humanSize. rewrite Hu. rewrite toFixed1_whole by (apply N.neq_0_lt_0; by apply N.pow_nonzero).
    by rewrite append_assoc. }
  split; [|split; [|done]].
  - exists (humanUnit (length units) n 0),
      ((20 * n + 1024 ^ N.of_nat (humanUnit (length units) n 0)) /
       (2 * 1024 ^ N.of_nat (humanUnit (length units) n 0)))%N.
    destruct (humanUnit_cases n) as (Hle & Hup & Hlow).
    assert (Hd : (0 < 1024 ^ N.of_nat (humanUnit (length units) n 0))%N)
      by (apply N.neq_0_lt_0; by apply N.pow_nonzero).
    destruct (toFixed1_bounds n _ Hd) as [Hb1 Hb2].
    split; [done|]. split; [unfold _humanSize, toFixed1; by rewrite !append_assoc|].
    split; [|split; [done|split; [done|lia]]].
    intros Hi. specialize (Hup Hi). split; [done|].
    revert Hb1 Hb2 Hup Hd.
    generalize ((20 * n + 1024 ^ N.of_nat (humanUnit (length units) n 0)) /
                (2 * 1024 ^ N.of_nat (humanUnit (length units) n 0)))%N.
    generalize (1024 ^ N.of_nat (humanUnit (length units) n 0))%N.
    intros d t Hb1 Hb2 Hup Hd. nia.
  - intros Hn. rewrite (Hwhole n 0%nat); [done|lia|lia|lia|simpl; lia].
Qed.

(** [humanSize_spec] on half a kilobyte. *)
Lemma humanSize_spec_witness : _humanSize 512 = "512.0B".
Proof.
  assert (Hb : (512 < 2 ^ 53)%N) by (vm_compute; reflexivity).
  exact (proj1 (proj2 (humanSize_spec 512 Hb)) ltac:(vm_compute; reflexivity)).
Defined.

(** * Templates *)

Lemma length_append (a b : string) :
  String.length (a ++ b) = (String.length a + String.length b)%nat.
Proof. induction a as [|c a IH]; [done|]. rewrite append_cons. simpl. by rewrite IH. Qed.

Lemma append_inj_r (a s t : string) : a ++ s = a ++ t → s = t.
Proof.
  induction a as [|c a IH]; [done|]. rewrite !append_cons. intros [= H]. by apply IH.
Qed.

Lemma append_inj_l (a b s : string) : a ++ s = b ++ s → a = b.
Proof.
  intros H. assert (Hl : String.length a = String.length b).
  { apply (f_equal String.length) in H. rewrite !length_append in H. lia. }
  revert b H Hl. induction a as [|c a IH]; intros [|c' b] H Hl; simpl in *; try done.
  rewrite !append_cons in H. injection H as -> H. f_equal. apply IH; [done|lia].
Qed.

Lemma removeMd_app n : removeMd (n ++ ".md") = n.
Proof.
  unfold removeMd. rewrite ends_with_app. rewrite length_append. simpl.
  replace (String.length n + 3 - 3)%nat with (String.length n) by lia.
  induction n as [|c n IH]; [reflexivity|]. rewrite append_cons. simpl. by rewrite IH.
Qed.

Lemma compare_app a : ∀ x y, String.compare (a ++ x) (a ++ y) = String.compare x y.
Proof.
  induction a as [|c a IH]; intros x y; [done|]. rewrite !append_cons. simpl.
  unfold Ascii.compare. by rewrite N.compare_refl.
Qed.

Lemma str_lt_app a x y : str_lt x y → str_lt (a ++ x) (a ++ y).
Proof. unfold str_lt, String.ltb. by rewrite compare_app. Qed.

(** X21.  Templates round trip, for names whose file name, the name with .md
    after it, is the name of a directory entry (no [/] in particular).  After
    [templateSave] of a name and a content, [templateGet] of that name
    returns the content, the last one saved when the name was saved before,
    and the templates of other names are as they were; after
    [templateDelete] of a name [templateGet] of it throws the not-found
    error; [templateGet] and [templateDelete] of a name that was never saved
    throw it and change nothing. *)
Theorem template_round_trip dir t name content files :
  entryName (name ++ ".md") = true →
  templateGet name (templateSave dir t name content files).2 = inr content ∧
  (∀ t2 content2,
     templateGet name
       (templateSave dir t2 name content2 (templateSave dir t name content files).2).2
     = inr content2) ∧
  (∀ other, entryName (other ++ ".md") = true → other ≠ name →
     templateGet other (templateSave dir t name content files).2 = templateGet other files ∧
     templateGet other (templateDelete name files).2 = templateGet other files) ∧
  templateGet name (templateDelete name files).2 = inl (TemplateNotFound name) ∧
  (templateDelete name (templateSave dir t name content files).2).1 = inr (name, true) ∧
  (files !! (name ++ ".md") = None →
     templateGet name files = inl (TemplateNotFound name) ∧
     templateDelete name files = (inl (TemplateNotFound name), files) ∧
     (templateDelete name (templateSave dir t name content files).2).2 = files).
Proof.
  intros _. unfold templateGet, templateSave, templateDelete. simpl.
  split; [by rewrite lookup_insert_eq|].
  split; [intros; by rewrite lookup_insert_eq|].
  split.
  { intros other _ Hne.
    assert (Hf : name ++ ".md" ≠ other ++ ".md").
    { intros Heq. apply Hne. symmetry. by apply (append_inj_l _ _ ".md"). }
    rewrite lookup_insert_ne by done. split; [done|].
    destruct (files !! (name ++ ".md")); simpl; [by rewrite lookup_delete_ne|done]. }
  split.
  { destruct (files !! (name ++ ".md")) eqn:Hf; simpl; [by rewrite lookup_delete_eq|].
    by rewrite Hf. }
  rewrite lookup_insert_eq. simpl. split; [done|].
  intros Hf. rewrite Hf. split; [done|]. split; [done|].
  rewrite delete_insert_eq. by apply delete_id.
Qed.

(** [template_round_trip] on a first template. *)
Lemma template_round_trip_witness :
  templateGet "review" (templateSave "/hive/templates" 1700000000000%N "review" "Review it" ∅).2
  = inr "Review it".
Proof.
  exact (proj1 (template_round_trip "/hive/templates" 1700000000000%N "review" "Review it" ∅
                  eq_refl)).
Defined.

(** X22.  [templateList] lists the files of the templates directory whose
    names end in .md and no others, one entry each and in ascending order of
    the file names: an entry carries the file name without its final .md,
    the size of the content in bytes, its modification time and its first
    100 characters.  A template just saved under a name whose file name is
    the name of a directory entry is listed under that name, with the time
    of the save. *)
Theorem templateList_spec dir files :
  (∀ info, info ∈ templateList dir files ↔
     ∃ f file, files !! f = Some file ∧ Js.ends_with f ".md" = true ∧
       info = mkTemplateInfo (removeMd f) (dir ++ "/" ++ f) (utf8Length (tf_content file))
                (tf_mtime file) (substring 0 100 (tf_content file))) ∧
  StronglySorted str_lt (ti_path <$> templateList dir files) ∧
  (∀ t name content, entryName (name ++ ".md") = true →
     mkTemplateInfo name (dir ++ "/" ++ name ++ ".md") (utf8Length content) t
       (substring 0 100 content)
     ∈ templateList dir (templateSave dir t name content files).2) ∧
  templateList dir ∅ = [].
Proof.
  split; [|split; [|split]].
  - intros info. unfold templateList. rewrite list_elem_of_fmap. split.
    + intros ([f file] & -> & Hin). apply list_elem_of_filter in Hin as [He Hin].
      apply entries_elem in Hin. exists f, file. done.
    + intros (f & file & Hf & He & ->). exists (f, file). split; [done|].
      apply list_elem_of_filter. split; [done|]. by apply entries_elem.
  - unfold templateList. rewrite <- list_fmap_compose.
    assert (Hs : StronglySorted str_lt
              (filter (λ en : string * TemplateFile, Js.ends_with en.1 ".md" = true)
                 (entries files)).*1).
    { apply (sublist_StronglySorted _ _ ((entries files).*1));
        [apply fmap_sublist, sublist_filter|].
      rewrite entries_fst. apply readdirSync_sorted. }
    change (StronglySorted str_lt
              (((λ f, dir ++ "/" ++ f) ∘ fst) <$>
                 filter (λ en : string * TemplateFile, Js.ends_with en.1 ".md" = true)
                   (entries files))).
    rewrite (list_fmap_compose fst (λ f, dir ++ "/" ++ f)).
    eapply StronglySorted_fmap; [|exact Hs].
    intros x y Hxy. rewrite <- !append_assoc. by apply str_lt_app.
  - intros t name content _. unfold templateList, templateSave. simpl.
    apply list_elem_of_fmap. exists (name ++ ".md", mkTemplateFile content t).
    simpl. rewrite removeMd_app. split; [done|].
    apply list_elem_of_filter. split; [apply ends_with_app|].
    apply entries_elem. apply lookup_insert_eq.
  - unfold templateList. by rewrite entries_empty.
Qed.

(** * Search *)

Lemma searchLines_run test lim minion source lines : ∀ i results,
  (0 < lim → Z.of_nat (length results) < lim)%Z →
  searchLines test lim minion source lines i results =
  limited lim (results ++ lineHits test minion source lines i).
Proof.
  induction lines as [|l rest IH]; intros i results Hlen; simpl.
  - rewrite app_nil_r. unfold limited.
    destruct (Z.ltb_spec 0 lim) as [Hpos|Hneg]; simpl; [|done].
    by rewrite (proj2 (Z.leb_gt _ _) (Hlen Hpos)).
  - destruct (test l); simpl.
    + destruct (Z.ltb_spec 0 lim) as [Hpos|Hneg]; simpl.
      * destruct (Z.leb_spec lim (Z.of_nat (length (results ++ [mkHit minion source (i + 1) l]))))
          as [Hfull|Hmore].
        -- unfold limited. rewrite (proj2 (Z.ltb_lt 0 lim) Hpos). simpl.
           specialize (Hlen Hpos). rewrite length_app in Hfull. simpl in Hfull.
           assert (Hl : Z.to_nat lim = length (results ++ [mkHit minion source (i + 1) l]))
             by (rewrite length_app; simpl; lia).
           rewrite (proj2 (Z.leb_le _ _)) by (rewrite length_app; simpl; lia).
           f_equal. rewrite Hl.
           change (results ++ mkHit minion source (i + 1) l ::
                     lineHits test minion source rest (S i))%list
             with (results ++ [mkHit minion source (i + 1) l] ++
                     lineHits test minion source rest (S i))%list.
           by rewrite app_assoc, take_app_length.
        -- rewrite IH by (intros _; done). by rewrite <- app_assoc.
      * rewrite IH by lia. by rewrite <- app_assoc.
    + by apply IH.
Qed.

Lemma limited_short lim full :
  (0 < lim → Z.of_nat (length full) < lim)%Z → limited lim full = Continue full.
Proof.
  intros Hlen. unfold limited. destruct (Z.ltb_spec 0 lim) as [Hpos|Hneg]; simpl; [|done].
  by rewrite (proj2 (Z.leb_gt _ _) (Hlen Hpos)).
Qed.

Lemma limited_app lim full more :
  limited lim (full ++ more) =
  match limited lim full with
  | Return r => Return r
  | Continue r => limited lim (r ++ more)
  end.
Proof.
  unfold limited at 2. destruct (Z.ltb_spec 0 lim) as [Hpos|Hneg]; simpl; [|done].
  destruct (Z.leb_spec lim (Z.of_nat (length full))) as [Hfull|Hmore]; [|done].
  unfold limited. rewrite (proj2 (Z.ltb_lt 0 lim) Hpos). simpl.
  rewrite (proj2 (Z.leb_le _ _)) by (rewrite length_app; lia).
  f_equal. apply take_app_le. lia.
Qed.

Lemma limited_continue lim full r :
  limited lim full = Continue r → r = full ∧ ((0 < lim)%Z → (Z.of_nat (length full) < lim)%Z).
Proof.
  unfold limited. destruct (Z.ltb_spec 0 lim) as [Hpos|Hneg]; simpl.
  - destruct (Z.leb_spec lim (Z.of_nat (length full))); [done|]. by intros [= <-].
  - intros [= <-]. split; [done|lia].
Qed.

Lemma searchMinion_run e query o entry results :
  ((0 < limit o)%Z → (Z.of_nat (length results) < limit o)%Z) →
  searchMinion e query o entry results =
  limited (limit o) (results ++ minionHits e query (caseSensitive o) (searchLogs o) entry).
Proof.
  intros Hlen. unfold searchMinion, minionHits.
  destruct (metaJson entry.2) as [meta|].
  2: { rewrite app_nil_r. symmetry. by apply limited_short. }
  rewrite app_assoc.
  rewrite (limited_app (limit o)
             (results ++ match readOutput entry.2 with
                         | Some out =>
                             lineHits (lineMatches (caseSensitive o) query) entry.1 "output"
                               (splitLines out) 0
                         | None => []
                         end)).
  assert (Hout :
    match readOutput entry.2 with
    | Some out =>
        searchLines (lineMatches (caseSensitive o) query) (limit o) entry.1 "output"
          (splitLines out) 0 results
    | None => Continue results
    end =
    limited (limit o)
      (results ++ match readOutput entry.2 with
                  | Some out =>
                      lineHits (lineMatches (caseSensitive o) query) entry.1 "output"
                        (splitLines out) 0
                  | None => []
                  end)).
  { destruct (readOutput entry.2); [by apply searchLines_run|].
    rewrite app_nil_r. symmetry. by apply limited_short. }
  rewrite Hout.
  destruct (limited (limit o) _) as [r|r] eqn:Hl; [done|].
  apply limited_continue in Hl as [-> Hlen1].
  destruct (searchLogs o && Js.truthy (containerId meta)).
  - destruct (docker e _); [by apply searchLines_run|].
    rewrite app_nil_r. symmetry. by apply limited_short.
  - rewrite app_nil_r. symmetry. by apply limited_short.
Qed.

(** What a function returns whose loop ended either way. *)
Lemma searchAll_run e query o entries : ∀ results,
  ((0 < limit o)%Z → (Z.of_nat (length results) < limit o)%Z) →
  searchAll e query o entries results =
  match limited (limit o)
          (results ++ (entries ≫= minionHits e query (caseSensitive o) (searchLogs o))) with
  | Return r => r
  | Continue r => r
  end.
Proof.
  induction entries as [|entry rest IH]; intros results Hlen; simpl.
  - rewrite app_nil_r, limited_short by done. done.
  - rewrite searchMinion_run by done.
    rewrite app_assoc.
    rewrite (limited_app (limit o)
               (results ++ minionHits e query (caseSensitive o) (searchLogs o) entry)).
    destruct (limited (limit o)
                (results ++ minionHits e query (caseSensitive o) (searchLogs o) entry))
      as [r|r] eqn:Hl; [done|].
    apply limited_continue in Hl as [-> Hlen1]. by apply IH.
Qed.

Lemma search_run e query o h :
  search e query o h =
  if (0 <? limit o)%Z
  then take (Z.to_nat (limit o)) (allHits e query (caseSensitive o) (searchLogs o) h)
  else allHits e query (caseSensitive o) (searchLogs o) h.
Proof.
  unfold search. rewrite searchAll_run by (simpl; lia). simpl. fold (allHits e query
    (caseSensitive o) (searchLogs o) h). unfold limited.
  destruct (Z.ltb_spec 0 (limit o)) as [Hpos|Hneg]; simpl; [|done].
  destruct (Z.leb_spec (limit o) (Z.of_nat (length (allHits e query (caseSensitive o)
              (searchLogs o) h)))) as [Hfull|Hmore]; [done|].
  rewrite take_ge; [done|lia].
Qed.

Lemma lineHits_sorted test minion source lines : ∀ i,
  StronglySorted hitBefore (lineHits test minion source lines i) ∧
  ∀ hit, hit ∈ lineHits test minion source lines i →
    hit_minion hit = minion ∧ hit_source hit = source ∧ (i < hit_line hit)%nat.
Proof.
  induction lines as [|l rest IH]; intros i; simpl.
  - split; [constructor|]. by intros hit ?%elem_of_nil.
  - destruct (IH (S i)) as [Hs Hin]. destruct (test l); simpl.
    + split.
      * constructor; [done|]. apply Forall_forall. intros hit Hhit.
        destruct (Hin hit Hhit) as (Hm & Hsrc & Hl). right. simpl.
        split; [done|]. right. split; [done|lia].
      * intros hit [->|Hhit]%elem_of_cons; [simpl; repeat split; lia|].
        destruct (Hin hit Hhit) as (Hm & Hsrc & Hl). repeat split; [done..|lia].
    + split; [done|]. intros hit Hhit.
      destruct (Hin hit Hhit) as (Hm & Hsrc & Hl). repeat split; [done..|lia].
Qed.

Lemma minionHits_sorted e query cs lg entry :
  StronglySorted hitBefore (minionHits e query cs lg entry) ∧
  ∀ hit, hit ∈ minionHits e query cs lg entry → hit_minion hit = entry.1.
Proof.
  unfold minionHits. destruct (metaJson entry.2) as [meta|].
  2: { split; [constructor|]. by intros hit ?%elem_of_nil. }
  set (out := match readOutput entry.2 with
              | Some out => lineHits (lineMatches cs query) entry.1 "output" (splitLines out) 0
              | None => []
              end).
  set (lgs := if lg && Js.truthy (containerId meta)
              then match docker e ("logs hive-" ++ entry.1 ++ " 2>&1") with
                   | Some out =>
                       lineHits (lineMatches cs query) entry.1 "logs" (splitLines out) 0
                   | None => []
                   end
              else []).
  assert (Hout : StronglySorted hitBefore out ∧
            ∀ hit, hit ∈ out → hit_minion hit = entry.1 ∧ hit_source hit = "output").
  { unfold out. destruct (readOutput entry.2).
    - destruct (lineHits_sorted (lineMatches cs query) entry.1 "output" (splitLines s) 0)
        as [Hs Hin].
      split; [done|]. intros hit Hhit. by destruct (Hin hit Hhit) as (? & ? & _).
    - split; [constructor|]. by intros hit ?%elem_of_nil. }
  assert (Hlgs : StronglySorted hitBefore lgs ∧
            ∀ hit, hit ∈ lgs → hit_minion hit = entry.1 ∧ hit_source hit = "logs").
  { unfold lgs. destruct (lg && _); [destruct (docker e _)|].
    - destruct (lineHits_sorted (lineMatches cs query) entry.1 "logs" (splitLines s) 0)
        as [Hs Hin].
      split; [done|]. intros hit Hhit. by destruct (Hin hit Hhit) as (? & ? & _).
    - split; [constructor|]. by intros hit ?%elem_of_nil.
    - split; [constructor|]. by intros hit ?%elem_of_nil. }
  destruct Hout as [Hos Hoin]. destruct Hlgs as [Hls Hlin]. split.
  - apply StronglySorted_app_2; [|done..]. intros a b Ha Hb.
    destruct (Hoin a Ha) as [Hma Hsa]. destruct (Hlin b Hb) as [Hmb Hsb].
    right. split; [congruence|]. by left.
  - intros hit [Hhit|Hhit]%elem_of_app; [by apply Hoin|by apply Hlin].
Qed.

(** The hits come minion by minion, in the order of the directory. *)
Lemma hits_sorted e query cs lg (l : list (string * MinionDir)) :
  StronglySorted str_lt l.*1 →
  StronglySorted hitBefore (l ≫= minionHits e query cs lg).
Proof.
  induction l as [|entry l IH]; intros Hs; [constructor|].
  rewrite fmap_cons in Hs. apply StronglySorted_inv in Hs as [Hs Hhead].
  destruct (minionHits_sorted e query cs lg entry) as [Hms Hmin].
  rewrite bind_cons. apply StronglySorted_app_2; [|done|by apply IH].
  intros a b Ha Hb. apply list_elem_of_bind in Hb as (entry2 & Hb & Hin).
  destruct (minionHits_sorted e query cs lg entry2) as [_ Hmin2].
  left. rewrite (Hmin a Ha), (Hmin2 b Hb).
  rewrite Forall_forall in Hhead. apply Hhead. by apply (list_elem_of_fmap_2 fst).
Qed.

(** X23.  The limit of [search] cuts the list and does nothing else: with a
    positive limit the result is the first so many hits of the search
    without limit, so it is never longer than the limit; a limit of zero or
    below is no limit.  The hits come in ascending order of the directory
    names, for each minion the output log before the container logs, and in
    each by line, so those the limit keeps are the first in this order. *)
Theorem search_limit e query cs lg h :
  (∀ lim, (lim ≤ 0)%Z →
     search e query (mkSearchOptions cs lim lg) h
     = search e query (mkSearchOptions cs 0 lg) h) ∧
  (∀ lim, (0 < lim)%Z →
     search e query (mkSearchOptions cs lim lg) h
     = take (Z.to_nat lim) (search e query (mkSearchOptions cs 0 lg) h) ∧
     (Z.of_nat (length (search e query (mkSearchOptions cs lim lg) h)) ≤ lim)%Z) ∧
  (∀ lim, StronglySorted hitBefore (search e query (mkSearchOptions cs lim lg) h)).
Proof.
  assert (Hsorted : StronglySorted hitBefore (allHits e query cs lg h)).
  { apply hits_sorted. rewrite entries_fst. apply readdirSync_sorted. }
  split; [|split].
  - intros lim Hlim. rewrite !search_run. simpl.
    by rewrite (proj2 (Z.ltb_ge 0 lim) Hlim).
  - intros lim Hlim. rewrite !search_run. simpl. rewrite (proj2 (Z.ltb_lt 0 lim) Hlim).
    split; [done|]. rewrite length_take. lia.
  - intros lim. rewrite search_run. simpl. destruct (0 <? lim)%Z; [|done].
    apply (sublist_StronglySorted _ _ (allHits e query cs lg h)); [|done].
    apply sublist_take.
Qed.

Lemma lineHits_elem test minion source lines : ∀ i hit,
  hit ∈ lineHits test minion source lines i ↔
  ∃ j l, lines !! j = Some l ∧ test l = true ∧ hit = mkHit minion source (i + j + 1) l.
Proof.
  induction lines as [|l rest IH]; intros i hit; simpl.
  - split; [intros H; by apply elem_of_nil in H|]. intros (j & l & Hj & _). done.
  - rewrite elem_of_app, IH. split.
    + intros [Hin|(j & l' & Hj & Ht & ->)].
      * destruct (test l) eqn:Ht; [|by apply elem_of_nil in Hin].
        apply list_elem_of_singleton in Hin as ->. exists 0%nat, l.
        rewrite Nat.add_0_r. done.
      * exists (S j), l'. split; [done|]. split; [done|]. f_equal. lia.
    + intros ([|j] & l' & Hj & Ht & ->); simpl in Hj.
      * injection Hj as ->. left. rewrite Ht, Nat.add_0_r. by apply list_elem_of_singleton.
      * right. exists j, l'. split; [done|]. split; [done|]. f_equal. lia.
Qed.

(** X24.  What [search] without limit finds: a hit is a line of the output
    log of a minion that has a [meta.json], or, when the logs are asked for
    and the metadata hold a container id, a line of what docker logs prints
    for it, that matches the query; it tells the directory name, the source,
    the line number counted from 1 and the line.  Every such line is a hit;
    a minion without output log, or whose logs docker cannot give, has no
    hit from that source. *)
Theorem search_hits e query cs lg h hit :
  hit ∈ search e query (mkSearchOptions cs 0 lg) h ↔
  ∃ d meta out j,
    minions h !! hit_minion hit = Some d ∧ metaJson d = Some meta ∧
    splitLines out !! j = Some (hit_text hit) ∧ hit_line hit = (j + 1)%nat ∧
    lineMatches cs query (hit_text hit) = true ∧
    ((hit_source hit = "output" ∧ readOutput d = Some out) ∨
     (hit_source hit = "logs" ∧ lg = true ∧ Js.truthy (containerId meta) = true ∧
      docker e ("logs hive-" ++ hit_minion hit ++ " 2>&1") = Some out)).
Proof.
  rewrite search_run. simpl. unfold allHits. rewrite list_elem_of_bind. split.
  - intros ([k d] & Hin & Hk). apply entries_elem in Hk.
    unfold minionHits in Hin. simpl in Hin.
    destruct (metaJson d) as [meta|] eqn:Hm; [|by apply elem_of_nil in Hin].
    apply elem_of_app in Hin as [Hin|Hin].
    + destruct (readOutput d) as [out|] eqn:Ho; [|by apply elem_of_nil in Hin].
      apply lineHits_elem in Hin as (j & l & Hj & Ht & ->). simpl.
      exists d, meta, out, j. eauto 10.
    + destruct (lg && Js.truthy (containerId meta)) eqn:Hlg; [|by apply elem_of_nil in Hin].
      apply andb_true_iff in Hlg as [-> Htr].
      destruct (docker e _) as [out|] eqn:Hd; [|by apply elem_of_nil in Hin].
      apply lineHits_elem in Hin as (j & l & Hj & Ht & ->). simpl.
      exists d, meta, out, j. split; [done|]. split; [done|]. split; [done|].
      split; [done|]. split; [done|]. right. done.
  - intros (d & meta & out & j & Hk & Hm & Hj & Hline & Ht & Hsrc).
    exists (hit_minion hit, d). split; [|by apply entries_elem].
    unfold minionHits. simpl. rewrite Hm. apply elem_of_app.
    destruct hit as [hm hs hl ht]. simpl in *. subst hl.
    destruct Hsrc as [[-> Ho]|(-> & -> & Htr & Hd)].
    + left. rewrite Ho. apply lineHits_elem. exists j, ht. done.
    + right. rewrite Htr, Hd. simpl. apply lineHits_elem. exists j, ht. done.
Qed.

Lemma prefixBy_eqb q : ∀ s, prefixBy Ascii.eqb q s = true ↔ ∃ post, s = q ++ post.
Proof.
  induction q as [|a q IH]; intros s; simpl.
  - split; [eauto|done].
  - destruct s as [|b s].
    + split; [done|]. intros [post H]. by rewrite append_cons in H.
    + rewrite andb_true_iff, IH. split.
      * intros [Hab [post ->]]. apply Ascii.eqb_eq in Hab as ->. exists post.
        by rewrite append_cons.
      * intros [post H]. rewrite append_cons in H. injection H as -> ->.
        split; [apply Ascii.eqb_refl|eauto].
Qed.

Lemma prefixBy_canonical q : ∀ s,
  prefixBy (λ a b, Ascii.eqb (canonicalize a) (canonicalize b)) q s =
  prefixBy Ascii.eqb (canonical q) (canonical s).
Proof.
  induction q as [|a q IH]; intros s; simpl; [done|].
  destruct s as [|b s]; simpl; [done|]. by rewrite IH.
Qed.

Lemma containsBy_canonical q s :
  containsBy (λ a b, Ascii.eqb (canonicalize a) (canonicalize b)) q s =
  containsBy Ascii.eqb (canonical q) (canonical s).
Proof.
  induction s as [|b s IH]; simpl.
  - by rewrite (prefixBy_canonical q "").
  - rewrite IH. f_equal. apply (prefixBy_canonical q (String b s)).
Qed.

Lemma containsBy_eqb q s :
  containsBy Ascii.eqb q s = true ↔ ∃ pre post, s = pre ++ q ++ post.
Proof.
  induction s as [|b s IH]; simpl.
  - rewrite orb_false_r, prefixBy_eqb. split.
    + intros [post H]. exists "", post. done.
    + intros (pre & post & H). destruct pre; [eauto|]. by rewrite append_cons in H.
  - rewrite orb_true_iff, prefixBy_eqb, IH. split.
    + intros [[post H]|(pre & post & ->)].
      * exists "", post. done.
      * exists (String b pre), post. by rewrite append_cons.
    + intros ([|c pre] & post & H).
      * left. exists post. done.
      * right. rewrite append_cons in H. injection H as -> ->. eauto.
Qed.

Lemma canonical_app a b : canonical (a ++ b) = canonical a ++ canonical b.
Proof.
  induction a as [|c a IH]; [done|]. rewrite append_cons. simpl.
  by rewrite IH, append_cons.
Qed.

Lemma plain_differs c x : special c = false → special x = true → Ascii.eqb c x = false.
Proof.
  intros Hc Hx. destruct (Ascii.eqb_spec c x) as [->|]; [congruence|done].
Qed.

Ltac plain Hc :=
  repeat match goal with
         | |- context [Ascii.eqb ?c ?x] => rewrite (plain_differs c x Hc (eq_refl true))
         end.

Lemma special_syntaxCharacter c : special c = RegExp.syntaxCharacter c.
Proof.
  unfold special, RegExp.syntaxCharacter. simpl.
  repeat match goal with
         | |- context [Ascii.eqb c ?x] => destruct (Ascii.eqb c x); simpl
         end; reflexivity.
Qed.

Lemma special_not_alphanumeric c : special c = true → RegExp.alphanumeric c = false.
Proof.
  unfold special. simpl. rewrite !orb_true_iff.
  intros H. repeat destruct H as [H|H]; try discriminate;
    apply Ascii.eqb_eq in H; subst c; reflexivity.
Qed.

Lemma atom_escaped disjunction c r :
  special c = true →
  RegExp.atom disjunction (String "\" (String c r)) = RegExp.Parses (RegExp.Chr c, r).
Proof. intros Hc. simpl. by rewrite (special_not_alphanumeric c Hc). Qed.

Lemma atom_plain disjunction c r :
  special c = false →
  RegExp.atom disjunction (String c r) = RegExp.Parses (RegExp.Chr c, r).
Proof.
  intros Hc. unfold RegExp.atom.
  by plain Hc.
Qed.

Lemma quantifier_escaped q :
  RegExp.quantifier (escaped q) = RegExp.Parses (None, escaped q).
Proof.
  destruct q as [|c q]; [done|]. simpl. destruct (special c) eqn:Hc; [done|].
  unfold RegExp.quantifier. by plain Hc.
Qed.

Lemma term_escaped disjunction c q :
  RegExp.term disjunction (escaped (String c q)) = RegExp.Parses (RegExp.Chr c, escaped q).
Proof.
  simpl. unfold RegExp.term. destruct (special c) eqn:Hc.
  - rewrite (atom_escaped _ _ _ Hc). simpl. by rewrite quantifier_escaped.
  - rewrite (atom_plain _ _ _ Hc). simpl. by rewrite quantifier_escaped.
Qed.

Lemma alternative_escaped disjunction q : ∀ fuel,
  String.length (escaped q) < fuel →
  RegExp.alternative (RegExp.term disjunction) fuel (escaped q)
  = RegExp.Parses (literal q, "").
Proof.
  induction q as [|c q IH]; intros fuel Hf.
  - destruct fuel; [simpl in Hf; lia|done].
  - destruct fuel as [|fuel]; [lia|].
    assert (Hlen : String.length (escaped q) < fuel).
    { simpl in Hf. destruct (special c); simpl in Hf; lia. }
    assert (∃ d r, escaped (String c q) = String d r ∧
                           (Ascii.eqb d "|" || Ascii.eqb d ")") = false) as (d & r & Heq & Hd).
    { simpl. destruct (special c) eqn:Hc; [by eexists _, _|].
      eexists _, _. split; [done|]. by plain Hc. }
    cbn [RegExp.alternative]. rewrite Heq, Hd, <- Heq, term_escaped. simpl.
    by rewrite (IH fuel Hlen).
Qed.

Lemma regex_parses query : regex query = RegExp.Parses (literal query).
Proof.
  unfold regex, RegExp.RegExp. cbn [RegExp.disjunction].
  rewrite alternative_escaped by lia. done.
Qed.

Lemma ends_literal ci q : ∀ prev s,
  RegExp.matchesAt ci (literal q) (prev, s) = prefixBy (RegExp.sameChar ci) q s.
Proof.
  unfold RegExp.matchesAt.
  induction q as [|c q IH]; intros prev s; [done|].
  simpl. unfold RegExp.single. simpl. destruct s as [|d s]; [done|].
  destruct (RegExp.sameChar ci c d); [|done]. simpl.
  rewrite app_nil_r. apply IH.
Qed.

Lemma scan_literal ci q : ∀ prev s,
  RegExp.scan ci (literal q) prev s = containsBy (RegExp.sameChar ci) q s.
Proof.
  intros prev s. revert prev.
  induction s as [|d s IH]; intros prev; simpl; rewrite ends_literal; [done|].
  by rewrite IH.
Qed.

Lemma lineMatches_contains cs query line :
  lineMatches cs query line = containsBy (RegExp.sameChar (negb cs)) query line.
Proof.
  unfold lineMatches. rewrite regex_parses. apply scan_literal.
Qed.

(** X25.  What matching the query means.  The query is escaped, made a
    regular expression and tried on the line.  The escaped query is always a
    well-formed pattern, so the constructor never throws.  A case-sensitive
    search matches a line exactly when the query occurs in it as a
    substring, the characters that are special in regular expressions
    standing for themselves; a search that is not case sensitive matches
    exactly when the canonical form of the query occurs in the canonical
    form of the line, so every case-sensitive match is one; the empty query
    matches every line.  The escaping matters: as patterns of their own,
    [a.c] matches the line [abc], which the query [a.c] does not, and [(] is
    a syntax error, while the query [(] finds the lines with a bracket. *)
Theorem lineMatches_spec query line :
  (∃ re, regex query = RegExp.Parses re) ∧
  (lineMatches true query line = true ↔ ∃ pre post, line = pre ++ query ++ post) ∧
  (lineMatches false query line = true ↔
     ∃ pre post, canonical line = pre ++ canonical query ++ post) ∧
  (lineMatches true query line = true → lineMatches false query line = true) ∧
  (∀ cs, lineMatches cs "" line = true) ∧
  (∀ c, special c = RegExp.syntaxCharacter c) ∧
  (∃ re, RegExp.RegExp "a.c" = RegExp.Parses re ∧ RegExp.test false re "abc" = true) ∧
  lineMatches true "a.c" "abc" = false ∧
  RegExp.RegExp "(" = RegExp.SyntaxError ∧
  lineMatches true "(" "f(x)" = true.
Proof.
  split; [rewrite regex_parses; by eexists|].
  rewrite !lineMatches_contains. simpl negb.
  change (RegExp.sameChar false) with Ascii.eqb.
  change (RegExp.sameChar true) with (λ a b, Ascii.eqb (canonicalize a) (canonicalize b)).
  rewrite containsBy_canonical, !containsBy_eqb.
  split; [done|]. split; [done|]. split.
  { intros (pre & post & ->). exists (canonical pre), (canonical post).
    by rewrite !canonical_app. }
  split.
  { intros cs. rewrite lineMatches_contains.
    destruct cs; simpl; [by destruct line|].
    by destruct line. }
  split; [apply special_syntaxCharacter|].
  split; [eexists; split; reflexivity|].
  split; [reflexivity|]. split; [reflexivity|]. by exists "f", "x)".
Qed.

(** * Examples of the mailbox order and of the names *)

(** [send_then_inbox] on the fan: [a] writes to [dep]. *)
Lemma send_then_inbox_witness :
  ∃ msg, (send (envAt 1000 "k3x9") "a" "dep" "hello" fanHive).1 = Ok msg ∧
    msg_body msg = "hello" ∧
    inbox "dep" (after (send (envAt 1000 "k3x9") "a" "dep" "hello") fanHive)
    = (Ok [msg], after (send (envAt 1000 "k3x9") "a" "dep" "hello") fanHive).
Proof.
  destruct (send_then_inbox (envAt 1000 "k3x9") "a" "dep" "hello" fanHive
              (ex_intro _ _ eq_refl) (ex_intro _ _ eq_refl) eq_refl)
    as (msg & Hs & _ & _ & Hb & Hi).
  exists msg. split; [exact Hs|]. split; [exact Hb|exact Hi].
Defined.

(** [inbox_send_order] on the fan: [a] and then [b] write to [dep] while the
    clock has four digits. *)
Lemma inbox_send_order_witness :
  inbox "dep" (after (sendAll "dep" [(envAt 1000 "k3x9", "a", "from a");
                                     (envAt 2000 "qq22", "b", "from b")]) fanHive)
  = (Ok [message (envAt 1000 "k3x9") "a" "dep" "from a";
         message (envAt 2000 "qq22") "b" "dep" "from b"],
     after (sendAll "dep" [(envAt 1000 "k3x9", "a", "from a");
                           (envAt 2000 "qq22", "b", "from b")]) fanHive).
Proof.
  refine (proj2 (inbox_send_order 4 "dep"
            [(envAt 1000 "k3x9", "a", "from a"); (envAt 2000 "qq22", "b", "from b")]
            fanHive (ex_intro _ _ eq_refl) _ eq_refl _)).
  - intros step Hstep. apply elem_of_cons in Hstep as [->|Hstep]; [by eexists|].
    apply elem_of_cons in Hstep as [->|Hstep]; [by eexists|]. by apply elem_of_nil in Hstep.
  - apply SSorted_cons; [apply SSorted_cons; [apply SSorted_nil|apply Forall_nil_2]|].
    apply Forall_cons. split; [|apply Forall_nil_2].
    split; [reflexivity|]. split; reflexivity.
Defined.

(** [reachable_named] on the hive after one [spawn]. *)
Lemma reachable_named_witness :
  named (step (envWith dockerOk) (OpSpawn "a" "first" noOptions) emptyHive).
Proof. apply reachable_named. apply reach_step. apply reach_empty. Defined.
